(** * Email ingestion and unsubscribe pipeline: a shallow embedding

    The development follows the TypeScript sources of the repository:
    - [lib/unsubscribe-detector] : [extractUnsubscribeInfo], [extractFromHeader],
      [extractFromBody];
    - [lib/openai]               : [classifyEmail];
    - [lib/gmail]                : [getEmailBody], [parseEmailMessage];
    - [lib/encryption]           : [encrypt], [decrypt];
    - [lib/unsubscribe-executor] : [executeHeaderUnsubscribe],
      [executeSimpleUnsubscribe], [unsubscribeEmail];
    - [app/api/cron/sync-emails] : the per-account ingestion loop of [POST].

    JavaScript strings are sequences of UTF-16 code units; exceptions are
    explicit results; the outside world (HTTP, browser, model service,
    database, HTML parser, crypto primitives) is an explicit argument. *)

From Stdlib Require Import List NArith ZArith QArith Bool String Ascii Lia Arith.
From Stdlib.Strings Require Import Byte.
From Stdlib Require Import DecimalString SpecFloat.
Import ListNotations.

Set Implicit Arguments.

Close Scope Q_scope.
Open Scope nat_scope.
Open Scope list_scope.

(** ** JavaScript strings *)

Module JS.

(** A string is the list of its UTF-16 code units. *)
Definition jsstring := list N.

Definition lit (s : string) : jsstring :=
  map N_of_ascii (list_ascii_of_string s).

Fixpoint str_eqb (a b : jsstring) : bool :=
  match a, b with
  | [], [] => true
  | x :: a', y :: b' => N.eqb x y && str_eqb a' b'
  | _, _ => false
  end.

(** [s.startsWith(p)] *)
Fixpoint startsWith (p s : jsstring) : bool :=
  match p, s with
  | [], _ => true
  | _ :: _, [] => false
  | x :: p', y :: s' => N.eqb x y && startsWith p' s'
  end.

(** [s.includes(p)] *)
Fixpoint includes (p s : jsstring) : bool :=
  startsWith p s ||
  match s with
  | [] => false
  | _ :: s' => includes p s'
  end.

(** [s.substring(0, n)] for a non-negative integer [n]: the first [n] code
    units (the whole string when it is shorter). *)
Definition substring0 (n : nat) (s : jsstring) : jsstring := firstn n s.

(** [s.slice(1, -1)] *)
Definition slice_1_m1 (s : jsstring) : jsstring :=
  match s with
  | [] => []
  | _ :: t => removelast t
  end.

(** WhiteSpace and LineTerminator code units of ECMAScript, the set removed by
    [trim] and matched by the class [\s]. *)
Definition is_space (c : N) : bool :=
  (((9 <=? c) && (c <=? 13)) || (c =? 32) || (c =? 160) || (c =? 5760)
  || ((8192 <=? c) && (c <=? 8202)) || (c =? 8232) || (c =? 8233)
  || (c =? 8239) || (c =? 8287) || (c =? 12288) || (c =? 65279))%N.

(** LineTerminator code units, the ones [.] does not match. *)
Definition is_line_terminator (c : N) : bool :=
  ((c =? 10) || (c =? 13) || (c =? 8232) || (c =? 8233))%N.

Fixpoint trimStart (s : jsstring) : jsstring :=
  match s with
  | c :: t => if is_space c then trimStart t else s
  | [] => []
  end.

Definition trimEnd (s : jsstring) : jsstring := rev (trimStart (rev s)).

Definition trim (s : jsstring) : jsstring := trimEnd (trimStart s).

(** Truthiness of a string: only the empty string is falsy. *)
Definition truthy (s : jsstring) : bool :=
  match s with [] => false | _ :: _ => true end.

Definition is_high_surrogate (c : N) : bool :=
  ((55296 <=? c) && (c <=? 56319))%N.
Definition is_low_surrogate (c : N) : bool :=
  ((56320 <=? c) && (c <=? 57343))%N.
Definition is_surrogate (c : N) : bool :=
  ((55296 <=? c) && (c <=? 57343))%N.

(** Strings of code units in which every surrogate is paired. *)
Fixpoint well_formed (s : jsstring) : bool :=
  match s with
  | [] => true
  | c :: t =>
      if is_high_surrogate c then
        match t with
        | d :: t' => is_low_surrogate d && well_formed t'
        | [] => false
        end
      else negb (is_low_surrogate c) && (c <? 65536)%N && well_formed t
  end.

(** Exceptions: error objects carry a message and, for database errors, a
    code; [type_error] marks the [TypeError]s that are not network errors
    of [fetch], the errors [pRetry] does not retry. *)
Record exn := Exn {
  message : jsstring;
  code : option jsstring;
  type_error : bool
}.

(** [new Error(message)], with the code a library may add. *)
Definition Error (message : jsstring) (code : option jsstring) : exn :=
  {| message := message; code := code; type_error := false |}.

(** A [TypeError], as the runtime throws when a property of [undefined] or
    [null] is read. *)
Definition TypeError (message : jsstring) : exn :=
  {| message := message; code := None; type_error := true |}.

Inductive Exc (A : Type) : Type :=
| Ok (a : A)
| Throw (e : exn).
Arguments Ok {A} a.
Arguments Throw {A} e.

Definition bind {A B} (m : Exc A) (k : A -> Exc B) : Exc B :=
  match m with
  | Ok a => k a
  | Throw e => Throw e
  end.

(** [try { m } catch (e) { h e }] *)
Definition try_catch {A} (m : Exc A) (h : exn -> Exc A) : Exc A :=
  match m with
  | Ok a => Ok a
  | Throw e => h e
  end.

End JS.

Import JS.

Declare Scope js_scope.
Delimit Scope js_scope with js.
Notation "x <- m ;; k" := (JS.bind m (fun x => k))
  (at level 61, m at next level, right associativity) : js_scope.

(** ** Regular expressions

    The fragment used by the pattern tables of the sources: literals under the
    [i] flag, [.], [\s], negated single-character classes, sequence,
    [?], [*], [+].  [rem r s] lists the suffixes of [s] left after a match
    of [r] at the start of [s], in the order the backtracking matcher of
    ECMAScript explores them (greedy quantifiers first take, then skip). *)

Module Regex.

Inductive cls :=
| Chr (c : N)          (* a literal of a pattern without the [i] flag *)
| Lit (c : N)          (* a literal, compared case-insensitively *)
| Dot                  (* [.] : anything but a line terminator *)
| Space                (* [\s] *)
| NotLit (c : N).      (* [[^c]] *)

(** Canonicalisation of the [i] flag on code units.  On a non-ASCII unit the
    ECMAScript rule never yields an ASCII unit, and every literal of the
    pattern tables is ASCII, so only the ASCII letters need folding. *)
Definition canon (c : N) : N :=
  if ((97 <=? c) && (c <=? 122))%N then (c - 32)%N else c.

Definition cls_match (p : cls) (c : N) : bool :=
  match p with
  | Chr x => N.eqb x c
  | Lit x => N.eqb (canon x) (canon c)
  | Dot => negb (is_line_terminator c)
  | Space => is_space c
  | NotLit x => negb (N.eqb x c)
  end.

Inductive re :=
| Eps
| Cls (p : cls)
| Cat (a b : re)
| Opt (a : re)
| Star (a : re).

Definition Plus (a : re) : re := Cat a (Star a).

(** A word, letter by letter. *)
Fixpoint word (s : jsstring) : re :=
  match s with
  | [] => Eps
  | c :: t => Cat (Cls (Lit c)) (word t)
  end.

(** A word of a pattern without the [i] flag. *)
Fixpoint word_exact (s : jsstring) : re :=
  match s with
  | [] => Eps
  | c :: t => Cat (Cls (Chr c)) (word_exact t)
  end.

(** The word [s] under the [i] flag. *)
Definition w (s : string) : re := word (lit s).

(** A sequence of sub-patterns. *)
Fixpoint seq (rs : list re) : re :=
  match rs with
  | [] => Eps
  | [r] => r
  | r :: rs' => Cat r (seq rs')
  end.

Definition any : re := Cls Dot.
Definition sp : re := Cls Space.

(** Greedy iteration; an iteration that consumes nothing is not repeated. *)
Fixpoint star_iter (f : jsstring -> list jsstring) (fuel : nat) (s : jsstring)
  : list jsstring :=
  match fuel with
  | O => [s]
  | S fuel' =>
      flat_map (fun s' => if (List.length s' <? List.length s)%nat
                          then star_iter f fuel' s' else [])
               (f s)
      ++ [s]
  end.

Fixpoint rem (r : re) (s : jsstring) : list jsstring :=
  match r with
  | Eps => [s]
  | Cls p =>
      match s with
      | c :: t => if cls_match p c then [t] else []
      | [] => []
      end
  | Cat a b => flat_map (rem b) (rem a s)
  | Opt a => rem a s ++ [s]
  | Star a => star_iter (rem a) (List.length s) s
  end.

(** The match found at the start of [s], if any: matched text and rest. *)
Definition exec_at (r : re) (s : jsstring) : option (jsstring * jsstring) :=
  match rem r s with
  | [] => None
  | s' :: _ => Some (firstn (List.length s - List.length s') s, s')
  end.

(** The leftmost match in [s]. *)
Fixpoint search (r : re) (s : jsstring) : option (jsstring * jsstring) :=
  match exec_at r s with
  | Some m => Some m
  | None =>
      match s with
      | [] => None
      | _ :: t => search r t
      end
  end.

(** [r.test(s)] for a pattern without the [g] flag. *)
Definition test (r : re) (s : jsstring) : bool :=
  match search r s with Some _ => true | None => false end.

(** [s.match(r)] for a pattern with the [g] flag whose matches are never
    empty: all matched texts left to right ([null] is the empty list). *)
Fixpoint match_all (fuel : nat) (r : re) (s : jsstring) : list jsstring :=
  match fuel with
  | O => []
  | S fuel' =>
      match search r s with
      | None => []
      | Some (m, rest) => m :: match_all fuel' r rest
      end
  end.

Definition match_g (r : re) (s : jsstring) : list jsstring :=
  match_all (S (List.length s)) r s.

(** [patterns.some((pattern) => pattern.test(s))] *)
Definition some_test (patterns : list re) (s : jsstring) : bool :=
  existsb (fun p => test p s) patterns.

End Regex.

Import Regex.

(** ** Node buffers: UTF-8 transcoding

    [Buffer.from(s, 'utf8')] (also the input encoding of [cipher.update]) and
    [buf.toString('utf8')]. *)

Module Buffer.

Definition bytes := list byte.

Definition byte_of (n : N) : byte :=
  match Byte.of_N n with
  | Some b => b
  | None => x00
  end.

Definition replacement : bytes := [xef; xbf; xbd].   (* U+FFFD *)

(** Encoding: an unpaired surrogate is written as U+FFFD. *)
Fixpoint utf8_encode (s : jsstring) : bytes :=
  match s with
  | [] => []
  | c :: t =>
      if (c <? 128)%N then byte_of c :: utf8_encode t
      else if (c <? 2048)%N then
        byte_of (192 + c / 64) :: byte_of (128 + c mod 64) :: utf8_encode t
      else if is_high_surrogate c then
        match t with
        | d :: t' =>
            if is_low_surrogate d then
              let cp := (65536 + (c - 55296) * 1024 + (d - 56320))%N in
              byte_of (240 + cp / 262144)
                :: byte_of (128 + (cp / 4096) mod 64)
                :: byte_of (128 + (cp / 64) mod 64)
                :: byte_of (128 + cp mod 64) :: utf8_encode t'
            else replacement ++ utf8_encode t
        | [] => replacement
        end
      else if is_low_surrogate c then replacement ++ utf8_encode t
      else
        byte_of (224 + c / 4096) :: byte_of (128 + (c / 64) mod 64)
          :: byte_of (128 + c mod 64) :: utf8_encode t
  end.

(** [Buffer.byteLength(s, 'utf8')] *)
Definition byteLength (s : jsstring) : nat := List.length (utf8_encode s).

Definition in_range (lo hi : N) (b : byte) : bool :=
  ((lo <=? Byte.to_N b) && (Byte.to_N b <=? hi))%N.

(** The code units of a code point. *)
Definition units_of (cp : N) : jsstring :=
  if (cp <? 65536)%N then [cp]
  else [(55296 + (cp - 65536) / 1024)%N; (56320 + (cp - 65536) mod 1024)%N].

(** Bounds of the first continuation byte after the lead byte [b0]. *)
Definition second_lo (b0 : byte) : N :=
  (if Byte.to_N b0 =? 224 then 160
   else if Byte.to_N b0 =? 240 then 144 else 128)%N.
Definition second_hi (b0 : byte) : N :=
  (if Byte.to_N b0 =? 237 then 159
   else if Byte.to_N b0 =? 244 then 143 else 191)%N.

(** Decoding, as the WHATWG decoder does it: every maximal ill-formed
    subsequence becomes one U+FFFD, and no byte-order mark is removed. *)
Fixpoint utf8_decode (bs : bytes) : jsstring :=
  match bs with
  | [] => []
  | b0 :: r0 =>
      let n0 := Byte.to_N b0 in
      if (n0 <? 128)%N then n0 :: utf8_decode r0
      else if in_range 194 223 b0 then
        match r0 with
        | b1 :: r1 =>
            if in_range 128 191 b1
            then ((n0 - 192) * 64 + (Byte.to_N b1 - 128))%N :: utf8_decode r1
            else 65533%N :: utf8_decode r0
        | [] => [65533%N]
        end
      else if in_range 224 239 b0 then
        match r0 with
        | b1 :: r1 =>
            if in_range (second_lo b0) (second_hi b0) b1 then
              match r1 with
              | b2 :: r2 =>
                  if in_range 128 191 b2
                  then ((n0 - 224) * 4096 + (Byte.to_N b1 - 128) * 64
                        + (Byte.to_N b2 - 128))%N :: utf8_decode r2
                  else 65533%N :: utf8_decode r1
              | [] => [65533%N]
              end
            else 65533%N :: utf8_decode r0
        | [] => [65533%N]
        end
      else if in_range 240 244 b0 then
        match r0 with
        | b1 :: r1 =>
            if in_range (second_lo b0) (second_hi b0) b1 then
              match r1 with
              | b2 :: r2 =>
                  if in_range 128 191 b2 then
                    match r2 with
                    | b3 :: r3 =>
                        if in_range 128 191 b3
                        then units_of ((n0 - 240) * 262144
                                       + (Byte.to_N b1 - 128) * 4096
                                       + (Byte.to_N b2 - 128) * 64
                                       + (Byte.to_N b3 - 128))%N
                             ++ utf8_decode r3
                        else 65533%N :: utf8_decode r2
                    | [] => [65533%N]
                    end
                  else 65533%N :: utf8_decode r1
              | [] => [65533%N]
              end
            else 65533%N :: utf8_decode r0
        | [] => [65533%N]
        end
      else 65533%N :: utf8_decode r0
  end.

End Buffer.

Import Buffer.

(** ** Base64

    The standard alphabet with padding.  Decoding is the forgiving one of
    Node: characters outside the alphabets are skipped, the URL-safe
    characters are accepted, and decoding stops at the first padding
    character. *)

Module Base64.

Definition ch (n : N) : N :=
  (if n <? 26 then 65 + n
   else if n <? 52 then 71 + n
   else if n <? 62 then n - 4
   else if n =? 62 then 43 else 47)%N.

Definition unbase64 (c : N) : option N :=
  (if (65 <=? c) && (c <=? 90) then Some (c - 65)
   else if (97 <=? c) && (c <=? 122) then Some (c - 71)
   else if (48 <=? c) && (c <=? 57) then Some (c + 4)
   else if (c =? 43) || (c =? 45) then Some 62
   else if (c =? 47) || (c =? 95) then Some 63
   else None)%N.

Definition pad : N := 61%N.

Fixpoint encode (bs : bytes) : jsstring :=
  match bs with
  | [] => []
  | [a] =>
      let a := Byte.to_N a in
      [ch (a / 4); ch ((a mod 4) * 16); pad; pad]%N
  | [a; b] =>
      let a := Byte.to_N a in
      let b := Byte.to_N b in
      [ch (a / 4); ch ((a mod 4) * 16 + b / 16); ch ((b mod 16) * 4); pad]%N
  | a :: b :: c :: t =>
      let a := Byte.to_N a in
      let b := Byte.to_N b in
      let c := Byte.to_N c in
      (ch (a / 4) :: ch ((a mod 4) * 16 + b / 16)
         :: ch ((b mod 16) * 4 + c / 64) :: ch (c mod 64) :: encode t)%N
  end.

Fixpoint sextets (s : jsstring) : list N :=
  match s with
  | [] => []
  | c :: t =>
      if (c =? pad)%N then []
      else match unbase64 c with
           | Some v => v :: sextets t
           | None => sextets t
           end
  end.

Fixpoint group (vs : list N) : bytes :=
  match vs with
  | s0 :: s1 :: s2 :: s3 :: t =>
      (byte_of (s0 * 4 + s1 / 16) :: byte_of ((s1 mod 16) * 16 + s2 / 4)
         :: byte_of ((s2 mod 4) * 64 + s3) :: group t)%N
  | [s0; s1; s2] =>
      [byte_of (s0 * 4 + s1 / 16); byte_of ((s1 mod 16) * 16 + s2 / 4)]%N
  | [s0; s1] => [byte_of (s0 * 4 + s1 / 16)]%N
  | _ => []
  end.

Definition decode (s : jsstring) : bytes := group (sextets s).

End Base64.

(** ** Unsubscribe detector ([lib/unsubscribe-detector]) *)

Module Detector.

Inductive Method := header | link | none.

(** The string the source writes for each method. *)
Definition method_name (m : Method) : jsstring :=
  match m with
  | header => lit "header"
  | link => lit "link"
  | none => lit "none"
  end.

Record UnsubscribeInfo := { url : option jsstring; method : Method }.

Record Headers := { listUnsubscribe : option jsstring }.

(** [/<([^>]+)>/g] *)
Definition angle_re : re :=
  seq [Cls (Chr 60); Plus (Cls (NotLit 62)); Cls (Chr 62)].

(** The URIs of a header value: every angle-bracket match, brackets removed,
    trimmed. *)
Definition header_urls (headerValue : jsstring) : list jsstring :=
  map (fun m => trim (slice_1_m1 m)) (match_g angle_re headerValue).

Definition extractFromHeader (headerValue : jsstring) : option jsstring :=
  match match_g angle_re headerValue with
  | [] => None
  | urlMatches =>
      let urls := map (fun m => trim (slice_1_m1 m)) urlMatches in
      match find (fun u => startsWith (lit "http") u) urls with
      | Some httpUrl => Some httpUrl
      | None =>
          match find (fun u => startsWith (lit "mailto:") u) urls with
          | Some mailtoUrl => Some mailtoUrl
          | None => None
          end
      end
  end.

(** Absolute HTTP(S) URIs and mailto URIs. *)
Definition is_http_uri (u : jsstring) : bool :=
  startsWith (lit "http://") u || startsWith (lit "https://") u.

Definition is_mailto_uri (u : jsstring) : bool :=
  startsWith (lit "mailto:") u.


(** The pattern table of [extractFromBody]. *)
Definition unsubscribePatterns : list re :=
  [ w "unsubscribe";
    seq [w "opt"; Opt any; w "out"];
    seq [w "remove"; Opt any; w "me"];
    seq [w "email"; Opt any; w "preferences"];
    seq [w "manage"; Opt any; w "subscription"; Opt (w "s")];
    seq [w "stop"; Opt any; w "receiving"] ].

(** What [extractFromBody] reads of one element selected by [a[href]]. *)
Record Anchor := {
  a_href : jsstring;               (* [$(element).attr('href')] *)
  a_text : jsstring;               (* [$(element).text()] *)
  a_class : option jsstring;       (* [$(element).attr('class')] *)
  parent_text : jsstring;          (* [$(element).parent().text()] *)
  parent_is_footer : bool;         (* [parent.is('footer')] *)
  parent_closest_footer : nat      (* [parent.closest('footer').length] *)
}.

Record Candidate := { c_href : jsstring; priority : nat }.

(** [Array.prototype.sort] with a comparator: a stable sort (ECMAScript 2019
    and later; the Dockerfile of the repository names Node 18). *)
Section Sort.
Variable A : Type.
Variable cmp : A -> A -> Z.

Fixpoint insert (x : A) (l : list A) : list A :=
  match l with
  | [] => [x]
  | y :: t => if (cmp x y <=? 0)%Z then x :: l else y :: insert x t
  end.

Fixpoint sort (l : list A) : list A :=
  match l with
  | [] => []
  | x :: t => insert x (sort t)
  end.
End Sort.

Section WithRuntime.

(** [String.prototype.toLowerCase], a primitive of the runtime. *)
Variable toLowerCase : jsstring -> jsstring.

(** The HTML parser: [cheerio.load(emailBody)] followed by the selection
    [$('a[href]')] and the reads of the callback, in document order; a
    failure anywhere in the library is an exception. *)
Variable cheerio_links : jsstring -> Exc (list Anchor).

Definition href_matches (a : Anchor) : bool :=
  some_test unsubscribePatterns (toLowerCase (a_href a)).

Definition text_matches (a : Anchor) : bool :=
  some_test unsubscribePatterns (trim (a_text a)).

Definition class_matches (a : Anchor) : bool :=
  some_test unsubscribePatterns
    (match a_class a with
     | Some c => if truthy c then c else []
     | None => []
     end).

Definition in_footer (a : Anchor) : bool :=
  includes (lit "footer") (toLowerCase (parent_text a))
  || parent_is_footer a
  || (0 <? parent_closest_footer a)%nat.

(** The body of the [each] callback up to the push. *)
Definition score (a : Anchor) : nat :=
  (if href_matches a then 3 else 0)
  + (if text_matches a then 5 else 0)
  + (if class_matches a then 2 else 0)
  + (if in_footer a then 1 else 0).

Definition scored (a : Anchor) : bool :=
  truthy (a_href a) && startsWith (lit "http") (a_href a).



Fixpoint candidateLinks (links : list Anchor) : list Candidate :=
  match links with
  | [] => []
  | a :: rest =>
      if scored a then
        if (0 <? score a)%nat
        then {| c_href := a_href a; priority := score a |}
             :: candidateLinks rest
        else candidateLinks rest
      else candidateLinks rest
  end.

Definition by_priority (a b : Candidate) : Z :=
  (Z.of_nat (priority b) - Z.of_nat (priority a))%Z.

Definition pick (cands : list Candidate) : option jsstring :=
  match cands with
  | [] => None
  | _ :: _ =>
      match sort by_priority cands with
      | c :: _ => Some (c_href c)
      | [] => None
      end
  end.

Definition extractFromBody (emailBody : jsstring) : Exc (option jsstring) :=
  try_catch
    (links <- cheerio_links emailBody ;;
     Ok (pick (candidateLinks links)))%js
    (fun _ => Ok None).

Definition extractUnsubscribeInfo (emailBody : jsstring) (headers : Headers)
  : Exc UnsubscribeInfo :=
  let from_body :=
    (bodyUrl <- extractFromBody emailBody ;;
     match bodyUrl with
     | Some u => if truthy u then Ok {| url := Some u; method := link |}
                 else Ok {| url := None; method := none |}
     | None => Ok {| url := None; method := none |}
     end)%js in
  match listUnsubscribe headers with
  | Some h =>
      if truthy h then
        match extractFromHeader h with
        | Some headerUrl =>
            if truthy headerUrl
            then Ok {| url := Some headerUrl; method := header |}
            else from_body
        | None => from_body
        end
      else from_body
  | None => from_body
  end.

End WithRuntime.

End Detector.

(** ** Classification ([lib/openai]) *)

Module Classifier.

Record Category := { cat_id : jsstring; cat_name : jsstring;
                     cat_description : jsstring }.

Record EmailData := { subject : jsstring; from : jsstring; body : jsstring }.

(** The Number type: IEEE 754 binary64, with the comparison [SFltb] of the
    specification of floating-point numbers. *)
Definition double := spec_float.

(** The Number value of a decimal numeral, in a program text or in a JSON
    text: the double nearest to it, ties to even.  The quotient is taken
    with more than 64 bits and a sticky bit, then rounded. *)
Definition to_double (q : Q) : double :=
  match Qnum q with
  | Z0 => S754_zero false
  | n =>
      let d := Zpos (Qden q) in
      let s := (64 + Z.log2 d)%Z in
      let a := (Z.abs n * 2 ^ s)%Z in
      let m := (2 * (a / d) + (if (a mod d =? 0)%Z then 0 else 1))%Z in
      binary_normalize 53 1024 (if (n <? 0)%Z then (- m)%Z else m)
                       (- s - 1)%Z false
  end.

Record ClassificationResult := {
  categoryId : option jsstring;
  confidence : double;
  reasoning : jsstring
}.

(** What the JSON text of an answer states, its number as it is written. *)
Record Reported := {
  r_categoryId : option jsstring;
  r_confidence : Q;
  r_reasoning : jsstring
}.

(** The object [JSON.parse] makes of it. *)
Definition parsed (answer : Reported) : ClassificationResult :=
  {| categoryId := r_categoryId answer;
     confidence := to_double (r_confidence answer);
     reasoning := r_reasoning answer |}.

(** The threshold [0.7]. *)
Definition threshold : double := to_double (7 # 10).

(** What an attempt returns for an answer that parses. *)
Definition gated (answer : Reported) : ClassificationResult :=
  {| categoryId := if SFltb (to_double (r_confidence answer))
                            (to_double (7 # 10))
                   then None else r_categoryId answer;
     confidence := to_double (r_confidence answer);
     reasoning := r_reasoning answer |}.

(** [xs.join(sep)] *)
Fixpoint join (sep : jsstring) (xs : list jsstring) : jsstring :=
  match xs with
  | [] => []
  | [x] => x
  | x :: rest => x ++ sep ++ join sep rest
  end.

Definition nl : jsstring := [10%N].
Definition dq : jsstring := [34%N].

Definition category_line (c : Category) : jsstring :=
  lit "ID: " ++ cat_id c ++ lit ", Name: " ++ cat_name c
  ++ lit ", Description: " ++ cat_description c.

Definition classify_prompt (email : EmailData) (categories : list Category)
  : jsstring :=
  let truncatedBody := substring0 1000 (body email) in
  lit "Analyze this email and classify it into the most appropriate category."
  ++ nl ++ nl ++ lit "Email:" ++ nl
  ++ lit "From: " ++ from email ++ nl
  ++ lit "Subject: " ++ subject email ++ nl
  ++ lit "Body: " ++ truncatedBody
  ++ (if (1000 <? List.length (body email))%nat
      then lit "... (truncated)" else [])
  ++ nl ++ nl ++ lit "Categories:" ++ nl
  ++ join nl (map category_line categories)
  ++ nl ++ nl ++ lit "Return JSON with:" ++ nl ++ lit "{" ++ nl
  ++ lit "  " ++ dq ++ lit "categoryId" ++ dq ++ lit ": " ++ dq
  ++ lit "<category_id>" ++ dq ++ lit " or null if no good match," ++ nl
  ++ lit "  " ++ dq ++ lit "confidence" ++ dq
  ++ lit ": <number between 0 and 1>," ++ nl
  ++ lit "  " ++ dq ++ lit "reasoning" ++ dq ++ lit ": " ++ dq
  ++ lit "<brief explanation>" ++ dq ++ nl ++ lit "}".

Definition summarize_prompt (email : EmailData) : jsstring :=
  let truncatedBody := substring0 1500 (body email) in
  lit "Summarize this email in 1-2 concise sentences. Focus on key information and action items."
  ++ nl ++ nl
  ++ lit "From: " ++ from email ++ nl
  ++ lit "Subject: " ++ subject email ++ nl
  ++ lit "Body: " ++ truncatedBody
  ++ (if (1500 <? List.length (body email))%nat
      then lit "... (truncated)" else []).

(** [pRetry(fn, { retries })]: [fn] runs with the attempt number, starting at
    one.  A [TypeError] that is not a network error is rejected at once; any
    other rejected attempt is followed by another while retries are left.
    When none is left the error of the last attempt is surfaced (the
    versions of the library built on [retry] surface the error whose message
    is the most frequent among the attempts, which is the last one when the
    messages are all different or all the same). *)
Fixpoint pRetry_from {A} (fn : nat -> Exc A) (attemptNumber retriesLeft : nat)
  : Exc A :=
  match fn attemptNumber with
  | Ok a => Ok a
  | Throw e =>
      if type_error e then Throw e
      else
        match retriesLeft with
        | O => Throw e
        | S r => pRetry_from fn (S attemptNumber) r
        end
  end.

Definition pRetry {A} (fn : nat -> Exc A) (retries : nat) : Exc A :=
  pRetry_from fn 1 retries.

Section WithService.

(** The completion service: for a prompt and an attempt number, the call
    fails (also with the [TypeError] of reading [choices[0]] of a reply that
    has no choices), or yields [response.choices[0]?.message?.content]. *)
Variable chat_completion : jsstring -> nat -> Exc (option jsstring).

(** [JSON.parse] at the type the source gives its result, up to the reading
    of the number: what the text states, a [SyntaxError] for a text that is
    not JSON, the [TypeError] of reading [confidence] for the text [null]. *)
Variable JSON_parse : jsstring -> Exc Reported.

Definition classify_attempt (email : EmailData) (categories : list Category)
           (attemptNumber : nat) : Exc ClassificationResult :=
  (content <- chat_completion (classify_prompt email categories)
                              attemptNumber ;;
   match content with
   | None => Throw (Error (lit "No response from OpenAI") None)
   | Some c =>
       if truthy c then
         answer <- JSON_parse c ;;
         let result := parsed answer in
         if SFltb (confidence result) threshold
         then Ok {| categoryId := None;
                    confidence := confidence result;
                    reasoning := reasoning result |}
         else Ok result
       else Throw (Error (lit "No response from OpenAI") None)
   end)%js.

Definition classifyEmail (email : EmailData) (categories : list Category)
  : Exc ClassificationResult :=
  pRetry (classify_attempt email categories) 3.

Definition summarize_attempt (email : EmailData) (attemptNumber : nat)
  : Exc jsstring :=
  (content <- chat_completion (summarize_prompt email) attemptNumber ;;
   match content with
   | None => Throw (Error (lit "No summary generated") None)
   | Some c =>
       let summary := trim c in
       if truthy summary then Ok summary
       else Throw (Error (lit "No summary generated") None)
   end)%js.

Definition summarizeEmail (email : EmailData) : Exc jsstring :=
  pRetry (summarize_attempt email) 3.

End WithService.

End Classifier.

(** ** Message normalisation ([lib/gmail]) *)

Module Normalizer.

(** [gmail_v1.Schema$MessagePart] *)
#[warnings="-register-all"]
Inductive MessagePart :=
| Part (mimeType : option jsstring) (body_data : option jsstring)
       (parts : option (list MessagePart)).

Record Header := { h_name : option jsstring; h_value : option jsstring }.

Record Message := {
  m_id : jsstring;
  payload_headers : option (list Header);
  payload : option MessagePart
}.

Record Email := {
  gmailId : jsstring;
  e_subject : jsstring;
  e_from : jsstring;
  e_body : jsstring;
  bodyTruncated : bool;
  e_date : jsstring;                      (* the [Date] header, unparsed *)
  unsubscribeLink : option jsstring;
  unsubscribeMethod : jsstring;
  headers_listUnsubscribe : jsstring
}.

(** Maximum email body size to store (50KB) *)
Definition MAX_BODY_SIZE : nat := 50 * 1024.

Definition mime_is (m : jsstring) (p : MessagePart) : bool :=
  match p with
  | Part (Some t) _ _ => str_eqb t m
  | Part None _ _ => false
  end.

Section WithRuntime.

(** [Buffer.from(data, 'base64').toString('utf-8')] *)
Variable decode_base64_utf8 : jsstring -> jsstring.

(** [String.prototype.toLowerCase] *)
Variable toLowerCase : jsstring -> jsstring.

Fixpoint extractBody (part : MessagePart) : jsstring :=
  match part with
  | Part _ data parts =>
      let nested :=
        match parts with
        | Some ps =>
            let find_mime :=
              fix find_mime (m : jsstring) (l : list MessagePart)
                : option jsstring :=
                match l with
                | [] => None
                | q :: l' => if mime_is m q then Some (extractBody q)
                             else find_mime m l'
                end in
            match find_mime (lit "text/html") ps with
            | Some r => r
            | None =>
                match find_mime (lit "text/plain") ps with
                | Some r => r
                | None =>
                    (fix first_result (l : list MessagePart) : jsstring :=
                       match l with
                       | [] => []
                       | q :: l' =>
                           let result := extractBody q in
                           if truthy result then result else first_result l'
                       end) ps
                end
            end
        | None => []
        end in
      match data with
      | Some d => if truthy d then decode_base64_utf8 d else nested
      | None => nested
      end
  end.

Definition getEmailBody (message : Message) : jsstring :=
  match payload message with
  | Some p => extractBody p
  | None => []
  end.

(** [getHeader]: the value of the first header of that name, compared in
    lower case; the empty string when there is none. *)
Definition getHeader (headers : list Header) (name : jsstring) : jsstring :=
  match find (fun h => match h_name h with
                       | Some n => str_eqb (toLowerCase n) (toLowerCase name)
                       | None => false
                       end) headers with
  | Some h => match h_value h with
              | Some v => if truthy v then v else []
              | None => []
              end
  | None => []
  end.

(** [/<(https?:\/\/[^>]+)>/], the capture of the leftmost match. *)
Definition header_link_re : re :=
  seq [Cls (Chr 60); word_exact (lit "http"); Opt (Cls (Chr 115));
       word_exact (lit "://"); Plus (Cls (NotLit 62)); Cls (Chr 62)].

Definition header_link (listUnsubscribe : jsstring) : option jsstring :=
  match search header_link_re listUnsubscribe with
  | Some (m, _) => Some (slice_1_m1 m)
  | None => None
  end.

(** The truncation step of [parseEmailMessage]. *)
Definition truncate (body : jsstring) : jsstring * bool :=
  if (MAX_BODY_SIZE <? byteLength body)%nat
  then (substring0 MAX_BODY_SIZE body, true)
  else (body, false).

Definition parseEmailMessage (message : Message) : Email :=
  let headers := match payload_headers message with
                 | Some hs => hs
                 | None => []
                 end in
  let subject := getHeader headers (lit "Subject") in
  let from := getHeader headers (lit "From") in
  let date := getHeader headers (lit "Date") in
  let listUnsubscribe := getHeader headers (lit "List-Unsubscribe") in
  let body := getEmailBody message in
  let '(truncatedBody, truncated) := truncate body in
  let '(unsubLink, unsubMethod) :=
    if truthy listUnsubscribe then
      match header_link listUnsubscribe with
      | Some u => (Some u, lit "header")
      | None => (None, lit "none")
      end
    else (None, lit "none") in
  {| gmailId := m_id message;
     e_subject := subject;
     e_from := from;
     e_body := truncatedBody;
     bodyTruncated := truncated;
     e_date := date;
     unsubscribeLink := unsubLink;
     unsubscribeMethod := unsubMethod;
     headers_listUnsubscribe := listUnsubscribe |}.

End WithRuntime.

End Normalizer.

(** ** Credential vault ([lib/encryption]) *)

Module Vault.

Definition IV_LENGTH : nat := 16.
Definition SALT_LENGTH : nat := 64.
Definition TAG_LENGTH : nat := 16.
Definition TAG_POSITION : nat := SALT_LENGTH + IV_LENGTH.
Definition ENCRYPTED_POSITION : nat := TAG_POSITION + TAG_LENGTH.

(** [buf.subarray(a, b)] and [buf.subarray(a)], offsets clamped to the
    buffer. *)
Definition subarray (a b : nat) (buf : bytes) : bytes :=
  firstn (b - a) (skipn a buf).
Definition subarray_from (a : nat) (buf : bytes) : bytes := skipn a buf.

(** The primitives of the runtime the module calls. *)
Class Crypto := {
  (** [Buffer.from(s, 'base64')] *)
  from_base64 : jsstring -> bytes;
  (** [buf.toString('base64')] *)
  to_base64 : bytes -> jsstring;
  (** [crypto.pbkdf2Sync(key, salt, 100000, 32, 'sha512')] *)
  pbkdf2Sync : bytes -> bytes -> bytes;
  (** AES-256-GCM under a key and an IV: the counter-mode transform of the
      text ([update] followed by [final]) and the tag over a ciphertext
      ([getAuthTag]). *)
  gcm_ctr : bytes -> bytes -> bytes -> bytes;
  gcm_tag : bytes -> bytes -> bytes -> bytes
}.

(** What the proofs use of the primitives: base64 decodes what it encoded,
    counter mode undoes itself, tags are sixteen bytes. *)
Class CryptoLaws (C : Crypto) : Prop := {
  base64_roundtrip : forall b, from_base64 (to_base64 b) = b;
  ctr_involutive : forall k iv p, gcm_ctr k iv (gcm_ctr k iv p) = p;
  tag_length : forall k iv c, List.length (gcm_tag k iv c) = 16
}.

Fixpoint bytes_eqb (a b : bytes) : bool :=
  match a, b with
  | [], [] => true
  | x :: a', y :: b' => Byte.eqb x y && bytes_eqb a' b'
  | _, _ => false
  end.

(** Tag lengths [setAuthTag] accepts for GCM. *)
Definition valid_tag_length (n : nat) : bool :=
  existsb (Nat.eqb n) [4; 8; 12; 13; 14; 15; 16].

Definition err (m : string) : exn := Error (lit m) None.

(** [new Error(prefix + e.message)] *)
Definition wrap (prefix : string) (e : exn) : exn :=
  Error (lit prefix ++ message e) None.

Section WithCrypto.

Context {C : Crypto}.

(** [process.env.ENCRYPTION_KEY] *)
Variable ENCRYPTION_KEY : option jsstring.

(** The source of [crypto.randomBytes]: the state of the generator is the
    number of bytes drawn so far. *)
Variable entropy : nat -> byte.

Definition randomBytes (n : nat) (drawn : nat) : bytes * nat :=
  (map entropy (List.seq drawn n), drawn + n).

Definition getEncryptionKey : Exc bytes :=
  match ENCRYPTION_KEY with
  | Some key =>
      if truthy key then Ok (from_base64 key)
      else Throw (err "ENCRYPTION_KEY environment variable is not set")
  | None => Throw (err "ENCRYPTION_KEY environment variable is not set")
  end.

(** [createDecipheriv], [setAuthTag], [update], [final]: an empty IV and
    a tag of a length outside the accepted ones are refused; [final]
    throws unless the tag given is the tag of the ciphertext. *)
Definition gcm_decrypt (key iv tag encrypted : bytes) : Exc bytes :=
  match iv with
  | [] => Throw (err "Invalid initialization vector")
  | _ :: _ =>
      if valid_tag_length (List.length tag) then
        if bytes_eqb tag (firstn (List.length tag) (gcm_tag key iv encrypted))
        then Ok (gcm_ctr key iv encrypted)
        else Throw (err "Unsupported state or unable to authenticate data")
      else Throw (Error (lit "Invalid authentication tag length: "
                         ++ lit (NilEmpty.string_of_uint
                                   (Nat.to_uint (List.length tag))))
                        None)
  end.

Definition encrypt (text : jsstring) (drawn : nat) : Exc jsstring * nat :=
  match getEncryptionKey with
  | Throw e => (Throw (wrap "Encryption failed: " e), drawn)
  | Ok key =>
      let '(salt, drawn1) := randomBytes SALT_LENGTH drawn in
      let '(iv, drawn2) := randomBytes IV_LENGTH drawn1 in
      let derivedKey := pbkdf2Sync key salt in
      let encrypted := gcm_ctr derivedKey iv (utf8_encode text) in
      let tag := gcm_tag derivedKey iv encrypted in
      let combined := salt ++ iv ++ tag ++ encrypted in
      (Ok (to_base64 combined), drawn2)
  end.

Definition decrypt (encryptedData : jsstring) : Exc jsstring :=
  try_catch
    (key <- getEncryptionKey ;;
     let combined := from_base64 encryptedData in
     let salt := subarray 0 SALT_LENGTH combined in
     let iv := subarray SALT_LENGTH TAG_POSITION combined in
     let tag := subarray TAG_POSITION ENCRYPTED_POSITION combined in
     let encrypted := subarray_from ENCRYPTED_POSITION combined in
     let derivedKey := pbkdf2Sync key salt in
     decrypted <- gcm_decrypt derivedKey iv tag encrypted ;;
     Ok (utf8_decode decrypted))%js
    (fun e => Throw (wrap "Decryption failed: " e)).

(** The pieces of the buffer [encrypt] builds after [drawn] bytes have been
    drawn: salt, IV, derived key, ciphertext, tag, and the whole. *)
Definition salt_of (drawn : nat) : bytes :=
  fst (randomBytes SALT_LENGTH drawn).
Definition iv_of (drawn : nat) : bytes :=
  fst (randomBytes IV_LENGTH (snd (randomBytes SALT_LENGTH drawn))).
Definition key_of (key : jsstring) (drawn : nat) : bytes :=
  pbkdf2Sync (from_base64 key) (salt_of drawn).
Definition ciphertext_of (key text : jsstring) (drawn : nat) : bytes :=
  gcm_ctr (key_of key drawn) (iv_of drawn) (utf8_encode text).
Definition tag_of (key text : jsstring) (drawn : nat) : bytes :=
  gcm_tag (key_of key drawn) (iv_of drawn) (ciphertext_of key text drawn).
Definition sealed (key text : jsstring) (drawn : nat) : bytes :=
  salt_of drawn ++ iv_of drawn ++ tag_of key text drawn
  ++ ciphertext_of key text drawn.

End WithCrypto.




End Vault.

(** ** Pattern tables ([lib/playwright-config]) *)

Module Patterns.

Definition SUCCESS_PATTERNS : list re :=
  [ w "unsubscribed";
    seq [w "successfully"; Plus sp; w "removed"];
    seq [w "you"; Plus sp; w "have"; Plus sp; w "been"; Plus sp; w "removed"];
    seq [w "you"; Plus sp; w "will"; Plus sp; w "no"; Plus sp; w "longer";
         Plus sp; w "receive"];
    seq [w "email"; Plus sp; w "preferences"; Plus sp; w "updated"];
    seq [w "subscription"; Plus sp; w "cancelled"];
    seq [w "opt"; any; w "out"; Plus sp; w "confirmed"];
    seq [w "removed"; Plus sp; w "from"; Star any; w "list"];
    seq [w "thank"; Plus sp; w "you"] ].

Definition UNSUBSCRIBE_PATTERNS : list re :=
  [ w "unsubscribe";
    seq [w "opt"; Opt any; w "out"];
    seq [w "remove"; Star any; w "email"];
    seq [w "stop"; Star any; w "emails"];
    seq [w "cancel"; Star any; w "subscription"];
    seq [w "do"; Star any; w "not"; Star any; w "send"];
    seq [w "delete"; Star any; w "subscription"];
    seq [w "confirm"; Star any; w "unsubscribe"] ].

Definition ERROR_PATTERNS : list re :=
  [ w "captcha";
    w "recaptcha";
    w "verification";
    seq [w "sign"; Plus sp; w "in"];
    seq [w "log"; Plus sp; w "in"];
    seq [w "authentication"; Plus sp; w "required"];
    seq [w "access"; Plus sp; w "denied"] ].

End Patterns.

(** ** Unsubscribe executor ([lib/unsubscribe-executor]) *)

Module Executor.

Import Patterns.

Inductive Method := header | simple_click | ai_form | manual.

(** The string the source writes for each method. *)
Definition method_name (m : Method) : jsstring :=
  match m with
  | header => lit "header"
  | simple_click => lit "simple-click"
  | ai_form => lit "ai-form"
  | manual => lit "manual"
  end.

Record ScreenshotPaths := {
  before : option jsstring;
  after : option jsstring
}.

Record UnsubscribeResult := {
  success : bool;
  method : Method;
  message : jsstring;
  screenshotPaths : option ScreenshotPaths;
  error : option jsstring
}.

(** The outside world of one invocation. *)
Record Response := {
  status : nat;
  statusText : jsstring;
  text : Exc jsstring                        (* [response.text()] *)
}.

Record Element := {
  textContent : Exc (option jsstring);
  click : Exc unit
}.

Record Page := {
  goto : jsstring -> Exc (option nat);       (* the status of the response *)
  screenshot : jsstring -> Exc N;            (* [mkdir], [Date.now()], capture *)
  content_loaded : Exc jsstring;             (* [page.content()] after loading *)
  content_settled : Exc jsstring;            (* [page.content()] after the click *)
  locator_all : jsstring -> Exc (list Element);
  waitForTimeout : nat -> Exc unit
}.

Record World := {
  fetch : jsstring -> Exc Response;
  launch : Exc unit;                         (* [chromium.launch] *)
  newPage : Exc Page;
  close : nat -> Exc unit                    (* [browser.close()], by call *)
}.

(** Calls made to the world, in order. *)
Inductive Event :=
| EFetch (url : jsstring)
| ELaunch
| ENewPage
| EGoto (url : jsstring)
| EScreenshot (suffix : jsstring)
| EContent
| ELocator (selector : jsstring)
| ETextContent
| EClick
| EWait (ms : nat)
| EClose.

Definition is_close (e : Event) : bool :=
  match e with EClose => true | _ => false end.

(** Computations: a result or an exception, and the calls made. *)
Definition M (A : Type) : Type := list Event -> Exc A * list Event.

Definition ret {A} (a : A) : M A := fun t => (Ok a, t).
Definition throw {A} (e : exn) : M A := fun t => (Throw e, t).

Definition mbind {A B} (m : M A) (k : A -> M B) : M B :=
  fun t => match m t with
           | (Ok a, t') => k a t'
           | (Throw e, t') => (Throw e, t')
           end.

Definition mcatch {A} (m : M A) (h : exn -> M A) : M A :=
  fun t => match m t with
           | (Ok a, t') => (Ok a, t')
           | (Throw e, t') => h e t'
           end.

(** One call to the world. *)
Definition call {A} (ev : Event) (outcome : Exc A) : M A :=
  fun t => (outcome, t ++ [ev]).

Declare Scope exec_scope.
Delimit Scope exec_scope with exec.
Notation "x <- m ;; k" := (mbind m (fun x => k))
  (at level 61, m at next level, right associativity) : exec_scope.
Notation "m ;;; k" := (mbind m (fun _ => k))
  (at level 61, right associativity) : exec_scope.

Definition ok_status (st : nat) : bool := (200 <=? st) && (st <=? 299).

(** A number in a template string. *)
Definition num (n : N) : jsstring :=
  lit (NilEmpty.string_of_uint (N.to_uint n)).

Definition dq : jsstring := [34%N].

Definition err (m : jsstring) : exn := Error m None.

Section WithWorld.

Variable world : World.

(** Tier 1: Unsubscribe via List-Unsubscribe Header *)
Definition executeHeaderUnsubscribe (url : jsstring) : M UnsubscribeResult :=
  mcatch
    (if startsWith (lit "mailto:") url then
       ret {| success := false; method := header;
              message := lit "Mailto unsubscribe requires email sending (not implemented)";
              screenshotPaths := None;
              error := Some (lit "Mailto method not supported in this implementation") |}
     else
       response <- call (EFetch url) (fetch world url) ;;
       if negb (ok_status (status response)) then
         ret {| success := false; method := header;
                message := lit "HTTP " ++ num (N.of_nat (status response))
                           ++ lit ": "
                           ++ statusText response;
                screenshotPaths := None;
                error := Some (lit "Failed to access unsubscribe URL: "
                               ++ num (N.of_nat (status response))) |}
       else
         body <- (fun t => (text response, t)) ;;
         if some_test SUCCESS_PATTERNS body then
           ret {| success := true; method := header;
                  message := lit "Successfully unsubscribed via List-Unsubscribe header";
                  screenshotPaths := None;
                  error := None |}
         else
           ret {| success := false; method := header;
                  message := lit "No clear confirmation from header method, will try browser automation";
                  screenshotPaths := None;
                  error := Some (lit "Could not confirm unsubscribe via header method") |})%exec
    (fun e =>
       ret {| success := false; method := header;
              message := lit "Failed to execute header unsubscribe: "
                         ++ JS.message e;
              screenshotPaths := None;
              error := Some (JS.message e) |}).

(** Helper: save a screenshot and return its public path. *)
Definition saveScreenshot (page : Page) (attemptId suffix : jsstring)
  : M jsstring :=
  (stamp <- call (EScreenshot suffix) (screenshot page suffix) ;;
   ret (lit "/unsubscribe-logs/" ++ attemptId ++ lit "/" ++ suffix
        ++ lit "-" ++ num stamp ++ lit ".png"))%exec.

Definition closeBrowser : M unit :=
  fun t => (close world (List.length (filter is_close t)), t ++ [EClose]).

(** The inner loops: the first element whose text matches is clicked. *)
Fixpoint click_first (kind : string) (pattern : re) (els : list Element)
  : M (option jsstring) :=
  match els with
  | [] => ret None
  | el :: rest =>
      (txt <- call ETextContent (textContent el) ;;
       match txt with
       | Some t =>
           if truthy t && test pattern t then
             call EClick (click el) ;;;
             ret (Some (lit kind ++ lit ": " ++ dq ++ t ++ dq))
           else click_first kind pattern rest
       | None => click_first kind pattern rest
       end)%exec
  end.

(** The outer loop over [UNSUBSCRIBE_PATTERNS]: buttons, then links. *)
Fixpoint find_and_click (page : Page) (patterns : list re)
  : M (option jsstring) :=
  match patterns with
  | [] => ret None
  | pattern :: rest =>
      (buttons <- call (ELocator (lit "button"))
                       (locator_all page (lit "button")) ;;
       clicked <- click_first "button" pattern buttons ;;
       match clicked with
       | Some c => ret (Some c)
       | None =>
           links <- call (ELocator (lit "a")) (locator_all page (lit "a")) ;;
           clicked' <- click_first "link" pattern links ;;
           match clicked' with
           | Some c => ret (Some c)
           | None => find_and_click page rest
           end
       end)%exec
  end.

(** The [try] block of Tier 2, once the page exists. *)
Definition simple_try (page : Page) (url attemptId : jsstring)
  : M UnsubscribeResult :=
  (response <- call (EGoto url) (goto page url) ;;
   match response with
   | None => throw (err (lit "Failed to load page: undefined"))
   | Some st =>
       if negb (ok_status st)
       then throw (err (lit "Failed to load page: " ++ num (N.of_nat st)))
       else
         beforePath <- saveScreenshot page attemptId (lit "before") ;;
         pageContent <- call EContent (content_loaded page) ;;
         if some_test ERROR_PATTERNS pageContent then
           closeBrowser ;;;
           ret {| success := false; method := simple_click;
                  message := lit "Page requires CAPTCHA or login";
                  screenshotPaths :=
                    Some {| before := Some beforePath; after := None |};
                  error := Some (lit "CAPTCHA or authentication required") |}
         else
           clicked <- find_and_click page UNSUBSCRIBE_PATTERNS ;;
           match clicked with
           | None =>
               afterPath <- saveScreenshot page attemptId
                                           (lit "after-not-found") ;;
               closeBrowser ;;;
               ret {| success := false; method := simple_click;
                      message := lit "Could not find unsubscribe button or link";
                      screenshotPaths :=
                        Some {| before := Some beforePath;
                                after := Some afterPath |};
                      error := Some (lit "No matching unsubscribe element found") |}
           | Some clickedElement =>
               call (EWait 3000) (waitForTimeout page 3000) ;;;
               afterPath <- saveScreenshot page attemptId (lit "after") ;;
               afterContent <- call EContent (content_settled page) ;;
               closeBrowser ;;;
               if some_test SUCCESS_PATTERNS afterContent then
                 ret {| success := true; method := simple_click;
                        message := lit "Successfully unsubscribed by clicking "
                                   ++ clickedElement;
                        screenshotPaths :=
                          Some {| before := Some beforePath;
                                  after := Some afterPath |};
                        error := None |}
               else
                 ret {| success := false; method := simple_click;
                        message := lit "Clicked " ++ clickedElement
                                   ++ lit " but could not confirm success";
                        screenshotPaths :=
                          Some {| before := Some beforePath;
                                  after := Some afterPath |};
                        error := Some (lit "No confirmation message found after clicking") |}
           end
   end)%exec.

(** The [catch] block of Tier 2; [page] is [None] when the fault came
    before the page existed. *)
Definition simple_catch (page : option Page) (attemptId : jsstring) (e : exn)
  : M UnsubscribeResult :=
  (errorScreenshotPath <-
     match page with
     | Some pg =>
         mcatch (path <- saveScreenshot pg attemptId (lit "error") ;;
                 ret (Some path))
                (fun _ => ret None)
     | None => ret None
     end ;;
   closeBrowser ;;;
   ret {| success := false; method := simple_click;
          message := lit "Browser automation failed: " ++ JS.message e;
          screenshotPaths :=
            match errorScreenshotPath with
            | Some path =>
                if truthy path
                then Some {| before := None; after := Some path |}
                else None
            | None => None
            end;
          error := Some (JS.message e) |})%exec.

(** Tier 2: Simple Unsubscribe via Browser Automation *)
Definition executeSimpleUnsubscribe (url attemptId : jsstring)
  : M UnsubscribeResult :=
  (call ELaunch (launch world) ;;;
   fun t =>
     match call ENewPage (newPage world) t with
     | (Throw e, t') => simple_catch None attemptId e t'
     | (Ok page, t') =>
         mcatch (simple_try page url attemptId)
                (simple_catch (Some page) attemptId) t'
     end)%exec.

(** Main unsubscribe function - tries Tier 1, then Tier 2 *)
Definition unsubscribeEmail (url attemptId : jsstring) : M UnsubscribeResult :=
  (tier1Result <- executeHeaderUnsubscribe url ;;
   if success tier1Result then ret tier1Result
   else
     tier2Result <- executeSimpleUnsubscribe url attemptId ;;
     if success tier2Result then ret tier2Result
     else
       ret {| success := success tier2Result;
              method := method tier2Result;
              message := lit "Automated unsubscribe failed. "
                         ++ message tier2Result
                         ++ lit ". Manual unsubscribe recommended.";
              screenshotPaths := screenshotPaths tier2Result;
              error := error tier2Result |})%exec.

End WithWorld.

(** The artifact references of a result. *)
Definition artifacts (r : UnsubscribeResult) : list jsstring :=
  match screenshotPaths r with
  | Some p =>
      (match before p with Some b => [b] | None => [] end)
      ++ (match after p with Some a => [a] | None => [] end)
  | None => []
  end.

(** A computation only adds calls to the trace. *)
Definition extends {A} (m : M A) : Prop :=
  forall t, exists t', snd (m t) = t ++ t'.

(** Every result of a computation satisfies [P]. *)
Definition returns {A} (P : A -> Prop) (m : M A) : Prop :=
  forall t a t', m t = (Ok a, t') -> P a.

(** The shape of a Tier 2 result, and of a Tier 1 result. *)
Definition tier2_shaped (r : UnsubscribeResult) : Prop :=
  method r = simple_click /\ truthy (message r) = true
  /\ List.length (artifacts r) <= 2.

Definition tier1_shaped (r : UnsubscribeResult) : Prop :=
  method r = header /\ truthy (message r) = true
  /\ List.length (artifacts r) <= 2.

(** What [unsubscribeEmail] makes of the outcome of Tier 2. *)
Definition after_tier2 (tier2Result : UnsubscribeResult) : UnsubscribeResult :=
  if success tier2Result then tier2Result
  else {| success := success tier2Result;
          method := method tier2Result;
          message := lit "Automated unsubscribe failed. "
                     ++ message tier2Result
                     ++ lit ". Manual unsubscribe recommended.";
          screenshotPaths := screenshotPaths tier2Result;
          error := error tier2Result |}.

End Executor.

(** ** Sync coordinator ([app/api/cron/sync-emails]): the loop over the
    messages of one account *)

Module Sync.

Import Normalizer.

Record Account := { acc_id : jsstring; acc_email : jsstring;
                    acc_userId : jsstring }.

(** A row of the [email] table. *)
Record Row := {
  r_gmailId : jsstring;
  r_gmailAccountId : jsstring;
  r_subject : jsstring;
  r_from : jsstring;
  r_body : jsstring;
  r_bodyTruncated : bool;
  r_receivedAt : jsstring;
  r_unsubscribeLink : option jsstring;
  r_unsubscribeMethod : jsstring;
  r_summary : option jsstring;
  r_categoryId : option jsstring;
  r_archived : bool
}.

(** The table, in insertion order. *)
Definition Table := list Row.

(** [prisma.email.findUnique({ where: { gmailId } })] *)
Definition findUnique (db : Table) (gid : jsstring) : option Row :=
  find (fun r => str_eqb (r_gmailId r) gid) db.

(** The error of a violated unique constraint. *)
Definition P2002 : exn :=
  Error (lit "Unique constraint failed on the fields: (gmailId)")
        (Some (lit "P2002")).

(** [prisma.email.create({ data })]: [gmailId] carries a unique constraint. *)
Definition create (db : Table) (row : Row) : Exc Table :=
  match findUnique db (r_gmailId row) with
  | Some _ => Throw P2002
  | None => Ok (db ++ [row])
  end.

(** Rows written by other writers through [create]; a refused row is
    dropped. *)
Definition commit (db : Table) (rows : list Row) : Table :=
  fold_left (fun d r => match create d r with
                        | Ok d' => d'
                        | Throw _ => d
                        end) rows db.

Inductive LogLine :=
| AiError (gid : jsstring) (e : exn)          (* AI processing error for email *)
| ProcessingError (gid : jsstring) (e : exn). (* Error processing email *)

Record St := {
  db : Table;
  accountNewEmails : nat;
  accountProcessed : nat;
  console_error : list LogLine;
  archive_calls : list jsstring
}.

(** The outside world of a sync run. *)
Record World := {
  toLowerCase : jsstring -> jsstring;
  cheerio_links : jsstring -> Exc (list Detector.Anchor);
  chat_completion : jsstring -> nat -> Exc (option jsstring);
  JSON_parse : jsstring -> Exc Classifier.Reported;
  (** [archiveEmail], which reports a failure as [false] *)
  archiveEmail : jsstring -> jsstring -> bool;
  (** rows other writers commit between the existence check for a message
      and its creation *)
  concurrent : jsstring -> list Row;
  (** a failure of [create] that is not the unique constraint *)
  create_fault : jsstring -> option exn
}.

Definition is_ai_error (l : LogLine) : bool :=
  match l with AiError _ _ => true | ProcessingError _ _ => false end.

(** The external ids of the table. *)
Definition ids (d : Table) : list jsstring := map r_gmailId d.

Definition is_P2002 (e : exn) : bool :=
  match code e with
  | Some c => str_eqb c (lit "P2002")
  | None => false
  end.

Section WithWorld.

Variable world : World.
Variable account : Account.
Variable categories : list Classifier.Category.

Definition email_data (e : Email) : Classifier.EmailData :=
  {| Classifier.subject := e_subject e;
     Classifier.from := e_from e;
     Classifier.body := e_body e |}.

(** The inner [try] around summary and classification: the summary, the
    category, and the state with the counter or the logged error. *)
Definition ai_step (e : Email) (st : St)
  : option jsstring * option jsstring * St :=
  match Classifier.summarizeEmail (chat_completion world) (email_data e) with
  | Throw err => (None, None,
                  {| db := db st;
                     accountNewEmails := accountNewEmails st;
                     accountProcessed := accountProcessed st;
                     console_error :=
                       console_error st ++ [AiError (gmailId e) err];
                     archive_calls := archive_calls st |})
  | Ok summary =>
      match Classifier.classifyEmail (chat_completion world)
              (JSON_parse world) (email_data e) categories with
      | Throw err => (Some summary, None,
                      {| db := db st;
                         accountNewEmails := accountNewEmails st;
                         accountProcessed := accountProcessed st;
                         console_error :=
                           console_error st ++ [AiError (gmailId e) err];
                         archive_calls := archive_calls st |})
      | Ok classification =>
          (Some summary, Classifier.categoryId classification,
           {| db := db st;
              accountNewEmails := accountNewEmails st;
              accountProcessed := S (accountProcessed st);
              console_error := console_error st;
              archive_calls := archive_calls st |})
      end
  end.

(** [emailData] after the body-tier override. *)
Definition with_body_link (e : Email) (info : Detector.UnsubscribeInfo)
  : Email :=
  match Detector.method info, Detector.url info with
  | Detector.link, Some u =>
      if truthy u then
        {| gmailId := gmailId e; e_subject := e_subject e;
           e_from := e_from e; e_body := e_body e;
           bodyTruncated := bodyTruncated e; e_date := e_date e;
           unsubscribeLink := Some u;
           unsubscribeMethod := lit "link";
           headers_listUnsubscribe := headers_listUnsubscribe e |}
      else e
  | _, _ => e
  end.

Definition new_row (e : Email) (summary categoryId : option jsstring) : Row :=
  {| r_gmailId := gmailId e;
     r_gmailAccountId := acc_id account;
     r_subject := e_subject e;
     r_from := e_from e;
     r_body := e_body e;
     r_bodyTruncated := bodyTruncated e;
     r_receivedAt := e_date e;
     r_unsubscribeLink := unsubscribeLink e;
     r_unsubscribeMethod := unsubscribeMethod e;
     r_summary := summary;
     r_categoryId := categoryId;
     r_archived := false |}.

Definition set_db (st : St) (d : Table) : St :=
  {| db := d;
     accountNewEmails := accountNewEmails st;
     accountProcessed := accountProcessed st;
     console_error := console_error st;
     archive_calls := archive_calls st |}.

(** The [try] block of one iteration: the state it leaves, and the
    exception when it throws. *)
Definition try_email (emailData : Email) (st : St) : St * Exc unit :=
  match Detector.extractUnsubscribeInfo (toLowerCase world)
          (cheerio_links world) (e_body emailData)
          {| Detector.listUnsubscribe :=
               Some (headers_listUnsubscribe emailData) |} with
  | Throw err => (st, Throw err)
  | Ok unsubscribeInfo =>
      let emailData := with_body_link emailData unsubscribeInfo in
      match findUnique (db st) (gmailId emailData) with
      | Some _ => (st, Ok tt)                       (* Skip duplicate *)
      | None =>
          let '(summary, categoryId, st1) := ai_step emailData st in
          let st2 :=
            set_db st1 (commit (db st1) (concurrent world (gmailId emailData))) in
          match create_fault world (gmailId emailData) with
          | Some err => (st2, Throw err)
          | None =>
              match create (db st2) (new_row emailData summary categoryId) with
              | Throw err => (st2, Throw err)
              | Ok db' =>
                  let _archived :=
                    archiveEmail world (acc_id account) (gmailId emailData) in
                  ({| db := db';
                      accountNewEmails := S (accountNewEmails st2);
                      accountProcessed := accountProcessed st2;
                      console_error := console_error st2;
                      archive_calls :=
                        archive_calls st2 ++ [gmailId emailData] |},
                   Ok tt)
              end
          end
      end
  end.

(** One iteration with its [catch]: a duplicate key is skipped, any other
    error is logged. *)
Definition process_email (st : St) (emailData : Email) : St :=
  match try_email emailData st with
  | (st', Ok _) => st'
  | (st', Throw err) =>
      if is_P2002 err then st'
      else {| db := db st';
              accountNewEmails := accountNewEmails st';
              accountProcessed := accountProcessed st';
              console_error :=
                console_error st' ++ [ProcessingError (gmailId emailData) err];
              archive_calls := archive_calls st' |}
  end.

(** [for (const emailData of emails) { ... }] *)
Definition sync_emails (emails : list Email) (st : St) : St :=
  fold_left process_email emails st.

End WithWorld.

(** A sync run over one account: the world it meets, the account, its
    categories and the messages fetched; counters start at zero. *)
Record Run := {
  run_world : World;
  run_account : Account;
  run_categories : list Classifier.Category;
  run_emails : list Email
}.

Definition run_sync (d : Table) (r : Run) : Table :=
  db (sync_emails (run_world r) (run_account r) (run_categories r)
        (run_emails r)
        {| db := d; accountNewEmails := 0; accountProcessed := 0;
           console_error := []; archive_calls := [] |}).

Definition run_all (runs : list Run) (d : Table) : Table :=
  fold_left run_sync runs d.

End Sync.

(** ** Concrete inputs used to exercise the statements below *)

Module Fixtures.

(** Lower case on ASCII letters; it agrees with the runtime on ASCII text. *)
Definition ascii_lower (s : jsstring) : jsstring :=
  map (fun c => if ((65 <=? c) && (c <=? 90))%N then (c + 32)%N else c) s.

Definition anchor (href text : string) (in_footer : bool) : Detector.Anchor :=
  {| Detector.a_href := lit href;
     Detector.a_text := lit text;
     Detector.a_class := None;
     Detector.parent_text := lit text;
     Detector.parent_is_footer := in_footer;
     Detector.parent_closest_footer := if in_footer then 1 else 0 |}.

Definition doc_one_link : jsstring :=
  lit "<html><body><a href=https://body.com/unsubscribe>Unsubscribe</a></body></html>".

Definition doc_two_links : jsstring :=
  lit "<a href=https://a.example/optout>Unsubscribe</a><a href=https://b.example/optout>Opt out</a>".

Definition doc_plain : jsstring :=
  lit "<html><body><p>Regular email</p></body></html>".

Definition doc_broken : jsstring := lit "<a href=".

(** Anchors that score on one test each, a second one that scores on the
    text, one that scores on nothing, one whose href is relative, and one
    that scores on all four tests. *)
Definition classed (href text class : string) : Detector.Anchor :=
  {| Detector.a_href := lit href;
     Detector.a_text := lit text;
     Detector.a_class := Some (lit class);
     Detector.parent_text := lit text;
     Detector.parent_is_footer := false;
     Detector.parent_closest_footer := 0 |}.

Definition footer_only : Detector.Anchor :=
  anchor "https://a.example/x" "Home" true.
Definition class_only : Detector.Anchor :=
  classed "https://b.example/x" "Settings" "unsubscribe-link".
Definition href_only : Detector.Anchor :=
  anchor "https://c.example/Unsubscribe" "here" false.
Definition text_only : Detector.Anchor :=
  anchor "https://d.example/x" " Unsubscribe " false.
Definition text_again : Detector.Anchor :=
  anchor "https://e.example/x" "Opt out" false.
Definition no_test : Detector.Anchor :=
  anchor "https://f.example/x" "About" false.
Definition relative : Detector.Anchor :=
  anchor "/unsubscribe" "Unsubscribe" true.
Definition every_test : Detector.Anchor :=
  {| Detector.a_href := lit "https://g.example/opt-out";
     Detector.a_text := lit "Manage subscriptions";
     Detector.a_class := Some (lit "stop receiving");
     Detector.parent_text := lit "Footer: Manage subscriptions";
     Detector.parent_is_footer := false;
     Detector.parent_closest_footer := 0 |}.

Definition tier_anchors : list Detector.Anchor :=
  [footer_only; class_only; href_only; text_only; text_again; no_test;
   relative].

Definition doc_tiers : jsstring :=
  lit ("<footer><a href=https://a.example/x>Home</a></footer>"
       ++ "<p><a class=unsubscribe-link href=https://b.example/x>Settings</a></p>"
       ++ "<p><a href=https://c.example/Unsubscribe>here</a></p>"
       ++ "<p><a href=https://d.example/x> Unsubscribe </a></p>"
       ++ "<p><a href=https://e.example/x>Opt out</a></p>"
       ++ "<p><a href=https://f.example/x>About</a></p>"
       ++ "<footer><a href=/unsubscribe>Unsubscribe</a></footer>")%string.

(** A parser that knows these documents; it fails on [doc_broken]. *)
Definition cheerio (doc : jsstring) : Exc (list Detector.Anchor) :=
  if str_eqb doc doc_one_link
  then Ok [anchor "https://body.com/unsubscribe" "Unsubscribe" false]
  else if str_eqb doc doc_two_links
  then Ok [anchor "https://a.example/optout" "Unsubscribe" false;
           anchor "https://b.example/optout" "Opt out" false]
  else if str_eqb doc doc_tiers
  then Ok tier_anchors
  else if str_eqb doc doc_broken
  then Throw (Error (lit "parse error") None)
  else Ok [].

Definition both_uris : jsstring :=
  lit "<mailto:unsub@example.com>, <https://example.com/unsubscribe>".


(** A model service that answers at once, and a parser for its answers:
    the same category proposed with confidence 0.65, with 0.71, with 0.7 and
    with 0.69999999999999999; the text [null] has no confidence to read. *)
Definition answers (content : string) : jsstring -> nat -> Exc (option jsstring) :=
  fun _ _ => Ok (Some (lit content)).

Definition reported (c : Q) : Classifier.Reported :=
  {| Classifier.r_categoryId := Some (lit "cat-newsletters");
     Classifier.r_confidence := c;
     Classifier.r_reasoning := lit "looks like a newsletter" |}.

Definition proposal (c : Q) : Classifier.ClassificationResult :=
  Classifier.parsed (reported c).

Definition just_below : Q := 69999999999999999 # 100000000000000000.

Definition parse (content : jsstring) : Exc Classifier.Reported :=
  if str_eqb content (lit "low") then Ok (reported (65 # 100))
  else if str_eqb content (lit "high") then Ok (reported (71 # 100))
  else if str_eqb content (lit "exact") then Ok (reported (7 # 10))
  else if str_eqb content (lit "edge") then Ok (reported just_below)
  else if str_eqb content (lit "null")
  then Throw (TypeError (lit "Cannot read properties of null (reading 'confidence')"))
  else Throw (Error (lit "Unexpected token") None).

Definition mail : Classifier.EmailData :=
  {| Classifier.subject := lit "Weekly digest";
     Classifier.from := lit "news@example.com";
     Classifier.body := lit "Hello" |}.

Definition cats : list Classifier.Category :=
  [ {| Classifier.cat_id := lit "cat-newsletters";
       Classifier.cat_name := lit "Newsletters";
       Classifier.cat_description := lit "Periodic mailings" |};
    {| Classifier.cat_id := lit "cat-work";
       Classifier.cat_name := lit "Work";
       Classifier.cat_description := lit "From colleagues" |} ].

(** [Buffer.from(data, 'base64').toString('utf-8')] on the codecs above. *)
Definition decode_base64_utf8 (data : jsstring) : jsstring :=
  utf8_decode (Base64.decode data).

(** A message whose only part holds 20,000 euro signs (U+20AC, three bytes
    each in UTF-8, [4oKs] in base64): a body of 60,000 bytes. *)
Definition euro_data : jsstring := List.concat (repeat (lit "4oKs") (200 * 100)).

Definition message_with (data : jsstring) : Normalizer.Message :=
  {| Normalizer.m_id := lit "18c2f0a1b2c3d4e5";
     Normalizer.payload_headers :=
       Some [ {| Normalizer.h_name := Some (lit "Subject");
                 Normalizer.h_value := Some (lit "Prices") |} ];
     Normalizer.payload :=
       Some (Normalizer.Part (Some (lit "text/plain")) (Some data) None) |}.

(** A body of 60,000 ASCII bytes and one of 1,000. *)
Definition ascii_data (n : nat) : jsstring := List.concat (repeat (lit "YWFh") n).

(** Toy primitives that satisfy the laws of the vault.  The parity of a
    buffer is the parity of the number of its bits that are set: the key
    derivation puts the parity of the salt before the first bytes of the
    key, the text transform reverses the text, the tag holds the parities
    of key, IV and ciphertext. *)
Definition pad16 (b : bytes) : bytes := firstn 16 (b ++ repeat x00 16).

Definition parity_byte (b : byte) : bool :=
  fold_right (fun j acc => xorb (N.testbit (Byte.to_N b) j) acc) false
             [0; 1; 2; 3; 4; 5; 6; 7]%N.

Definition parity (b : bytes) : bool :=
  fold_right (fun x acc => xorb (parity_byte x) acc) false b.

Definition mark (p : bool) : byte := if p then x01 else x00.

Definition toy : Vault.Crypto := {|
  Vault.from_base64 := Base64.decode;
  Vault.to_base64 := Base64.encode;
  Vault.pbkdf2Sync := fun key salt => mark (parity salt) :: firstn 31 key;
  Vault.gcm_ctr := fun _ _ text => rev text;
  Vault.gcm_tag := fun key iv c =>
                     pad16 [mark (parity key); mark (parity iv);
                            mark (parity c)]
|}.

(** A site whose unsubscribe URL answers 200 without a confirmation phrase
    and whose page has an Unsubscribe button that confirms when clicked. *)
Definition confirm_page : Executor.Page :=
  {| Executor.goto := fun _ => Ok (Some 200);
     Executor.screenshot := fun _ => Ok 1700000000000%N;
     Executor.content_loaded :=
       Ok (lit "<h1>Mailing list</h1><button>Unsubscribe</button>");
     Executor.content_settled :=
       Ok (lit "<p>You have been unsubscribed.</p>");
     Executor.locator_all :=
       fun sel => if str_eqb sel (lit "button")
                  then Ok [ {| Executor.textContent := Ok (Some (lit "Unsubscribe"));
                               Executor.click := Ok tt |} ]
                  else Ok [];
     Executor.waitForTimeout := fun _ => Ok tt |}.

Definition site : Executor.World :=
  {| Executor.fetch :=
       fun _ => Ok {| Executor.status := 200;
                      Executor.statusText := lit "OK";
                      Executor.text := Ok (lit "<p>Click the button to leave the list.</p>") |};
     Executor.launch := Ok tt;
     Executor.newPage := Ok confirm_page;
     Executor.close := fun _ => Ok tt |}.

Definition unsubscribe_url : jsstring := lit "https://example.com/unsubscribe?u=42".
Definition attempt_id : jsstring := lit "attempt-7".

(** A sync run in which the summary succeeds and the classification fails
    on every attempt. *)
Definition half_failing : Sync.World :=
  {| Sync.toLowerCase := ascii_lower;
     Sync.cheerio_links := cheerio;
     Sync.chat_completion :=
       fun prompt _ =>
         if startsWith (lit "Summarize") prompt
         then Ok (Some (lit "Weekly digest of the list."))
         else Throw (Error (lit "429 Too Many Requests") None);
     Sync.JSON_parse := parse;
     Sync.archiveEmail := fun _ _ => true;
     Sync.concurrent := fun _ => [];
     Sync.create_fault := fun _ => None |}.

Definition inbox : Sync.Account :=
  {| Sync.acc_id := lit "acc-1"; Sync.acc_email := lit "me@example.com";
     Sync.acc_userId := lit "user-1" |}.

Definition digest : Normalizer.Email :=
  {| Normalizer.gmailId := lit "18c2f0a1b2c3d4e5";
     Normalizer.e_subject := lit "Weekly digest";
     Normalizer.e_from := lit "news@example.com";
     Normalizer.e_body := doc_plain;
     Normalizer.bodyTruncated := false;
     Normalizer.e_date := lit "Mon, 02 Nov 2026 08:00:00 +0000";
     Normalizer.unsubscribeLink := None;
     Normalizer.unsubscribeMethod := lit "none";
     Normalizer.headers_listUnsubscribe := [] |}.

Definition empty_state : Sync.St :=
  {| Sync.db := []; Sync.accountNewEmails := 0; Sync.accountProcessed := 0;
     Sync.console_error := []; Sync.archive_calls := [] |}.

(** The row a concurrent sync writes for the same message. *)
Definition rival_row : Sync.Row :=
  Sync.new_row inbox digest None None.

Definition racing : Sync.World :=
  {| Sync.toLowerCase := ascii_lower;
     Sync.cheerio_links := cheerio;
     Sync.chat_completion := Sync.chat_completion half_failing;
     Sync.JSON_parse := parse;
     Sync.archiveEmail := fun _ _ => true;
     Sync.concurrent := fun _ => [rival_row];
     Sync.create_fault := fun _ => None |}.

Definition master_key : jsstring := lit "c2VjcmV0LW1hc3Rlci1rZXk=".

Definition entropy (n : nat) : byte := byte_of (N.of_nat (n mod 251)).

End Fixtures.

(** ** Executor: what the further properties speak of *)

(** ** Database connection ([lib/db]) *)

Module Db.

(** Calls made while connecting, in order: [prisma.$connect()] and the
    timer between two attempts.  The console output is left out. *)
Inductive Event :=
| EConnect
| ESleep (ms : N).

(** [Math.min(1000 * Math.pow(2, i), 10000)] *)
Definition delay (i : nat) : N := N.min (1000 * 2 ^ N.of_nat i) 10000.

Section WithServer.

(** The outcome of the call of [prisma.$connect()] made in iteration [i]. *)
Variable connect : nat -> Exc unit.

(** The iterations [i], [i + 1], ... of the loop, [remaining] of them. *)
Fixpoint connect_loop (retries i remaining : nat) (t : list Event)
  : Exc unit * list Event :=
  match remaining with
  | O => (Throw (Error (lit "Failed to connect to database after multiple attempts")
                       None), t)
  | S remaining' =>
      match connect i with
      | Ok _ => (Ok tt, t ++ [EConnect])
      | Throw _ =>
          connect_loop retries (S i) remaining'
            (t ++ [EConnect]
               ++ (if i <? retries - 1 then [ESleep (delay i)] else []))
      end
  end.

(** [connectDatabase(retries)], for a number of retries that is a natural
    number. *)
Definition connectDatabase (retries : nat) : Exc unit * list Event :=
  connect_loop retries 0 retries [].

End WithServer.

(** The calls of [n] failed attempts, each followed by its pause, from
    iteration [i] on. *)
Definition failed_attempts (i n : nat) : list Event :=
  flat_map (fun j => [EConnect; ESleep (delay j)]) (List.seq i n).

End Db.

(** ** Gmail client and fetch ([lib/gmail]) *)

Module Gmail.

Import Vault Normalizer.

(** A value that may be [undefined] or [null]. *)
Inductive Maybe (A : Type) :=
| Undefined
| Null
| Val (a : A).

Arguments Undefined {A}.
Arguments Null {A}.
Arguments Val {A} a.

(** A row of the [gmailAccount] table; times in milliseconds. *)
Record GmailAccount := {
  ga_id : jsstring;
  ga_isActive : bool;
  ga_refreshToken : jsstring;            (* sealed by the vault *)
  ga_accessToken : option jsstring;
  ga_expiresAt : option N;
  ga_lastSyncedAt : option N
}.

(** The credentials of the OAuth2 client; the Gmail client returned is
    identified with the credentials it carries. *)
Record Credentials := {
  refresh_token : Maybe jsstring;
  access_token : Maybe jsstring;
  expiry_date : Maybe N
}.

(** [prisma.gmailAccount.findUnique({ where: { id } })] *)
Definition findAccount (accounts : list GmailAccount) (id : jsstring)
  : option GmailAccount :=
  find (fun a => str_eqb (ga_id a) id) accounts.

(** [prisma.gmailAccount.update({ where: { id }, data: { accessToken,
    expiresAt } })]: an [undefined] field is left as it is. *)
Definition update_tokens (accounts : list GmailAccount) (id : jsstring)
           (accessToken : Maybe jsstring) (expiresAt : option N)
  : list GmailAccount :=
  map (fun a =>
         if str_eqb (ga_id a) id then
           {| ga_id := ga_id a;
              ga_isActive := ga_isActive a;
              ga_refreshToken := ga_refreshToken a;
              ga_accessToken :=
                match accessToken with
                | Undefined => ga_accessToken a
                | Null => None
                | Val s => Some s
                end;
              ga_expiresAt := expiresAt;
              ga_lastSyncedAt := ga_lastSyncedAt a |}
         else a)
      accounts.

(** What one call meets outside the tables: the clock, the token endpoint,
    a fault of the update, the two calls of the Gmail API and a fault of
    the lookup of stored messages. *)
Record World := {
  now : N;
  refreshAccessToken : Credentials -> Exc Credentials;
  update_fault : option exn;
  (** [gmail.users.messages.list({ userId, q, maxResults })]: the ids of
      [data.messages], which the API leaves out when nothing matches *)
  messages_list : jsstring -> nat -> Exc (option (list jsstring));
  (** [gmail.users.messages.get({ userId, id, format })]: [data] *)
  messages_get : jsstring -> Exc Message;
  findMany_fault : option exn
}.

Definition err (m : string) : exn := Error (lit m) None.

(** A decimal number, with its sign. *)
Definition znum (z : Z) : jsstring :=
  if (z <? 0)%Z then lit "-" ++ Executor.num (Z.to_N (- z))
  else Executor.num (Z.to_N z).

Section WithRuntime.

Context {C : Crypto}.

Variable ENCRYPTION_KEY : option jsstring.
Variable decode_base64_utf8 : jsstring -> jsstring.
Variable toLowerCase : jsstring -> jsstring.

(** The credentials set before any refresh. *)
Definition initial_credentials (account : GmailAccount)
           (refreshToken : jsstring) : Credentials :=
  {| refresh_token := Val refreshToken;
     access_token :=
       match ga_accessToken account with
       | Some a => if truthy a then Val a else Undefined
       | None => Undefined
       end;
     expiry_date := Undefined |}.

(** [credentials.expiry_date ? new Date(credentials.expiry_date) : null] *)
Definition new_expiry (credentials : Credentials) : option N :=
  match expiry_date credentials with
  | Val n => if (n =? 0)%N then None else Some n
  | _ => None
  end.

Definition getGmailClient (world : World) (accounts : list GmailAccount)
           (gmailAccountId : jsstring)
  : Exc Credentials * list GmailAccount :=
  match findAccount accounts gmailAccountId with
  | None => (Throw (err "Gmail account not found"), accounts)
  | Some account =>
      if negb (ga_isActive account)
      then (Throw (err "Gmail account is inactive"), accounts)
      else
        match decrypt ENCRYPTION_KEY (ga_refreshToken account) with
        | Throw e => (Throw e, accounts)
        | Ok refreshToken =>
            let credentials0 := initial_credentials account refreshToken in
            match ga_expiresAt account with
            | Some expiresAt =>
                if (expiresAt <=? now world)%N then
                  match refreshAccessToken world credentials0 with
                  | Throw _ =>
                      (Throw (err "Failed to refresh Gmail access token"),
                       accounts)
                  | Ok credentials =>
                      match update_fault world with
                      | Some _ =>
                          (Throw (err "Failed to refresh Gmail access token"),
                           accounts)
                      | None =>
                          (Ok credentials,
                           update_tokens accounts gmailAccountId
                             (access_token credentials)
                             (new_expiry credentials))
                      end
                  end
                else (Ok credentials0, accounts)
            | None => (Ok credentials0, accounts)
            end
        end
  end.

(** [`after:${afterTimestamp} -label:spam -label:trash`] *)
Definition query (world : World) (account : GmailAccount) : jsstring :=
  let afterDate :=
    match ga_lastSyncedAt account with
    | Some t => Z.of_N t
    | None => (Z.of_N (now world) - 24 * 60 * 60 * 1000)%Z
    end in
  let afterTimestamp := (afterDate / 1000)%Z in
  lit "after:" ++ znum afterTimestamp ++ lit " -label:spam -label:trash".

(** The messages of a listing that could be fetched, in listing order; a
    failed fetch leaves [null], which is filtered out. *)
Definition fetch_all (world : World) (messages : list jsstring)
  : list Message :=
  flat_map (fun id => match messages_get world id with
                      | Ok data => [data]
                      | Throw _ => []
                      end) messages.

Definition has (ids : list jsstring) (id : jsstring) : bool :=
  existsb (str_eqb id) ids.

(** One attempt of [fetchNewEmails]; [stored] is the [email] table. *)
Definition fetch_attempt (world : World) (stored : Sync.Table)
           (gmailAccountId : jsstring) (maxResults : nat)
           (accounts : list GmailAccount)
  : Exc (list Email) * list GmailAccount :=
  match getGmailClient world accounts gmailAccountId with
  | (Throw e, accounts1) => (Throw e, accounts1)
  | (Ok gmail, accounts1) =>
      match findAccount accounts1 gmailAccountId with
      | None => (Throw (err "Gmail account not found"), accounts1)
      | Some account =>
          match messages_list world (query world account) maxResults with
          | Throw e => (Throw e, accounts1)
          | Ok listed =>
              let messages := match listed with
                              | Some ms => ms
                              | None => []
                              end in
              match messages with
              | [] => (Ok [], accounts1)
              | _ :: _ =>
                  let validEmails := fetch_all world messages in
                  let gmailIds := map m_id validEmails in
                  match findMany_fault world with
                  | Some e => (Throw e, accounts1)
                  | None =>
                      let existingEmails :=
                        filter (fun r => has gmailIds (Sync.r_gmailId r))
                               stored in
                      let existingGmailIds :=
                        map Sync.r_gmailId existingEmails in
                      let newEmails :=
                        filter (fun email =>
                                  negb (has existingGmailIds (m_id email)))
                               validEmails in
                      (Ok (map (parseEmailMessage decode_base64_utf8
                                                  toLowerCase) newEmails),
                       accounts1)
                  end
              end
          end
      end
  end.

(** [pRetry] around the attempts: each attempt meets its own world and the
    account table the attempts before it left; a [TypeError] that is not a
    network error ends the attempts at once. *)
Fixpoint fetch_retry (world : nat -> World) (stored : Sync.Table)
         (gmailAccountId : jsstring) (maxResults : nat)
         (attemptNumber retriesLeft : nat) (accounts : list GmailAccount)
  : Exc (list Email) * list GmailAccount :=
  match fetch_attempt (world attemptNumber) stored gmailAccountId maxResults
                      accounts with
  | (Ok emails, accounts1) => (Ok emails, accounts1)
  | (Throw e, accounts1) =>
      if type_error e then (Throw e, accounts1)
      else
        match retriesLeft with
        | O => (Throw e, accounts1)
        | S r => fetch_retry world stored gmailAccountId maxResults
                             (S attemptNumber) r accounts1
        end
  end.

Definition fetchNewEmails (world : nat -> World) (stored : Sync.Table)
           (gmailAccountId : jsstring) (maxResults : nat)
           (accounts : list GmailAccount)
  : Exc (list Email) * list GmailAccount :=
  fetch_retry world stored gmailAccountId maxResults 1 3 accounts.

End WithRuntime.

(** What a refresh never changes of an account. *)
Definition kept (a : GmailAccount)
  : jsstring * bool * jsstring * option N :=
  (ga_id a, ga_isActive a, ga_refreshToken a, ga_lastSyncedAt a).

End Gmail.

(** ** Bulk unsubscribe ([app/api/unsubscribe/bulk]): the handler once the
    session is known and the input is validated *)

Module Bulk.

Import Executor.

(** What the handler selects of an [email] row. *)
Record StoredEmail := {
  em_id : jsstring;
  em_subject : jsstring;
  em_unsubscribeLink : option jsstring;
  em_unsubscribeMethod : option jsstring
}.

(** A row of the [unsubscribeAttempt] table, in creation order. *)
Record Attempt := {
  at_id : jsstring;
  at_emailId : jsstring;
  at_status : jsstring;
  at_method : jsstring;
  at_errorMessage : option jsstring;
  at_screenshotPath : option jsstring;
  at_completed : bool                     (* [completedAt] is set *)
}.

(** An element of [results]. *)
Record Entry := {
  en_emailId : jsstring;
  en_success : bool;
  en_message : jsstring;
  en_method : option jsstring;
  en_error : option jsstring
}.

Record World := {
  browser : Executor.World;
  (** the id the database gives the attempt created when the table holds
      that many rows *)
  new_attempt_id : nat -> jsstring;
  (** faults of the database: of [create] for an email, of the [update]
      after the run for an attempt, and of the lookup or update in the
      [catch] block for an email *)
  create_fault : jsstring -> option exn;
  update_fault : jsstring -> option exn;
  mark_fault : jsstring -> option exn
}.

Record St := {
  attempts : list Attempt;
  trace : list Event;
  results : list Entry;
  successCount : nat;
  failureCount : nat;
  pauses : nat                            (* timers of 2000 ms awaited *)
}.

(** [a || b] on nullable strings. *)
Definition or_else (a : option jsstring) (b : option jsstring)
  : option jsstring :=
  match a with
  | Some s => if truthy s then Some s else b
  | None => b
  end.

Definition has_link (email : StoredEmail) : bool :=
  match em_unsubscribeLink email with
  | Some l => truthy l
  | None => false
  end.

(** [prisma.unsubscribeAttempt.update({ where: { id }, data })] *)
Definition update_attempt (id : jsstring) (f : Attempt -> Attempt)
           (table : list Attempt) : list Attempt :=
  map (fun a => if str_eqb (at_id a) id then f a else a) table.

(** [findFirst({ where: { emailId }, orderBy: { attemptedAt: 'desc' } })] *)
Definition latest_attempt (table : list Attempt) (emailId : jsstring)
  : option Attempt :=
  find (fun a => str_eqb (at_emailId a) emailId) (rev table).

Definition finish (result : UnsubscribeResult) (a : Attempt) : Attempt :=
  {| at_id := at_id a;
     at_emailId := at_emailId a;
     at_status := if success result then lit "success" else lit "failed";
     at_method := method_name (method result);
     at_errorMessage := or_else (error result) None;
     at_screenshotPath :=
       match screenshotPaths result with
       | Some p => or_else (after p) (or_else (before p) None)
       | None => None
       end;
     at_completed := true |}.

Definition mark_failed (e : exn) (a : Attempt) : Attempt :=
  {| at_id := at_id a;
     at_emailId := at_emailId a;
     at_status := lit "failed";
     at_method := at_method a;
     at_errorMessage :=
       Some (if truthy (JS.message e) then JS.message e
             else lit "Unknown error");
     at_screenshotPath := at_screenshotPath a;
     at_completed := true |}.

Section WithWorld.

Variable world : World.

(** The [catch] block of one iteration. *)
Definition on_error (email : StoredEmail) (e : exn) (st : St) : St :=
  let table :=
    match mark_fault world (em_id email) with
    | Some _ => attempts st
    | None =>
        match latest_attempt (attempts st) (em_id email) with
        | Some failedAttempt =>
            update_attempt (at_id failedAttempt) (mark_failed e) (attempts st)
        | None => attempts st
        end
    end in
  {| attempts := table;
     trace := trace st;
     results := results st
                ++ [ {| en_emailId := em_id email;
                        en_success := false;
                        en_message := lit "Error: " ++ JS.message e;
                        en_method := None;
                        en_error := Some (JS.message e) |} ];
     successCount := successCount st;
     failureCount := S (failureCount st);
     pauses := pauses st |}.

(** One iteration of the loop over the emails that have a link. *)
Definition process (st : St) (email : StoredEmail) : St :=
  match create_fault world (em_id email) with
  | Some e => on_error email e st
  | None =>
      let attempt :=
        {| at_id := new_attempt_id world (List.length (attempts st));
           at_emailId := em_id email;
           at_status := lit "pending";
           at_method :=
             match or_else (em_unsubscribeMethod email) None with
             | Some m => m
             | None => lit "link"
             end;
           at_errorMessage := None;
           at_screenshotPath := None;
           at_completed := false |} in
      let link := match em_unsubscribeLink email with
                  | Some l => l
                  | None => []
                  end in
      let '(outcome, trace1) :=
        unsubscribeEmail (browser world) link (at_id attempt) (trace st) in
      let st1 := {| attempts := attempts st ++ [attempt];
                    trace := trace1;
                    results := results st;
                    successCount := successCount st;
                    failureCount := failureCount st;
                    pauses := pauses st |} in
      match outcome with
      | Throw e => on_error email e st1
      | Ok result =>
          match update_fault world (at_id attempt) with
          | Some e => on_error email e st1
          | None =>
              {| attempts :=
                   update_attempt (at_id attempt) (finish result)
                                  (attempts st1);
                 trace := trace1;
                 results :=
                   results st
                   ++ [ {| en_emailId := em_id email;
                           en_success := success result;
                           en_message := message result;
                           en_method := Some (method_name (method result));
                           en_error := error result |} ];
                 successCount :=
                   if success result then S (successCount st)
                   else successCount st;
                 failureCount :=
                   if success result then failureCount st
                   else S (failureCount st);
                 pauses := S (pauses st) |}
          end
      end
  end.

Record Summary := {
  s_success : bool;
  s_totalRequested : nat;
  s_processed : nat;
  s_succeeded : nat;
  s_failed : nat;
  s_skipped : nat;
  s_results : list Entry;
  s_message : jsstring
}.

Inductive Response :=
| NotFound                                 (* 404 *)
| NoLinks (skipped : nat)                  (* 400 *)
| Done (body : Summary).                   (* 200 *)

Definition count (n : nat) : jsstring := num (N.of_nat n).

(** The handler from the result of [prisma.email.findMany] on. *)
Definition bulk_unsubscribe (emailIds : list jsstring)
           (emails : list StoredEmail) (table : list Attempt)
  : Response * St :=
  let st0 := {| attempts := table; trace := []; results := [];
                successCount := 0; failureCount := 0; pauses := 0 |} in
  match emails with
  | [] => (NotFound, st0)
  | _ :: _ =>
      let unsubscribableEmails := filter has_link emails in
      let nonUnsubscribableCount :=
        List.length emails - List.length unsubscribableEmails in
      match unsubscribableEmails with
      | [] => (NoLinks nonUnsubscribableCount, st0)
      | _ :: _ =>
          let st := fold_left process unsubscribableEmails st0 in
          let successCount := successCount st in
          let failureCount := failureCount st in
          (Done {| s_success := 0 <? successCount;
                   s_totalRequested := List.length emailIds;
                   s_processed := successCount + failureCount;
                   s_succeeded := successCount;
                   s_failed := failureCount;
                   s_skipped := nonUnsubscribableCount;
                   s_results := results st;
                   s_message :=
                     if (0 <? successCount) && (failureCount =? 0)
                     then lit "Successfully unsubscribed from "
                          ++ count successCount ++ lit " email(s)."
                     else if (0 <? successCount) && (0 <? failureCount)
                     then lit "Unsubscribed from " ++ count successCount
                          ++ lit " email(s). " ++ count failureCount
                          ++ lit " failed."
                     else lit "Failed to unsubscribe from all emails. "
                          ++ count failureCount ++ lit " failed." |},
           st)
      end
  end.

End WithWorld.

End Bulk.

(** ** Token vault: key generation *)

Module VaultAux.

Import Vault.

Section WithCrypto.

Context {C : Crypto}.

Variable entropy : nat -> byte.

(** [generateEncryptionKey]: thirty-two random bytes in base64. *)
Definition generateEncryptionKey (drawn : nat) : jsstring * nat :=
  let '(key, drawn1) := randomBytes entropy 32 drawn in
  (to_base64 key, drawn1).

End WithCrypto.

End VaultAux.

(** ** The language of a pattern *)

Module RegexAux.

(** [Matches r m]: the text [m] is matched by the pattern [r]. *)
Inductive Matches : re -> jsstring -> Prop :=
| MEps : Matches Eps []
| MCls (p : cls) (c : N) : cls_match p c = true -> Matches (Cls p) [c]
| MCat (a b : re) (x y : jsstring) :
    Matches a x -> Matches b y -> Matches (Cat a b) (x ++ y)
| MOptNone (a : re) : Matches (Opt a) []
| MOptSome (a : re) (x : jsstring) : Matches a x -> Matches (Opt a) x
| MStarNil (a : re) : Matches (Star a) []
| MStarCons (a : re) (x y : jsstring) :
    Matches a x -> Matches (Star a) y -> Matches (Star a) (x ++ y).

End RegexAux.

(** ** The scoring rule of the body tier, in the words of its description *)

Module DetectorSpec.

Import Detector RegexAux.




Section WithRuntime.

Variable toLowerCase : jsstring -> jsstring.



End WithRuntime.

End DetectorSpec.

Module ExecutorAux.

Import Executor.

Definition not_click (e : Event) : bool :=
  match e with EClick => false | _ => true end.

(** A postcondition on the calls a computation adds and on its outcome. *)
Definition spec {A} (P : list Event -> Exc A -> Prop) (m : M A) : Prop :=
  forall t, exists d, snd (m t) = t ++ d /\ P d (fst (m t)).

(** The directory of the artifacts of an attempt. *)
Definition attempt_dir (attemptId : jsstring) : jsstring :=
  lit "/unsubscribe-logs/" ++ attemptId ++ lit "/".

(** The test the inner loops make on an element. *)
Definition element_matches (pattern : re) (el : Element) : bool :=
  match textContent el with
  | Ok (Some t) => truthy t && test pattern t
  | _ => false
  end.

Definition readable (el : Element) : Prop :=
  exists o, textContent el = Ok o.

(** The loaded page shows a blocker (CAPTCHA, login wall, verification). *)
Definition blocked (page : Page) : Prop :=
  exists c, content_loaded page = Ok c
            /\ some_test Patterns.ERROR_PATTERNS c = true.

(** The page shows a confirmation after the click. *)
Definition confirmed (page : Page) : Prop :=
  exists c, content_settled page = Ok c
            /\ some_test Patterns.SUCCESS_PATTERNS c = true.

(** What holds of the [try] block of Tier 2: of a result, and of every
    outcome on a blocked page. *)
Definition try_post (page : Page) (attemptId : jsstring)
           (d : list Event) (o : Exc UnsubscribeResult) : Prop :=
  (forall r, o = Ok r ->
             In EClose d
             /\ Forall (fun p => startsWith (attempt_dir attemptId) p = true)
                       (artifacts r)
             /\ (success r = true ->
                 In EClick d /\ List.length (artifacts r) = 2
                 /\ confirmed page))
  /\ (blocked page ->
      forallb not_click d = true
      /\ forall r, o = Ok r -> success r = false).

(** What holds of the [catch] block of Tier 2. *)
Definition catch_post (attemptId : jsstring) (e : exn)
           (d : list Event) (o : Exc UnsubscribeResult) : Prop :=
  In EClose d
  /\ forallb not_click d = true
  /\ forall r, o = Ok r ->
               success r = false
               /\ Forall (fun p => startsWith (attempt_dir attemptId) p = true)
                         (artifacts r)
               /\ message r = lit "Browser automation failed: " ++ JS.message e
               /\ error r = Some (JS.message e).

(** What holds of Tier 2 as a whole. *)
Definition tier2_post (world : World) (attemptId : jsstring)
           (d : list Event) (o : Exc UnsubscribeResult) : Prop :=
  (launch world = Ok tt -> In EClose d)
  /\ (forall r, o = Ok r ->
                Forall (fun p => startsWith (attempt_dir attemptId) p = true)
                       (artifacts r)
                /\ (success r = true ->
                    In EClick d /\ List.length (artifacts r) = 2
                    /\ exists page, newPage world = Ok page
                                    /\ confirmed page))
  /\ (forall page, newPage world = Ok page -> blocked page ->
                   forallb not_click d = true
                   /\ forall r, o = Ok r -> success r = false).

End ExecutorAux.

(** ** Further concrete inputs *)

Module MoreFixtures.

Import Fixtures.

Definition mailto_only : jsstring :=
  lit "<mailto:unsubscribe@example.com?subject=unsubscribe>".

(** A page behind a CAPTCHA, a site whose navigation times out, and a page
    with a button that matches a later pattern and a link that matches the
    first. *)
Definition captcha_page : Executor.Page :=
  {| Executor.goto := fun _ => Ok (Some 200);
     Executor.screenshot := fun _ => Ok 1700000000000%N;
     Executor.content_loaded :=
       Ok (lit "<p>Please complete the CAPTCHA</p><button>Unsubscribe</button>");
     Executor.content_settled := Ok [];
     Executor.locator_all := Executor.locator_all confirm_page;
     Executor.waitForTimeout := fun _ => Ok tt |}.

Definition with_page (page : Exc Executor.Page) : Executor.World :=
  {| Executor.fetch := Executor.fetch site;
     Executor.launch := Ok tt;
     Executor.newPage := page;
     Executor.close := fun _ => Ok tt |}.

Definition timeout_page : Executor.Page :=
  {| Executor.goto :=
       fun _ => Throw (Error (lit "Timeout 30000ms exceeded") None);
     Executor.screenshot := fun _ => Ok 1700000000000%N;
     Executor.content_loaded := Ok [];
     Executor.content_settled := Ok [];
     Executor.locator_all := fun _ => Ok [];
     Executor.waitForTimeout := fun _ => Ok tt |}.

Definition element (text : string) : Executor.Element :=
  {| Executor.textContent := Ok (Some (lit text));
     Executor.click := Ok tt |}.

Definition mixed_page : Executor.Page :=
  {| Executor.goto := fun _ => Ok (Some 200);
     Executor.screenshot := fun _ => Ok 1700000000000%N;
     Executor.content_loaded := Ok (lit "<p>Manage your mail</p>");
     Executor.content_settled := Ok [];
     Executor.locator_all :=
       fun sel => if str_eqb sel (lit "button")
                  then Ok [element "Opt out of everything"]
                  else Ok [element "Home"; element "Unsubscribe here"];
     Executor.waitForTimeout := fun _ => Ok tt |}.

(** A site whose unsubscribe URL answers with a confirmation. *)
Definition confirming_site : Executor.World :=
  {| Executor.fetch :=
       fun _ => Ok {| Executor.status := 200;
                      Executor.statusText := lit "OK";
                      Executor.text := Ok (lit "<p>You have been unsubscribed.</p>") |};
     Executor.launch := Ok tt;
     Executor.newPage := Ok confirm_page;
     Executor.close := fun _ => Ok tt |}.

Definition mailto_url : jsstring := lit "mailto:unsubscribe@example.com".

(** An account whose refresh token was sealed under [master_key], with an
    access token that expired at time 1000; a token endpoint that issues a
    fresh access token; a mailbox that lists a stored message, a new one
    and one that cannot be fetched. *)
Definition sealed_refresh_token : jsstring :=
  match fst (Vault.encrypt (C := toy) (Some master_key) entropy
                           (lit "1//0gRefreshToken") 0) with
  | Ok out => out
  | Throw _ => []
  end.

Definition mailbox_account : Gmail.GmailAccount :=
  {| Gmail.ga_id := lit "acc-1";
     Gmail.ga_isActive := true;
     Gmail.ga_refreshToken := sealed_refresh_token;
     Gmail.ga_accessToken := Some (lit "ya29.old");
     Gmail.ga_expiresAt := Some 1000%N;
     Gmail.ga_lastSyncedAt := Some 1700000000000%N |}.

Definition other_account : Gmail.GmailAccount :=
  {| Gmail.ga_id := lit "acc-2";
     Gmail.ga_isActive := false;
     Gmail.ga_refreshToken := lit "AAAA";
     Gmail.ga_accessToken := None;
     Gmail.ga_expiresAt := None;
     Gmail.ga_lastSyncedAt := None |}.

Definition fresh_credentials : Gmail.Credentials :=
  {| Gmail.refresh_token := Gmail.Val (lit "1//0gRefreshToken");
     Gmail.access_token := Gmail.Val (lit "ya29.new");
     Gmail.expiry_date := Gmail.Val 1700003600000%N |}.

Definition new_message : Normalizer.Message :=
  {| Normalizer.m_id := lit "18c2f0a1b2c3d4ff";
     Normalizer.payload_headers :=
       Some [ {| Normalizer.h_name := Some (lit "Subject");
                 Normalizer.h_value := Some (lit "Hello") |} ];
     Normalizer.payload :=
       Some (Normalizer.Part (Some (lit "text/plain")) (Some (lit "aGVsbG8=")) None) |}.

Definition mailbox (at_time : N) : Gmail.World :=
  {| Gmail.now := at_time;
     Gmail.refreshAccessToken := fun _ => Ok fresh_credentials;
     Gmail.update_fault := None;
     Gmail.messages_list :=
       fun _ _ => Ok (Some [lit "18c2f0a1b2c3d4e5"; lit "18c2f0a1b2c3d4ff";
                            lit "18c2f0a1b2c3d400"]);
     Gmail.messages_get :=
       fun id => if str_eqb id (lit "18c2f0a1b2c3d4e5")
                 then Ok (message_with (lit "aGVsbG8="))
                 else if str_eqb id (lit "18c2f0a1b2c3d4ff")
                 then Ok new_message
                 else Throw (Error (lit "404 Not Found") None);
     Gmail.findMany_fault := None |}.

(** A database that accepts the third connection. *)
Definition third_time (i : nat) : Exc unit :=
  if i <? 2 then Throw (Error (lit "Can't reach database server") None)
  else Ok tt.

(** A message whose List-Unsubscribe header lists only a mailto address and
    whose body, [doc_one_link], holds an unsubscribe link. *)
Definition mailto_message : Normalizer.Message :=
  {| Normalizer.m_id := lit "18c2f0a1b2c3d4e6";
     Normalizer.payload_headers :=
       Some [ {| Normalizer.h_name := Some (lit "Subject");
                 Normalizer.h_value := Some (lit "Offers") |};
              {| Normalizer.h_name := Some (lit "List-Unsubscribe");
                 Normalizer.h_value := Some mailto_only |} ];
     Normalizer.payload :=
       Some (Normalizer.Part (Some (lit "text/html"))
               (Some (lit "PGh0bWw+PGJvZHk+PGEgaHJlZj1odHRwczovL2JvZHkuY29tL3Vuc3Vic2NyaWJlPlVuc3Vic2NyaWJlPC9hPjwvYm9keT48L2h0bWw+")) None) |}.

(** A second message, and a world whose database refuses every insert with
    a connection error while the model answers. *)
Definition offers : Normalizer.Email :=
  {| Normalizer.gmailId := lit "18c2f0a1b2c3d4e7";
     Normalizer.e_subject := lit "Offers";
     Normalizer.e_from := lit "shop@example.com";
     Normalizer.e_body := doc_one_link;
     Normalizer.bodyTruncated := false;
     Normalizer.e_date := lit "Mon, 02 Nov 2026 09:00:00 +0000";
     Normalizer.unsubscribeLink := None;
     Normalizer.unsubscribeMethod := lit "none";
     Normalizer.headers_listUnsubscribe := [] |}.

Definition answering : Sync.World :=
  {| Sync.toLowerCase := ascii_lower;
     Sync.cheerio_links := cheerio;
     Sync.chat_completion :=
       fun prompt _ =>
         if startsWith (lit "Summarize") prompt
         then Ok (Some (lit "Weekly digest of the list."))
         else Ok (Some (lit "high"));
     Sync.JSON_parse := parse;
     Sync.archiveEmail := fun _ _ => true;
     Sync.concurrent := fun _ => [];
     Sync.create_fault := fun _ => None |}.

(** A run over two messages while another writer inserts the first. *)
Definition twice_fetched : Sync.Run :=
  {| Sync.run_world := racing; Sync.run_account := inbox;
     Sync.run_categories := cats; Sync.run_emails := [digest; offers] |}.

Definition db_down : Sync.World :=
  {| Sync.toLowerCase := ascii_lower;
     Sync.cheerio_links := cheerio;
     Sync.chat_completion := Sync.chat_completion answering;
     Sync.JSON_parse := parse;
     Sync.archiveEmail := fun _ _ => true;
     Sync.concurrent := fun _ => [];
     Sync.create_fault :=
       fun _ => Some (Error (lit "Can't reach database server") (Some (lit "P1001"))) |}.

(** A multipart/alternative message: a plain-text part, then an HTML part. *)
Definition alternative : Normalizer.MessagePart :=
  Normalizer.Part (Some (lit "multipart/alternative")) None
    (Some [ Normalizer.Part (Some (lit "text/plain")) (Some (lit "aGVsbG8=")) None;
            Normalizer.Part (Some (lit "text/html"))
                            (Some (lit "PGI+aGk8L2I+")) None ]).

(** A multipart/mixed message: an attachment, then a plain-text part. *)
Definition with_attachment : Normalizer.MessagePart :=
  Normalizer.Part (Some (lit "multipart/mixed")) None
    (Some [ Normalizer.Part (Some (lit "application/pdf")) None None;
            Normalizer.Part (Some (lit "text/plain")) (Some (lit "aGVsbG8=")) None ]).

(** A model service that is down for two attempts and then answers with
    white space around the text. *)
Definition flaky : jsstring -> nat -> Exc (option jsstring) :=
  fun _ attemptNumber =>
    if attemptNumber <? 3
    then Throw (Error (lit "429 Too Many Requests") None)
    else Ok (Some (lit "  A digest of the week. " ++ [10%N])).

(** The result of the run on [site], and of a run that ends on
    [captcha_page]. *)
Definition clicked_result : Executor.UnsubscribeResult :=
  {| Executor.success := true; Executor.method := Executor.simple_click;
     Executor.message := lit "Successfully unsubscribed by clicking button: "
                         ++ [34%N] ++ lit "Unsubscribe" ++ [34%N];
     Executor.screenshotPaths :=
       Some {| Executor.before :=
                 Some (lit "/unsubscribe-logs/attempt-7/before-1700000000000.png");
               Executor.after :=
                 Some (lit "/unsubscribe-logs/attempt-7/after-1700000000000.png") |};
     Executor.error := None |}.

Definition captcha_result : Executor.UnsubscribeResult :=
  {| Executor.success := false; Executor.method := Executor.simple_click;
     Executor.message :=
       lit "Automated unsubscribe failed. Page requires CAPTCHA or login. Manual unsubscribe recommended.";
     Executor.screenshotPaths :=
       Some {| Executor.before :=
                 Some (lit "/unsubscribe-logs/attempt-7/before-1700000000000.png");
               Executor.after := None |};
     Executor.error := Some (lit "CAPTCHA or authentication required") |}.

(** A bulk request over two stored emails, one of them without a link, on
    the fixture site and a database without faults; and what it leaves. *)
Definition bulk_world : Bulk.World :=
  {| Bulk.browser := site;
     Bulk.new_attempt_id := fun _ => attempt_id;
     Bulk.create_fault := fun _ => None;
     Bulk.update_fault := fun _ => None;
     Bulk.mark_fault := fun _ => None |}.

Definition selected : list Bulk.StoredEmail :=
  [ {| Bulk.em_id := lit "email-1"; Bulk.em_subject := lit "Weekly digest";
       Bulk.em_unsubscribeLink := Some unsubscribe_url;
       Bulk.em_unsubscribeMethod := Some (lit "header") |};
    {| Bulk.em_id := lit "email-2"; Bulk.em_subject := lit "Invoice";
       Bulk.em_unsubscribeLink := None;
       Bulk.em_unsubscribeMethod := Some (lit "none") |} ].

Definition bulk_entry : Bulk.Entry :=
  {| Bulk.en_emailId := lit "email-1";
     Bulk.en_success := true;
     Bulk.en_message := Executor.message clicked_result;
     Bulk.en_method := Some (lit "simple-click");
     Bulk.en_error := None |}.

Definition bulk_body : Bulk.Summary :=
  {| Bulk.s_success := true;
     Bulk.s_totalRequested := 2;
     Bulk.s_processed := 1;
     Bulk.s_succeeded := 1;
     Bulk.s_failed := 0;
     Bulk.s_skipped := 1;
     Bulk.s_results := [bulk_entry];
     Bulk.s_message := lit "Successfully unsubscribed from 1 email(s)." |}.

Definition bulk_state : Bulk.St :=
  {| Bulk.attempts :=
       [ {| Bulk.at_id := attempt_id;
            Bulk.at_emailId := lit "email-1";
            Bulk.at_status := lit "success";
            Bulk.at_method := lit "simple-click";
            Bulk.at_errorMessage := None;
            Bulk.at_screenshotPath :=
              Some (lit "/unsubscribe-logs/attempt-7/after-1700000000000.png");
            Bulk.at_completed := true |} ];
     Bulk.trace :=
       [ Executor.EFetch unsubscribe_url; Executor.ELaunch; Executor.ENewPage;
         Executor.EGoto unsubscribe_url; Executor.EScreenshot (lit "before");
         Executor.EContent; Executor.ELocator (lit "button");
         Executor.ETextContent; Executor.EClick; Executor.EWait 3000;
         Executor.EScreenshot (lit "after"); Executor.EContent;
         Executor.EClose ];
     Bulk.results := [bulk_entry];
     Bulk.successCount := 1;
     Bulk.failureCount := 0;
     Bulk.pauses := 1 |}.

End MoreFixtures.

(** * Proofs *)

Unset Implicit Arguments.

(** ** Strings and lists *)

Lemma str_eqb_eq a b : str_eqb a b = true <-> a = b.
Proof.
  revert b; induction a as [|x a IH]; intros [|y b]; simpl; split; intro H;
    try discriminate; try reflexivity.
  - apply andb_true_iff in H as [Hx Hr]. apply N.eqb_eq in Hx.
    apply IH in Hr. now subst.
  - inversion H; subst. rewrite N.eqb_refl. simpl. now apply IH.
Qed.

Lemma str_eqb_refl a : str_eqb a a = true.
Proof. now apply str_eqb_eq. Qed.

Lemma startsWith_app p s :
  startsWith p s = true -> exists t, s = p ++ t.
Proof.
  revert s; induction p as [|x p IH]; intros s H.
  - now exists s.
  - destruct s as [|y s]; simpl in H; [discriminate|].
    apply andb_true_iff in H as [Hx Hr]. apply N.eqb_eq in Hx. subst y.
    destruct (IH _ Hr) as [t ->]. now exists t.
Qed.

Lemma find_first_split {A} (f : A -> bool) (l : list A) :
  (exists h, In h l /\ f h = true) ->
  exists l1 u l2, l = l1 ++ u :: l2 /\ f u = true
                  /\ (forall x, In x l1 -> f x = false)
                  /\ find f l = Some u.
Proof.
  induction l as [|a l IH]; intros [h [Hin Hf]]; [contradiction|].
  destruct (f a) eqn:Ha.
  - exists [], a, l. simpl. rewrite Ha. repeat split; auto. contradiction.
  - destruct Hin as [->|Hin]; [congruence|].
    destruct IH as (l1 & u & l2 & -> & Hu & Hl1 & Hfind); [eauto|].
    exists (a :: l1), u, l2. simpl. rewrite Ha. repeat split; auto.
    intros x [->|Hx]; auto.
Qed.

(** ** Patterns: what a match is made of *)

Module RegexMore.

Import RegexAux.

Lemma star_iter_sound (a : re) (f : jsstring -> list jsstring) :
  (forall s s', In s' (f s) -> exists m, s = m ++ s' /\ Matches a m) ->
  forall fuel s s', In s' (star_iter f fuel s) ->
                    exists m, s = m ++ s' /\ Matches (Star a) m.
Proof.
  intros Hf. induction fuel as [|fuel IH]; intros s s' H; simpl in H.
  - destruct H as [<-|[]]. exists []. split; [reflexivity|constructor].
  - apply in_app_or in H as [H|[<-|[]]].
    + apply in_flat_map in H as (s1 & H1 & H2).
      destruct (List.length s1 <? List.length s); [|contradiction].
      destruct (Hf _ _ H1) as (m1 & -> & M1).
      destruct (IH _ _ H2) as (m2 & -> & M2).
      exists (m1 ++ m2). split; [now rewrite app_assoc|].
      now constructor.
    + exists []. split; [reflexivity|constructor].
Qed.

(** Every continuation the engine yields is what is left after a match. *)
Lemma rem_sound (r : re) :
  forall s s', In s' (rem r s) -> exists m, s = m ++ s' /\ Matches r m.
Proof.
  induction r as [|p|a IHa b IHb|a IHa|a IHa]; intros s s' H; cbn [rem] in H.
  - destruct H as [<-|[]]. exists []. split; [reflexivity|constructor].
  - destruct s as [|c t]; [contradiction|].
    destruct (cls_match p c) eqn:E; [|contradiction].
    destruct H as [<-|[]]. exists [c]. split; [reflexivity|now constructor].
  - apply in_flat_map in H as (s1 & H1 & H2).
    destruct (IHa _ _ H1) as (m1 & -> & M1).
    destruct (IHb _ _ H2) as (m2 & -> & M2).
    exists (m1 ++ m2). split; [now rewrite app_assoc|]. now constructor.
  - apply in_app_or in H as [H|[<-|[]]].
    + destruct (IHa _ _ H) as (m & -> & M). exists m.
      split; [reflexivity|now constructor].
    + exists []. split; [reflexivity|constructor].
  - exact (star_iter_sound a (rem a) IHa _ _ _ H).
Qed.

Lemma exec_at_sound (r : re) (s m rest : jsstring) :
  exec_at r s = Some (m, rest) -> s = m ++ rest /\ Matches r m.
Proof.
  unfold exec_at. destruct (rem r s) as [|s' l] eqn:E; [intros H; discriminate H|].
  intros H. inversion H; subst. clear H.
  destruct (rem_sound r s rest) as (m & -> & M); [rewrite E; now left|].
  rewrite length_app, Nat.add_sub, firstn_app, Nat.sub_diag, firstn_all.
  simpl. rewrite app_nil_r. auto.
Qed.

Lemma search_sound (r : re) (s m rest : jsstring) :
  search r s = Some (m, rest) ->
  exists pre, s = pre ++ m ++ rest /\ Matches r m.
Proof.
  induction s as [|c t IH]; cbn [search].
  - destruct (exec_at r []) as [[m' r']|] eqn:E; [|intros H; discriminate H].
    intros H. inversion H; subst. apply exec_at_sound in E as [E M].
    exists []. auto.
  - destruct (exec_at r (c :: t)) as [[m' r']|] eqn:E.
    + intros H. inversion H; subst. apply exec_at_sound in E as [E M].
      exists []. auto.
    + intros H. destruct (IH H) as (pre & -> & M). exists (c :: pre). auto.
Qed.

Lemma Matches_Cat_inv (a b : re) (m : jsstring) :
  Matches (Cat a b) m ->
  exists x y, m = x ++ y /\ Matches a x /\ Matches b y.
Proof. intros H. inversion H; subst. eauto. Qed.

Lemma Matches_Cls_inv (p : cls) (m : jsstring) :
  Matches (Cls p) m -> exists c, m = [c] /\ cls_match p c = true.
Proof. intros H. inversion H; subst. eauto. Qed.

Lemma Matches_Opt_inv (a : re) (m : jsstring) :
  Matches (Opt a) m -> m = [] \/ Matches a m.
Proof. intros H. inversion H; subst; auto. Qed.

Lemma Matches_Star_cls (p : cls) (m : jsstring) :
  Matches (Star (Cls p)) m -> forallb (cls_match p) m = true.
Proof.
  intros H. remember (Star (Cls p)) as r eqn:E.
  induction H; try discriminate E; [reflexivity|].
  injection E as ->. apply Matches_Cls_inv in H as (c & -> & Hc).
  simpl. rewrite Hc. now apply IHMatches2.
Qed.

Lemma Matches_word_exact (s m : jsstring) :
  Matches (word_exact s) m -> m = s.
Proof.
  revert m. induction s as [|c s IH]; intros m H; cbn [word_exact] in H.
  - now inversion H.
  - apply Matches_Cat_inv in H as (x & y & -> & Hx & Hy).
    apply Matches_Cls_inv in Hx as (c' & -> & Hc). simpl in Hc.
    apply N.eqb_eq in Hc. subst c'. simpl. f_equal. now apply IH.
Qed.









End RegexMore.

(** ** Unsubscribe detector *)

Module DetectorProofs.

Import Detector DetectorSpec RegexAux.


Section WithRuntime.

Variable toLowerCase : jsstring -> jsstring.
Variable cheerio_links : jsstring -> Exc (list Anchor).



Lemma extractFromBody_throw (body : jsstring) (e : exn) :
  cheerio_links body = Throw e ->
  extractFromBody toLowerCase cheerio_links body = Ok None.
Proof. intros H. unfold extractFromBody. now rewrite H. Qed.

Lemma extractFromBody_total (body : jsstring) :
  exists r, extractFromBody toLowerCase cheerio_links body = Ok r.
Proof.
  unfold extractFromBody. destruct (cheerio_links body); simpl; eauto.
Qed.

Lemma header_urls_nonempty (hdr : jsstring) :
  header_urls hdr <> [] -> truthy hdr = true /\ match_g angle_re hdr <> [].
Proof.
  intros H. split.
  - destruct hdr; [exfalso; apply H; reflexivity | reflexivity].
  - intros E. apply H. unfold header_urls. now rewrite E.
Qed.

Lemma extractFromHeader_find (hdr : jsstring) :
  extractFromHeader hdr
  = match find (startsWith (lit "http")) (header_urls hdr) with
    | Some u => Some u
    | None => find (startsWith (lit "mailto:")) (header_urls hdr)
    end.
Proof.
  unfold extractFromHeader, header_urls.
  destruct (match_g angle_re hdr) as [|m ms]; [reflexivity|].
  set (urls := map _ (m :: ms)).
  change (find (fun u => startsWith (lit "http") u) urls)
    with (find (startsWith (lit "http")) urls).
  change (find (fun u => startsWith (lit "mailto:") u) urls)
    with (find (startsWith (lit "mailto:")) urls).
  destruct (find (startsWith (lit "http")) urls); [reflexivity|].
  now destruct (find (startsWith (lit "mailto:")) urls).
Qed.

Lemma http_uri_starts_http (u : jsstring) :
  is_http_uri u = true -> startsWith (lit "http") u = true.
Proof.
  unfold is_http_uri. intros H. apply orb_true_iff in H as [H|H];
    apply startsWith_app in H as [t ->]; reflexivity.
Qed.

Lemma mailto_not_http (u : jsstring) :
  is_mailto_uri u = true -> startsWith (lit "http") u = false.
Proof.
  unfold is_mailto_uri. intros H.
  apply startsWith_app in H as [t ->]. reflexivity.
Qed.

Lemma starts_http_truthy (u : jsstring) :
  startsWith (lit "http") u = true -> truthy u = true.
Proof. intros H. apply startsWith_app in H as [t ->]. reflexivity. Qed.

Lemma find_none_forall {A} (f : A -> bool) (l : list A) :
  (forall x, In x l -> f x = false) -> find f l = None.
Proof.
  induction l as [|a l IH]; intros H; [reflexivity|].
  simpl. rewrite (H a (or_introl eq_refl)). apply IH.
  intros x Hx. apply H. now right.
Qed.













(** The detector returns a result, with one of the three methods. *)
Lemma extractUnsubscribeInfo_returns (body : jsstring) (headers : Headers) :
  exists r,
    extractUnsubscribeInfo toLowerCase cheerio_links body headers = Ok r
    /\ In (method_name (method r)) [lit "header"; lit "link"; lit "none"].
Proof.
  unfold extractUnsubscribeInfo.
  destruct (extractFromBody_total body) as [r Hr]. rewrite Hr. simpl.
  assert (Hb : exists r0,
             match r with
             | Some u => if truthy u
                         then Ok {| url := Some u; method := link |}
                         else Ok {| url := None; method := none |}
             | None => Ok {| url := None; method := none |}
             end = Ok r0
             /\ In (method_name (method r0))
                   [lit "header"; lit "link"; lit "none"]).
  { destruct r as [u|]; [destruct (truthy u)|]; eexists; split;
      try reflexivity; simpl; auto. }
  destruct (listUnsubscribe headers) as [h|]; [|exact Hb].
  destruct (truthy h); [|exact Hb].
  destruct (extractFromHeader h) as [u|]; [|exact Hb].
  destruct (truthy u); [|exact Hb].
  eexists; split; [reflexivity|]. simpl; auto.
Qed.

(** C10. The detector returns a result for every body and every headers
    value: a body the parser fails on gives no body-tier candidate, and the
    method of the result is one of [header], [link], [none]. *)
Theorem detector_total (body : jsstring) (headers : Headers) :
  (exists r,
      extractUnsubscribeInfo toLowerCase cheerio_links body headers = Ok r
      /\ In (method_name (method r)) [lit "header"; lit "link"; lit "none"])
  /\ (exists r, extractFromBody toLowerCase cheerio_links body = Ok r)
  /\ (forall e, cheerio_links body = Throw e ->
                extractFromBody toLowerCase cheerio_links body = Ok None).
Proof.
  split; [|split].
  - apply extractUnsubscribeInfo_returns.
  - apply extractFromBody_total.
  - intros e He. now apply extractFromBody_throw with e.
Qed.

End WithRuntime.

Import Fixtures.

(** The test of the repository: with a mailto and an HTTPS URI in the header
    the HTTPS one is selected, whatever the order. *)
Example header_prefers_http :
  extractUnsubscribeInfo ascii_lower cheerio doc_one_link
    {| listUnsubscribe := Some both_uris |}
  = Ok {| url := Some (lit "https://example.com/unsubscribe");
          method := header |}.
Proof. vm_compute. reflexivity. Qed.

Example malformed_header_falls_to_body :
  extractUnsubscribeInfo ascii_lower cheerio doc_one_link
    {| listUnsubscribe := Some (lit "invalid") |}
  = Ok {| url := Some (lit "https://body.com/unsubscribe"); method := link |}.
Proof. vm_compute. reflexivity. Qed.

Example equal_scores_first_wins :
  map priority (candidateLinks ascii_lower
                  [anchor "https://a.example/optout" "Unsubscribe" false;
                   anchor "https://b.example/optout" "Opt out" false])
  = [8; 8]
  /\ extractFromBody ascii_lower cheerio doc_two_links
     = Ok (Some (lit "https://a.example/optout")).
Proof. vm_compute. split; reflexivity. Qed.



(** The points of each test, one at a time and together. *)
Example points_of_the_tests :
  map (score ascii_lower)
      [footer_only; class_only; href_only; text_only; text_again; no_test;
       relative; every_test]
  = [1; 2; 3; 5; 5; 0; 9; 11].
Proof. vm_compute. reflexivity. Qed.


Lemma detector_total_witness :
  extractFromBody ascii_lower cheerio doc_broken = Ok None.
Proof.
  destruct (detector_total ascii_lower cheerio doc_broken
              {| listUnsubscribe := None |}) as (_ & _ & H).
  apply (H (Error (lit "parse error") None)). reflexivity.
Defined.

End DetectorProofs.

(** ** Classification *)

Module ClassifierProofs.

Import Classifier.

(** The outcome of [pRetry], in terms of the attempts: the result of the
    first attempt that succeeds, the attempts before it having failed with
    errors that are retried. *)
Lemma pRetry_from_ok_iff {A} (fn : nat -> Exc A) (retries n : nat) (a : A) :
  pRetry_from fn n retries = Ok a <->
  exists k, n <= k <= n + retries /\ fn k = Ok a
            /\ forall j, n <= j < k ->
                         exists e, fn j = Throw e /\ type_error e = false.
Proof.
  revert n; induction retries as [|r IH]; intros n; cbn [pRetry_from].
  - destruct (fn n) as [a0|e] eqn:E; split.
    + intros H. exists n. split; [lia|]. split; [congruence|]. intros j Hj; lia.
    + intros (k & Hk & Hf & _). assert (k = n) by lia. subst. congruence.
    + destruct (type_error e); intros H; discriminate H.
    + intros (k & Hk & Hf & _). assert (k = n) by lia. subst. congruence.
  - destruct (fn n) as [a0|e] eqn:E; split.
    + intros H. exists n. split; [lia|]. split; [congruence|]. intros j Hj; lia.
    + intros (k & Hk & Hf & Hj).
      destruct (Nat.eq_dec k n) as [->|Hne]; [congruence|].
      destruct (Hj n) as [e [He _]]; [lia|]. congruence.
    + destruct (type_error e) eqn:Et; [intros H; discriminate H|].
      intros H. apply IH in H as (k & Hk & Hf & Hj). exists k.
      split; [lia|]. split; [exact Hf|]. intros j Hjk.
      destruct (Nat.eq_dec j n) as [->|Hne]; [now exists e|].
      apply Hj. lia.
    + intros (k & Hk & Hf & Hj).
      assert (k <> n) by (intros ->; congruence).
      destruct (Hj n) as [e' [He' Et]]; [lia|].
      assert (e' = e) by congruence. subst e'. rewrite Et.
      apply IH. exists k.
      split; [lia|]. split; [exact Hf|]. intros j Hjk. apply Hj. lia.
Qed.

(** [pRetry] rejects with the error of an attempt made after retried
    failures: a [TypeError], or the error of the last attempt allowed. *)
Lemma pRetry_from_throw_iff {A} (fn : nat -> Exc A) (retries n : nat)
      (e : exn) :
  pRetry_from fn n retries = Throw e <->
  exists k, n <= k <= n + retries /\ fn k = Throw e
            /\ (forall j, n <= j < k ->
                          exists e', fn j = Throw e' /\ type_error e' = false)
            /\ (type_error e = true \/ k = n + retries).
Proof.
  revert n; induction retries as [|r IH]; intros n; cbn [pRetry_from].
  - destruct (fn n) as [a0|e0] eqn:E; split.
    + intros H; discriminate H.
    + intros (k & Hk & Hf & _). assert (k = n) by lia. subst. congruence.
    + intros H. assert (e0 = e) by (destruct (type_error e0); congruence).
      subst e0. exists n. split; [lia|]. split; [exact E|].
      split; [intros j Hj; lia|]. right. lia.
    + intros (k & Hk & Hf & _). assert (k = n) by lia. subst.
      assert (e0 = e) by congruence. subst e0.
      destruct (type_error e); reflexivity.
  - destruct (fn n) as [a0|e0] eqn:E; split.
    + intros H; discriminate H.
    + intros (k & Hk & Hf & Hj & _).
      destruct (Nat.eq_dec k n) as [->|Hne]; [congruence|].
      destruct (Hj n) as [e' [He' _]]; [lia|]. congruence.
    + destruct (type_error e0) eqn:Et.
      * intros H. assert (e0 = e) by congruence. subst e0.
        exists n. split; [lia|]. split; [exact E|].
        split; [intros j Hj; lia|]. now left.
      * intros H. apply IH in H as (k & Hk & Hf & Hj & Hl). exists k.
        split; [lia|]. split; [exact Hf|]. split.
        { intros j Hjk.
          destruct (Nat.eq_dec j n) as [->|Hne]; [now exists e0|].
          apply Hj. lia. }
        destruct Hl as [Hl|Hl]; [now left|right; lia].
    + intros (k & Hk & Hf & Hj & Hl).
      destruct (Nat.eq_dec k n) as [->|Hne].
      * assert (e0 = e) by congruence. subst e0.
        destruct Hl as [Hl|Hl]; [now rewrite Hl|lia].
      * destruct (Hj n) as [e' [He' Et]]; [lia|].
        assert (e' = e0) by congruence. subst e'. rewrite Et.
        apply IH. exists k. split; [lia|]. split; [exact Hf|]. split.
        { intros j Hjk. apply Hj. lia. }
        destruct Hl as [Hl|Hl]; [now left|right; lia].
Qed.

(** A result of [pRetry] is the result of one of the attempts made. *)
Lemma pRetry_from_ok {A} (fn : nat -> Exc A) (retries n : nat) (a : A) :
  pRetry_from fn n retries = Ok a ->
  exists k, n <= k <= n + retries /\ fn k = Ok a.
Proof.
  intros H. apply pRetry_from_ok_iff in H as (k & Hk & Hf & _).
  exists k. split; assumption.
Qed.

(** [pRetry] returns the result of the first attempt when it succeeds. *)
Lemma pRetry_first {A} (fn : nat -> Exc A) (retries : nat) (a : A) :
  fn 1 = Ok a -> pRetry fn retries = Ok a.
Proof.
  intros H. unfold pRetry. destruct retries; simpl; now rewrite H.
Qed.

Section WithService.

Variable chat_completion : jsstring -> nat -> Exc (option jsstring).
Variable JSON_parse : jsstring -> Exc Reported.

Lemma classify_attempt_answer (email : EmailData) (categories : list Category)
      (n : nat) (content : jsstring) (m : Reported) :
  chat_completion (classify_prompt email categories) n = Ok (Some content) ->
  truthy content = true ->
  JSON_parse content = Ok m ->
  classify_attempt chat_completion JSON_parse email categories n
  = Ok (gated m).
Proof.
  intros Hc Ht Hp. unfold classify_attempt. rewrite Hc. cbn [bind].
  rewrite Ht, Hp. cbn [bind]. unfold gated, threshold, parsed.
  cbn [confidence reasoning categoryId].
  destruct (SFltb (to_double (r_confidence m)) (to_double (7 # 10)));
    reflexivity.
Qed.

Lemma classify_attempt_ok (email : EmailData) (categories : list Category)
      (n : nat) (r : ClassificationResult) :
  classify_attempt chat_completion JSON_parse email categories n = Ok r ->
  exists content m,
    chat_completion (classify_prompt email categories) n = Ok (Some content)
    /\ truthy content = true
    /\ JSON_parse content = Ok m
    /\ r = gated m.
Proof.
  intros Hf. unfold classify_attempt in Hf.
  destruct (chat_completion (classify_prompt email categories) n)
    as [[content|]|e] eqn:Ec; cbn [bind] in Hf; try discriminate.
  destruct (truthy content) eqn:Et; [|discriminate].
  destruct (JSON_parse content) as [m|e] eqn:Ep; cbn [bind] in Hf;
    [|discriminate].
  exists content, m. split; [reflexivity|]. split; [exact Et|].
  split; [exact Ep|].
  unfold gated. unfold threshold, parsed in Hf.
  cbn [confidence reasoning categoryId] in Hf.
  destruct (SFltb (to_double (r_confidence m)) (to_double (7 # 10)));
    injection Hf as <-; reflexivity.
Qed.

(** C2. The numbers compared are doubles: the one [JSON.parse] makes of the
    confidence the answer states, and the double [0.7].  Every result of
    [classifyEmail] comes from an answer of the model parsed in one of the
    at most four attempts; it keeps the answer's confidence and reasoning,
    has a null category when that confidence is below [0.7], and the
    answer's category otherwise.  And an answer that parses yields such a
    result: [classifyEmail] returns what the attempt makes of it when the
    attempts before it failed with errors that are retried. *)
Theorem confidence_gate (email : EmailData) (categories : list Category) :
  (forall r : ClassificationResult,
      classifyEmail chat_completion JSON_parse email categories = Ok r ->
      exists n content m,
        1 <= n <= 4
        /\ chat_completion (classify_prompt email categories) n
           = Ok (Some content)
        /\ JSON_parse content = Ok m
        /\ confidence r = to_double (r_confidence m)
        /\ reasoning r = r_reasoning m
        /\ (SFltb (to_double (r_confidence m)) (to_double (7 # 10)) = true ->
            categoryId r = None)
        /\ (SFltb (to_double (r_confidence m)) (to_double (7 # 10)) = false ->
            categoryId r = r_categoryId m))
  /\ (forall (n : nat) (content : jsstring) (m : Reported),
         1 <= n <= 4 ->
         (forall j, 1 <= j < n ->
                    exists e,
                      classify_attempt chat_completion JSON_parse email
                                       categories j = Throw e
                      /\ type_error e = false) ->
         chat_completion (classify_prompt email categories) n
         = Ok (Some content) ->
         truthy content = true ->
         JSON_parse content = Ok m ->
         classifyEmail chat_completion JSON_parse email categories
         = Ok {| categoryId :=
                   if SFltb (to_double (r_confidence m)) (to_double (7 # 10))
                   then None else r_categoryId m;
                 confidence := to_double (r_confidence m);
                 reasoning := r_reasoning m |}).
Proof.
  split.
  - intros r H. apply pRetry_from_ok in H as [n [Hn Hf]].
    apply classify_attempt_ok in Hf as (content & m & Hc & Ht & Hp & ->).
    exists n, content, m. split; [lia|]. split; [exact Hc|].
    split; [exact Hp|]. unfold gated. cbn [confidence reasoning categoryId].
    split; [reflexivity|]. split; [reflexivity|].
    split; intros ->; reflexivity.
  - intros n content m Hn Hj Hc Ht Hp.
    unfold classifyEmail, pRetry. apply pRetry_from_ok_iff.
    exists n. split; [lia|]. split; [|exact Hj].
    exact (classify_attempt_answer email categories n content m Hc Ht Hp).
Qed.

End WithService.

Import Fixtures.

(** The doubles of the fixtures: [0.7] is 6305039478318694 / 2^53, and the
    numeral 0.69999999999999999 is read as the same double. *)
Example double_of_threshold :
  threshold = S754_finite false 6305039478318694 (-53)
  /\ to_double just_below = threshold
  /\ to_double (6999999999999999 # 10000000000000000)
     = S754_finite false 6305039478318693 (-53)
  /\ to_double (65 # 100) = S754_finite false 5854679515581645 (-53)
  /\ to_double (71 # 100) = S754_finite false 6395111470866104 (-53).
Proof. vm_compute. repeat split; reflexivity. Qed.

(** Confidence 0.65 with a proposed category: the category is null. *)
Example gate_closed :
  classifyEmail (answers "low") parse mail cats
  = Ok {| categoryId := None; confidence := to_double (65 # 100);
          reasoning := lit "looks like a newsletter" |}.
Proof. vm_compute. reflexivity. Qed.

(** Confidence 0.71: the proposed category is returned. *)
Example gate_open :
  classifyEmail (answers "high") parse mail cats = Ok (proposal (71 # 100)%Q).
Proof. vm_compute. reflexivity. Qed.

(** Confidence 0.7 itself: the proposed category is returned. *)
Example gate_open_at_threshold :
  classifyEmail (answers "exact") parse mail cats = Ok (proposal (7 # 10)%Q).
Proof. vm_compute. reflexivity. Qed.

(** C2 as stated fails when the confidence is taken as the answer states it:
    an answer stating 0.69999999999999999, strictly below 0.7, for a
    proposed category comes back with that category. *)
Lemma stated_below_threshold_keeps_category :
  ~ (forall (chat_completion : jsstring -> nat -> Exc (option jsstring))
            (JSON_parse : jsstring -> Exc Reported)
            (email : EmailData) (categories : list Category)
            (content : jsstring) (m : Reported) (r : ClassificationResult),
        chat_completion (classify_prompt email categories) 1
        = Ok (Some content) ->
        JSON_parse content = Ok m ->
        classifyEmail chat_completion JSON_parse email categories = Ok r ->
        (r_confidence m < 7 # 10)%Q ->
        categoryId r = None).
Proof.
  intros H.
  specialize (H (answers "edge") parse mail cats (lit "edge")
                (reported just_below) (proposal just_below)
                eq_refl eq_refl).
  assert (Hr : classifyEmail (answers "edge") parse mail cats
               = Ok (proposal just_below)) by (vm_compute; reflexivity).
  assert (Hlt : (r_confidence (reported just_below) < 7 # 10)%Q)
    by (vm_compute; reflexivity).
  specialize (H Hr Hlt). discriminate H.
Qed.

Lemma confidence_gate_witness :
  (exists n content m,
      1 <= n <= 4
      /\ answers "low" (classify_prompt mail cats) n = Ok (Some content)
      /\ parse content = Ok m
      /\ to_double (65 # 100) = to_double (r_confidence m)
      /\ lit "looks like a newsletter" = r_reasoning m
      /\ (SFltb (to_double (r_confidence m)) (to_double (7 # 10)) = true ->
          @None jsstring = None)
      /\ (SFltb (to_double (r_confidence m)) (to_double (7 # 10)) = false ->
          None = r_categoryId m))
  /\ classifyEmail (answers "low") parse mail cats
     = Ok {| categoryId := None; confidence := to_double (65 # 100);
             reasoning := lit "looks like a newsletter" |}
  /\ classifyEmail (answers "high") parse mail cats
     = Ok {| categoryId := Some (lit "cat-newsletters");
             confidence := to_double (71 # 100);
             reasoning := lit "looks like a newsletter" |}.
Proof.
  assert (Hlow : classifyEmail (answers "low") parse mail cats
                 = Ok {| categoryId := None;
                         confidence := to_double (65 # 100);
                         reasoning := lit "looks like a newsletter" |})
    by (vm_compute; reflexivity).
  assert (Hfirst : forall j, 1 <= j < 1 ->
            exists e, classify_attempt (answers "low") parse mail cats j
                      = Throw e /\ type_error e = false)
    by (intros j Hj; lia).
  assert (Hfirst' : forall j, 1 <= j < 1 ->
            exists e, classify_attempt (answers "high") parse mail cats j
                      = Throw e /\ type_error e = false)
    by (intros j Hj; lia).
  assert (H1 : 1 <= 1 <= 4) by lia.
  split; [|split].
  - exact (proj1 (confidence_gate (answers "low") parse mail cats) _ Hlow).
  - exact (proj2 (confidence_gate (answers "low") parse mail cats)
                 1 (lit "low") (reported (65 # 100)) H1 Hfirst
                 eq_refl eq_refl eq_refl).
  - exact (proj2 (confidence_gate (answers "high") parse mail cats)
                 1 (lit "high") (reported (71 # 100)) H1 Hfirst'
                 eq_refl eq_refl eq_refl).
Defined.

End ClassifierProofs.

(** ** Buffers: transcoding round trips *)

Module BufferProofs.

Ltac div_lia := zify; Z.to_euclidean_division_equations; lia.

Lemma byte_of_to_N (b : byte) : byte_of (Byte.to_N b) = b.
Proof. unfold byte_of. now rewrite Byte.of_to_N. Qed.

Lemma to_N_byte_of (n : N) : (n < 256)%N -> Byte.to_N (byte_of n) = n.
Proof.
  intros H. unfold byte_of. destruct (Byte.of_N n) eqn:E.
  - now apply Byte.to_of_N.
  - apply Byte.of_N_None_iff in E. lia.
Qed.

Lemma in_range_of (lo hi n : N) :
  (n < 256)%N -> (lo <= n <= hi)%N -> in_range lo hi (byte_of n) = true.
Proof.
  intros Hn H. unfold in_range. rewrite to_N_byte_of by assumption.
  apply andb_true_iff. split; apply N.leb_le; lia.
Qed.

Lemma not_in_range (lo hi : N) (b : byte) :
  (Byte.to_N b < lo \/ hi < Byte.to_N b)%N -> in_range lo hi b = false.
Proof.
  intros H. unfold in_range. apply andb_false_iff.
  destruct H; [left; apply N.leb_gt | right; apply N.leb_gt]; lia.
Qed.

Lemma in_range_bounds (lo hi : N) (b : byte) :
  in_range lo hi b = true -> (lo <= Byte.to_N b <= hi)%N.
Proof.
  unfold in_range. intros H. apply andb_true_iff in H as [H1 H2].
  apply N.leb_le in H1, H2. lia.
Qed.

Lemma decode_step1 (b0 : byte) (r : bytes) :
  (Byte.to_N b0 < 128)%N ->
  utf8_decode (b0 :: r) = Byte.to_N b0 :: utf8_decode r.
Proof.
  intros H. cbn [utf8_decode].
  now rewrite (proj2 (N.ltb_lt _ _) H).
Qed.

Lemma decode_step2 (b0 b1 : byte) (r : bytes) :
  in_range 194 223 b0 = true -> in_range 128 191 b1 = true ->
  utf8_decode (b0 :: b1 :: r)
  = ((Byte.to_N b0 - 192) * 64 + (Byte.to_N b1 - 128))%N :: utf8_decode r.
Proof.
  intros H0 H1. pose proof (in_range_bounds _ _ _ H0) as B0.
  cbn [utf8_decode].
  rewrite (proj2 (N.ltb_ge _ _)) by lia. now rewrite H0, H1.
Qed.

Lemma decode_step3 (b0 b1 b2 : byte) (r : bytes) :
  in_range 224 239 b0 = true ->
  in_range (second_lo b0) (second_hi b0) b1 = true ->
  in_range 128 191 b2 = true ->
  utf8_decode (b0 :: b1 :: b2 :: r)
  = ((Byte.to_N b0 - 224) * 4096 + (Byte.to_N b1 - 128) * 64
     + (Byte.to_N b2 - 128))%N :: utf8_decode r.
Proof.
  intros H0 H1 H2. pose proof (in_range_bounds _ _ _ H0) as B0.
  cbn [utf8_decode].
  rewrite (proj2 (N.ltb_ge _ _)) by lia.
  rewrite (not_in_range 194 223 b0) by lia.
  now rewrite H0, H1, H2.
Qed.

Lemma decode_step4 (b0 b1 b2 b3 : byte) (r : bytes) :
  in_range 240 244 b0 = true ->
  in_range (second_lo b0) (second_hi b0) b1 = true ->
  in_range 128 191 b2 = true ->
  in_range 128 191 b3 = true ->
  utf8_decode (b0 :: b1 :: b2 :: b3 :: r)
  = units_of ((Byte.to_N b0 - 240) * 262144 + (Byte.to_N b1 - 128) * 4096
              + (Byte.to_N b2 - 128) * 64 + (Byte.to_N b3 - 128))%N
    ++ utf8_decode r.
Proof.
  intros H0 H1 H2 H3. pose proof (in_range_bounds _ _ _ H0) as B0.
  cbn [utf8_decode].
  rewrite (proj2 (N.ltb_ge _ _)) by lia.
  rewrite (not_in_range 194 223 b0) by lia.
  rewrite (not_in_range 224 239 b0) by lia.
  now rewrite H0, H1, H2, H3.
Qed.

Lemma second_range_of (n0 n1 : N) :
  (n0 < 256)%N -> (n1 < 256)%N ->
  ((if n0 =? 224 then 160 else if n0 =? 240 then 144 else 128) <= n1
   <= (if n0 =? 237 then 159 else if n0 =? 244 then 143 else 191))%N ->
  in_range (second_lo (byte_of n0)) (second_hi (byte_of n0)) (byte_of n1)
  = true.
Proof.
  intros H0 H1 H. unfold second_lo, second_hi.
  rewrite (to_N_byte_of n0) by assumption.
  apply in_range_of; assumption.
Qed.

Lemma decode_two (c : N) (rest : bytes) :
  (128 <= c < 2048)%N ->
  utf8_decode (byte_of (192 + c / 64) :: byte_of (128 + c mod 64) :: rest)
  = c :: utf8_decode rest.
Proof.
  intros H.
  rewrite decode_step2 by (apply in_range_of; div_lia).
  rewrite !to_N_byte_of by div_lia. f_equal. div_lia.
Qed.

Lemma decode_three (c : N) (rest : bytes) :
  (2048 <= c < 65536)%N -> is_surrogate c = false ->
  utf8_decode (byte_of (224 + c / 4096) :: byte_of (128 + (c / 64) mod 64)
                 :: byte_of (128 + c mod 64) :: rest)
  = c :: utf8_decode rest.
Proof.
  intros H Hs. unfold is_surrogate in Hs.
  assert (Hc : (c < 55296 \/ 57343 < c)%N).
  { destruct (N.leb_spec 55296 c), (N.leb_spec c 57343); simpl in Hs;
      try discriminate; lia. }
  clear Hs.
  rewrite decode_step3.
  - rewrite !to_N_byte_of by div_lia. f_equal. div_lia.
  - apply in_range_of; div_lia.
  - apply second_range_of; try div_lia.
    destruct (N.eqb_spec (224 + c / 4096) 224),
             (N.eqb_spec (224 + c / 4096) 240),
             (N.eqb_spec (224 + c / 4096) 237),
             (N.eqb_spec (224 + c / 4096) 244); div_lia.
  - apply in_range_of; div_lia.
Qed.

Lemma decode_four (c d : N) (rest : bytes) :
  is_high_surrogate c = true -> is_low_surrogate d = true ->
  let cp := (65536 + (c - 55296) * 1024 + (d - 56320))%N in
  utf8_decode (byte_of (240 + cp / 262144)
                 :: byte_of (128 + (cp / 4096) mod 64)
                 :: byte_of (128 + (cp / 64) mod 64)
                 :: byte_of (128 + cp mod 64) :: rest)
  = c :: d :: utf8_decode rest.
Proof.
  intros Hc Hd cp.
  unfold is_high_surrogate in Hc. unfold is_low_surrogate in Hd.
  apply andb_true_iff in Hc as [Hc1 Hc2]. apply andb_true_iff in Hd as [Hd1 Hd2].
  apply N.leb_le in Hc1, Hc2, Hd1, Hd2.
  assert (Hcp : (65536 <= cp <= 1114111)%N) by (unfold cp; lia).
  assert (Hc' : c = (55296 + (cp - 65536) / 1024)%N) by (unfold cp; div_lia).
  assert (Hd' : d = (56320 + (cp - 65536) mod 1024)%N) by (unfold cp; div_lia).
  clearbody cp.
  rewrite decode_step4.
  - rewrite !to_N_byte_of by div_lia.
    replace ((240 + cp / 262144 - 240) * 262144
             + (128 + (cp / 4096) mod 64 - 128) * 4096
             + (128 + (cp / 64) mod 64 - 128) * 64
             + (128 + cp mod 64 - 128))%N with cp by div_lia.
    unfold units_of. rewrite (proj2 (N.ltb_ge _ _)) by lia.
    rewrite <- Hc', <- Hd'. reflexivity.
  - apply in_range_of; div_lia.
  - apply second_range_of; try div_lia.
    destruct (N.eqb_spec (240 + cp / 262144) 224),
             (N.eqb_spec (240 + cp / 262144) 240),
             (N.eqb_spec (240 + cp / 262144) 237),
             (N.eqb_spec (240 + cp / 262144) 244); div_lia.
  - apply in_range_of; div_lia.
  - apply in_range_of; div_lia.
Qed.

Lemma utf8_roundtrip_upto (n : nat) :
  forall s, List.length s <= n -> well_formed s = true ->
            utf8_decode (utf8_encode s) = s.
Proof.
  induction n as [|n IH]; intros s Hlen Hwf.
  - destruct s; [reflexivity | simpl in Hlen; lia].
  - destruct s as [|c t]; [reflexivity|].
    cbn [well_formed] in Hwf. cbn [utf8_encode].
    destruct (N.ltb_spec c 128) as [H1|H1].
    + assert (Hh : is_high_surrogate c = false).
      { unfold is_high_surrogate. apply andb_false_iff. left.
        apply N.leb_gt. lia. }
      rewrite Hh in Hwf. apply andb_true_iff in Hwf as [_ Hwf].
      rewrite decode_step1 by (rewrite to_N_byte_of; lia).
      rewrite to_N_byte_of by lia. f_equal.
      apply IH; [simpl in Hlen; lia | assumption].
    + destruct (N.ltb_spec c 2048) as [H2|H2].
      * assert (Hh : is_high_surrogate c = false).
        { unfold is_high_surrogate. apply andb_false_iff. left.
          apply N.leb_gt. lia. }
        rewrite Hh in Hwf. apply andb_true_iff in Hwf as [_ Hwf].
        rewrite decode_two by lia. f_equal.
        apply IH; [simpl in Hlen; lia | assumption].
      * destruct (is_high_surrogate c) eqn:Hh.
        -- destruct t as [|d t']; [discriminate|].
           apply andb_true_iff in Hwf as [Hd Hwf]. rewrite Hd.
           rewrite (decode_four c d _ Hh Hd). do 2 f_equal.
           apply IH; [simpl in Hlen; lia | assumption].
        -- apply andb_true_iff in Hwf as [Hwf Hwf'].
           apply andb_true_iff in Hwf as [Hl Hc].
           apply negb_true_iff in Hl. rewrite Hl.
           apply N.ltb_lt in Hc.
           rewrite decode_three.
           ++ f_equal. apply IH; [simpl in Hlen; lia | assumption].
           ++ lia.
           ++ unfold is_surrogate.
              unfold is_high_surrogate in Hh. unfold is_low_surrogate in Hl.
              destruct (N.leb_spec 55296 c), (N.leb_spec c 57343),
                (N.leb_spec c 56319), (N.leb_spec 56320 c);
                simpl in *; try reflexivity; try discriminate; lia.
Qed.

Lemma utf8_roundtrip (s : jsstring) :
  well_formed s = true -> utf8_decode (utf8_encode s) = s.
Proof. apply (utf8_roundtrip_upto (List.length s)). lia. Qed.

Import Base64.

Lemma below_64 (P : N -> bool) :
  forallb P (map N.of_nat (List.seq 0 64)) = true ->
  forall n, (n < 64)%N -> P n = true.
Proof.
  intros H n Hn. rewrite forallb_forall in H. apply H.
  apply in_map_iff. exists (N.to_nat n). split; [apply N2Nat.id|].
  apply in_seq. lia.
Qed.

Lemma unbase64_ch (n : N) : (n < 64)%N -> unbase64 (ch n) = Some n.
Proof.
  intros H.
  pose proof (below_64 (fun n => match unbase64 (ch n) with
                                 | Some m => N.eqb m n
                                 | None => false
                                 end) eq_refl n H) as E.
  simpl in E. destruct (unbase64 (ch n)); [|discriminate].
  apply N.eqb_eq in E. now subst.
Qed.

Lemma ch_not_pad (n : N) : (n < 64)%N -> (ch n =? pad)%N = false.
Proof.
  intros H.
  pose proof (below_64 (fun n => negb (ch n =? pad)%N) eq_refl n H) as E.
  simpl in E. now apply negb_true_iff in E.
Qed.

Lemma to_N_lt (b : byte) : (Byte.to_N b < 256)%N.
Proof. pose proof (Byte.to_N_bounded b). lia. Qed.

Lemma sextets_ch (n : N) (rest : jsstring) :
  (n < 64)%N -> sextets (ch n :: rest) = n :: sextets rest.
Proof.
  intros H. cbn [sextets]. now rewrite ch_not_pad, unbase64_ch.
Qed.

Lemma sextets_pad (rest : jsstring) : sextets (pad :: rest) = [].
Proof. reflexivity. Qed.

Lemma list_ind3 {A} (P : list A -> Prop) :
  P [] -> (forall a, P [a]) -> (forall a b, P [a; b]) ->
  (forall a b c t, P t -> P (a :: b :: c :: t)) ->
  forall l, P l.
Proof.
  intros H0 H1 H2 H3.
  fix IH 1. intros [|a [|b [|c t]]].
  - exact H0.
  - apply H1.
  - apply H2.
  - apply H3. apply IH.
Qed.

Lemma byte_of_eq (n : N) (b : byte) : n = Byte.to_N b -> byte_of n = b.
Proof. intros ->. apply byte_of_to_N. Qed.

Lemma base64_decode_encode (bs : bytes) : decode (encode bs) = bs.
Proof.
  unfold decode. induction bs as [|a|a b|a b c t IH] using list_ind3.
  - reflexivity.
  - pose proof (to_N_lt a). cbn [encode].
    rewrite !sextets_ch by div_lia. rewrite sextets_pad. cbn [group].
    f_equal. apply byte_of_eq. div_lia.
  - pose proof (to_N_lt a). pose proof (to_N_lt b). cbn [encode].
    rewrite !sextets_ch by div_lia. rewrite sextets_pad. cbn [group].
    f_equal; [|f_equal]; apply byte_of_eq; div_lia.
  - pose proof (to_N_lt a). pose proof (to_N_lt b). pose proof (to_N_lt c).
    cbn [encode]. rewrite !sextets_ch by div_lia. cbn [group]. rewrite IH.
    f_equal; [|f_equal; [|f_equal]]; apply byte_of_eq; div_lia.
Qed.

End BufferProofs.

(** ** Message normalisation *)

Module NormalizerProofs.

Import Normalizer BufferProofs.

Lemma byteLength_ascii (s : jsstring) :
  Forall (fun c => (c < 128)%N) s -> byteLength s = List.length s.
Proof.
  unfold byteLength. induction 1 as [|c t Hc _ IH]; [reflexivity|].
  cbn [utf8_encode]. rewrite (proj2 (N.ltb_lt _ _) Hc). simpl. now rewrite IH.
Qed.

Section WithRuntime.

Variable decode_base64_utf8 : jsstring -> jsstring.
Variable toLowerCase : jsstring -> jsstring.

Lemma parse_body (message : Message) :
  e_body (parseEmailMessage decode_base64_utf8 toLowerCase message)
  = fst (truncate (getEmailBody decode_base64_utf8 message))
  /\ bodyTruncated (parseEmailMessage decode_base64_utf8 toLowerCase message)
     = snd (truncate (getEmailBody decode_base64_utf8 message)).
Proof.
  unfold parseEmailMessage.
  destruct (truncate (getEmailBody decode_base64_utf8 message)) as [b f].
  destruct (truthy _); [destruct (header_link _)|]; split; reflexivity.
Qed.

(** A body within the cap is stored verbatim, flag clear. *)
Lemma small_body_verbatim (message : Message) :
  byteLength (getEmailBody decode_base64_utf8 message) <= MAX_BODY_SIZE ->
  e_body (parseEmailMessage decode_base64_utf8 toLowerCase message)
  = getEmailBody decode_base64_utf8 message
  /\ bodyTruncated (parseEmailMessage decode_base64_utf8 toLowerCase message)
     = false.
Proof.
  intros H. destruct (parse_body message) as [-> ->]. unfold truncate.
  rewrite (proj2 (Nat.ltb_ge _ _) H). split; reflexivity.
Qed.

(** An ASCII body over the cap is cut to exactly the cap, flag set. *)
Lemma ascii_body_truncated (message : Message) :
  Forall (fun c => (c < 128)%N) (getEmailBody decode_base64_utf8 message) ->
  MAX_BODY_SIZE < byteLength (getEmailBody decode_base64_utf8 message) ->
  byteLength (e_body (parseEmailMessage decode_base64_utf8 toLowerCase
                        message)) = MAX_BODY_SIZE
  /\ bodyTruncated (parseEmailMessage decode_base64_utf8 toLowerCase message)
     = true.
Proof.
  intros Ha H. destruct (parse_body message) as [-> ->]. unfold truncate.
  rewrite (proj2 (Nat.ltb_lt _ _) H). split; [|reflexivity].
  cbn [fst]. unfold substring0.
  rewrite byteLength_ascii.
  - rewrite length_firstn. rewrite byteLength_ascii in H by assumption. lia.
  - rewrite <- (firstn_skipn MAX_BODY_SIZE) in Ha.
    apply Forall_app in Ha. apply Ha.
Qed.

(** The flag is a function of the message. *)
Lemma flag_reproducible (m1 m2 : Message) :
  m1 = m2 ->
  bodyTruncated (parseEmailMessage decode_base64_utf8 toLowerCase m1)
  = bodyTruncated (parseEmailMessage decode_base64_utf8 toLowerCase m2).
Proof. now intros ->. Qed.

End WithRuntime.

Import Fixtures.

(** C3, at an input where the code departs from the claim.  The body is
    20,000 euro signs, 60,000 bytes in UTF-8.  The size test counts bytes, so
    the flag is set; the cut counts code units, so nothing is removed and the
    stored body still has 60,000 bytes, more than the 51,200 of the cap. *)
Theorem truncation_counts_units :
  let body := getEmailBody decode_base64_utf8 (message_with euro_data) in
  let stored := parseEmailMessage decode_base64_utf8 ascii_lower
                  (message_with euro_data) in
  N.of_nat (byteLength body) = 60000%N
  /\ bodyTruncated stored = true
  /\ str_eqb (e_body stored) body = true
  /\ N.of_nat (byteLength (e_body stored)) = 60000%N
  /\ N.of_nat MAX_BODY_SIZE = 51200%N.
Proof. vm_compute. repeat split; reflexivity. Qed.

(** The two sizes the specification names, on ASCII bodies. *)
Example ascii_60000_cut_to_cap :
  let body := getEmailBody decode_base64_utf8
                (message_with (ascii_data (200 * 100))) in
  let stored := parseEmailMessage decode_base64_utf8 ascii_lower
                  (message_with (ascii_data (200 * 100))) in
  N.of_nat (byteLength body) = 60000%N
  /\ N.of_nat (byteLength (e_body stored)) = 51200%N
  /\ bodyTruncated stored = true.
Proof. vm_compute. repeat split; reflexivity. Qed.

Example ascii_1000_verbatim :
  let body := getEmailBody decode_base64_utf8
                (message_with (firstn 1336 (ascii_data 334))) in
  let stored := parseEmailMessage decode_base64_utf8 ascii_lower
                  (message_with (firstn 1336 (ascii_data 334))) in
  N.of_nat (byteLength body) = 1002%N
  /\ str_eqb (e_body stored) body = true
  /\ bodyTruncated stored = false.
Proof. vm_compute. repeat split; reflexivity. Qed.

End NormalizerProofs.

(** ** Credential vault *)

Module VaultProofs.

Import Vault BufferProofs.

Lemma bytes_eqb_eq (a b : bytes) : bytes_eqb a b = true <-> a = b.
Proof.
  revert b; induction a as [|x a IH]; intros [|y b]; simpl; split; intro H;
    try discriminate; try reflexivity.
  - apply andb_true_iff in H as [Hx Hr]. apply Byte.byte_dec_bl in Hx.
    apply IH in Hr. now subst.
  - inversion H; subst. rewrite (Byte.byte_dec_lb (eq_refl _)). simpl.
    now apply IH.
Qed.






Lemma firstn_exact {A} (n : nat) (a b : list A) :
  List.length a = n -> firstn n (a ++ b) = a.
Proof.
  intros <-. now rewrite firstn_app, Nat.sub_diag, firstn_all, firstn_O,
    app_nil_r.
Qed.

Lemma skipn_exact {A} (n : nat) (a b : list A) :
  List.length a = n -> skipn n (a ++ b) = b.
Proof.
  intros <-. now rewrite skipn_app, skipn_all, Nat.sub_diag.
Qed.

(** The four fields of a buffer laid out as the vault lays it out. *)
Lemma fields (salt iv tag encrypted : bytes) :
  List.length salt = 64 -> List.length iv = 16 -> List.length tag = 16 ->
  subarray 0 SALT_LENGTH (salt ++ iv ++ tag ++ encrypted) = salt
  /\ subarray SALT_LENGTH TAG_POSITION (salt ++ iv ++ tag ++ encrypted) = iv
  /\ subarray TAG_POSITION ENCRYPTED_POSITION (salt ++ iv ++ tag ++ encrypted)
     = tag
  /\ subarray_from ENCRYPTED_POSITION (salt ++ iv ++ tag ++ encrypted)
     = encrypted.
Proof.
  intros Hs Hi Ht. unfold subarray, subarray_from.
  change (SALT_LENGTH - 0) with 64.
  change (TAG_POSITION - SALT_LENGTH) with 16.
  change (ENCRYPTED_POSITION - TAG_POSITION) with 16.
  change SALT_LENGTH with 64. change TAG_POSITION with 80.
  change ENCRYPTED_POSITION with 96.
  repeat split.
  - cbn [skipn]. now apply firstn_exact.
  - rewrite (skipn_exact 64) by assumption. now apply firstn_exact.
  - rewrite (app_assoc salt iv).
    rewrite (skipn_exact 80) by (rewrite length_app; lia).
    now apply firstn_exact.
  - rewrite (app_assoc salt iv), (app_assoc (salt ++ iv) tag).
    apply skipn_exact. rewrite !length_app. lia.
Qed.

Lemma randomBytes_length (entropy : nat -> byte) (n drawn : nat) :
  List.length (fst (randomBytes entropy n drawn)) = n.
Proof. unfold randomBytes. simpl. now rewrite length_map, length_seq. Qed.

Section WithCrypto.

Context {C : Crypto} {L : CryptoLaws C}.

Variable key : jsstring.
Hypothesis key_set : truthy key = true.
Variable entropy : nat -> byte.

Lemma encrypt_sealed (text : jsstring) (drawn : nat) :
  encrypt (Some key) entropy text drawn
  = (Ok (to_base64 (sealed entropy key text drawn)), drawn + 64 + 16).
Proof.
  unfold encrypt, getEncryptionKey. rewrite key_set. reflexivity.
Qed.

(** What [decrypt] does with a buffer of the vault's layout. *)
Lemma decrypt_fields (salt iv tag encrypted : bytes) :
  List.length salt = 64 -> List.length iv = 16 -> List.length tag = 16 ->
  decrypt (Some key) (to_base64 (salt ++ iv ++ tag ++ encrypted))
  = if bytes_eqb tag (gcm_tag (pbkdf2Sync (from_base64 key) salt) iv encrypted)
    then Ok (utf8_decode (gcm_ctr (pbkdf2Sync (from_base64 key) salt) iv
                                  encrypted))
    else Throw (wrap "Decryption failed: "
                  (err "Unsupported state or unable to authenticate data")).
Proof.
  intros Hs Hi Ht. unfold decrypt, getEncryptionKey. rewrite key_set.
  cbn [JS.bind]. rewrite base64_roundtrip.
  destruct (fields salt iv tag encrypted Hs Hi Ht) as (-> & -> & -> & ->).
  unfold gcm_decrypt. destruct iv as [|i0 iv']; [discriminate|].
  rewrite Ht. cbn [valid_tag_length existsb Nat.eqb orb].
  rewrite <- (tag_length (pbkdf2Sync (from_base64 key) salt) (i0 :: iv')
                encrypted) at 1.
  rewrite firstn_all.
  destruct (bytes_eqb tag _); reflexivity.
Qed.

Lemma sealed_lengths (text : jsstring) (drawn : nat) :
  List.length (salt_of entropy drawn) = 64
  /\ List.length (iv_of entropy drawn) = 16
  /\ List.length (tag_of entropy key text drawn) = 16.
Proof.
  unfold salt_of, iv_of, tag_of. rewrite !randomBytes_length, tag_length.
  repeat split.
Qed.

(** Whatever the text, [decrypt] gives back the text transcoded to UTF-8 and
    back. *)
Lemma decrypt_encrypt_transcodes (text : jsstring) (drawn : nat) :
  decrypt (Some key) (to_base64 (sealed entropy key text drawn))
  = Ok (utf8_decode (utf8_encode text)).
Proof.
  destruct (sealed_lengths text drawn) as (Hs & Hi & Ht).
  unfold sealed. rewrite decrypt_fields by assumption.
  unfold tag_of at 1.
  replace (pbkdf2Sync (from_base64 key) (salt_of entropy drawn))
    with (key_of entropy key drawn) by reflexivity.
  rewrite (proj2 (bytes_eqb_eq _ _) eq_refl).
  unfold ciphertext_of. now rewrite ctr_involutive.
Qed.



End WithCrypto.

Import Fixtures.

Lemma toy_laws : CryptoLaws toy.
Proof.
  constructor.
  - apply base64_decode_encode.
  - intros k iv p. apply rev_involutive.
  - intros k iv c. reflexivity.
Qed.







Example unicode_roundtrip :
  (out <- fst (encrypt (C := toy) (Some master_key) Fixtures.entropy
                       [20320; 22909; 32; 55356; 57101]%N 7) ;;
   decrypt (C := toy) (Some master_key) out)%js
  = Ok [20320; 22909; 32; 55356; 57101]%N.
Proof. vm_compute. reflexivity. Qed.


End VaultProofs.

(** ** Unsubscribe executor *)

Module ExecutorProofs.

Import Executor Patterns.

Lemma extends_ret {A} (a : A) : extends (ret a).
Proof. intros t. exists []. simpl. now rewrite app_nil_r. Qed.

Lemma extends_throw {A} (e : exn) : extends (@throw A e).
Proof. intros t. exists []. simpl. now rewrite app_nil_r. Qed.

Lemma extends_call {A} (ev : Event) (o : Exc A) : extends (call ev o).
Proof. intros t. now exists [ev]. Qed.

Lemma extends_bind {A B} (m : M A) (k : A -> M B) :
  extends m -> (forall a, extends (k a)) -> extends (mbind m k).
Proof.
  intros Hm Hk t. unfold mbind. destruct (Hm t) as [t1 H1].
  destruct (m t) as [[a|e] t']; simpl in H1; subst t'.
  - destruct (Hk a (t ++ t1)) as [t2 H2]. exists (t1 ++ t2).
    now rewrite H2, app_assoc.
  - now exists t1.
Qed.

Lemma extends_catch {A} (m : M A) (h : exn -> M A) :
  extends m -> (forall e, extends (h e)) -> extends (mcatch m h).
Proof.
  intros Hm Hh t. unfold mcatch. destruct (Hm t) as [t1 H1].
  destruct (m t) as [[a|e] t']; simpl in H1; subst t'.
  - now exists t1.
  - destruct (Hh e (t ++ t1)) as [t2 H2]. exists (t1 ++ t2).
    now rewrite H2, app_assoc.
Qed.

Lemma returns_ret {A} (P : A -> Prop) (a : A) : P a -> returns P (ret a).
Proof. intros H t a' t' E. inversion E; subst. exact H. Qed.

Lemma returns_throw {A} (P : A -> Prop) (e : exn) : returns P (@throw A e).
Proof. intros t a t' E. discriminate E. Qed.

Lemma returns_bind {A B} (P : B -> Prop) (m : M A) (k : A -> M B) :
  (forall a, returns P (k a)) -> returns P (mbind m k).
Proof.
  intros Hk t b t' E. unfold mbind in E.
  destruct (m t) as [[a|e] t1]; [|discriminate]. exact (Hk a _ _ _ E).
Qed.

Lemma returns_catch {A} (P : A -> Prop) (m : M A) (h : exn -> M A) :
  returns P m -> (forall e, returns P (h e)) -> returns P (mcatch m h).
Proof.
  intros Hm Hh t a t' E. unfold mcatch in E.
  destruct (m t) as [[a0|e] t1] eqn:Em.
  - inversion E; subst. exact (Hm _ _ _ Em).
  - exact (Hh e _ _ _ E).
Qed.

Create HintDb exec.
#[local] Hint Resolve extends_ret extends_throw extends_call : exec.
#[local] Hint Resolve returns_ret returns_throw : exec.

Section WithWorld.

Variable world : World.

Lemma extends_closeBrowser : extends (closeBrowser world).
Proof. intros t. now exists [EClose]. Qed.

Lemma extends_saveScreenshot (page : Page) (attemptId suffix : jsstring) :
  extends (saveScreenshot page attemptId suffix).
Proof.
  unfold saveScreenshot. apply extends_bind; auto with exec.
Qed.

Lemma extends_click_first (kind : string) (pattern : re) (els : list Element) :
  extends (click_first kind pattern els).
Proof.
  induction els as [|el rest IH]; cbn [click_first]; auto with exec.
  apply extends_bind; auto with exec. intros [txt|]; [|exact IH].
  destruct (truthy txt && test pattern txt); [|exact IH].
  apply extends_bind; auto with exec.
Qed.

Lemma extends_find_and_click (page : Page) (patterns : list re) :
  extends (find_and_click page patterns).
Proof.
  induction patterns as [|p rest IH]; cbn [find_and_click]; auto with exec.
  apply extends_bind; auto with exec. intros buttons.
  apply extends_bind; [apply extends_click_first|].
  intros [c|]; auto with exec.
  apply extends_bind; auto with exec. intros links.
  apply extends_bind; [apply extends_click_first|].
  intros [c|]; auto with exec.
Qed.

Lemma extends_simple_try (page : Page) (url attemptId : jsstring) :
  extends (simple_try world page url attemptId).
Proof.
  unfold simple_try. apply extends_bind; auto with exec.
  intros [st|]; auto with exec.
  destruct (negb (ok_status st)); auto with exec.
  apply extends_bind; [apply extends_saveScreenshot|]. intros beforePath.
  apply extends_bind; auto with exec. intros pageContent.
  destruct (some_test ERROR_PATTERNS pageContent).
  - apply extends_bind; [apply extends_closeBrowser | auto with exec].
  - apply extends_bind; [apply extends_find_and_click|].
    intros [clicked|].
    + apply extends_bind; auto with exec. intros _.
      apply extends_bind; [apply extends_saveScreenshot|]. intros afterPath.
      apply extends_bind; auto with exec. intros afterContent.
      apply extends_bind; [apply extends_closeBrowser|]. intros _.
      destruct (some_test SUCCESS_PATTERNS afterContent); auto with exec.
    + apply extends_bind; [apply extends_saveScreenshot|]. intros afterPath.
      apply extends_bind; [apply extends_closeBrowser | auto with exec].
Qed.

Lemma extends_simple_catch (page : option Page) (attemptId : jsstring)
      (e : exn) :
  extends (simple_catch world page attemptId e).
Proof.
  unfold simple_catch. apply extends_bind.
  - destruct page as [pg|]; auto with exec.
    apply extends_catch; auto with exec.
    apply extends_bind; [apply extends_saveScreenshot | auto with exec].
  - intros p. apply extends_bind; [apply extends_closeBrowser | auto with exec].
Qed.

(** Tier 2 starts by launching the browser. *)
Lemma tier2_launches (url attemptId : jsstring) (t : list Event) :
  exists t', snd (executeSimpleUnsubscribe world url attemptId t)
             = t ++ ELaunch :: t'.
Proof.
  unfold executeSimpleUnsubscribe, mbind, call.
  destruct (launch world) as [[]|e].
  - destruct (newPage world) as [page|e].
    + destruct (extends_catch _ _ (extends_simple_try page url attemptId)
                  (extends_simple_catch (Some page) attemptId)
                  ((t ++ [ELaunch]) ++ [ENewPage])) as [t' H].
      exists (ENewPage :: t'). rewrite H. now rewrite <- !app_assoc.
    + destruct (extends_simple_catch None attemptId e
                  ((t ++ [ELaunch]) ++ [ENewPage])) as [t' H].
      exists (ENewPage :: t'). rewrite H. now rewrite <- !app_assoc.
  - now exists [].
Qed.

Lemma returns_simple_try (page : Page) (url attemptId : jsstring) :
  returns tier2_shaped (simple_try world page url attemptId).
Proof.
  unfold simple_try. apply returns_bind. intros [st|]; auto with exec.
  destruct (negb (ok_status st)); auto with exec.
  apply returns_bind; intros beforePath.
  apply returns_bind; intros pageContent.
  destruct (some_test ERROR_PATTERNS pageContent).
  - apply returns_bind; intros _. apply returns_ret.
    repeat split; simpl; lia.
  - apply returns_bind; intros [clicked|].
    + apply returns_bind; intros _. apply returns_bind; intros afterPath.
      apply returns_bind; intros afterContent.
      apply returns_bind; intros _.
      destruct (some_test SUCCESS_PATTERNS afterContent);
        apply returns_ret; repeat split; simpl; lia.
    + apply returns_bind; intros afterPath. apply returns_bind; intros _.
      apply returns_ret. repeat split; simpl; lia.
Qed.

Lemma returns_simple_catch (page : option Page) (attemptId : jsstring)
      (e : exn) :
  returns tier2_shaped (simple_catch world page attemptId e).
Proof.
  unfold simple_catch. apply returns_bind; intros path.
  apply returns_bind; intros _. apply returns_ret.
  split; [reflexivity|]. split; [reflexivity|].
  unfold artifacts. simpl. destruct path as [p|]; [|simpl; lia].
  destruct (truthy p); simpl; lia.
Qed.

Lemma returns_tier2 (url attemptId : jsstring) :
  returns tier2_shaped (executeSimpleUnsubscribe world url attemptId).
Proof.
  unfold executeSimpleUnsubscribe. apply returns_bind; intros _.
  intros t a t' E. unfold call in E.
  destruct (newPage world) as [page|e].
  - revert E. apply returns_catch;
      [apply returns_simple_try | apply returns_simple_catch].
  - revert E. apply returns_simple_catch.
Qed.

Lemma returns_tier1 (url : jsstring) :
  returns tier1_shaped (executeHeaderUnsubscribe world url).
Proof.
  unfold executeHeaderUnsubscribe. apply returns_catch.
  - destruct (startsWith (lit "mailto:") url).
    + apply returns_ret. repeat split; simpl; lia.
    + apply returns_bind; intros response.
      destruct (negb (ok_status (status response))).
      * apply returns_ret. repeat split; simpl; lia.
      * apply returns_bind; intros body.
        destruct (some_test SUCCESS_PATTERNS body);
          apply returns_ret; repeat split; simpl; lia.
  - intros e. apply returns_ret. repeat split; simpl; lia.
Qed.

(** Tier 1 on a 2xx answer without a confirmation phrase. *)
Lemma tier1_inconclusive (url : jsstring) (response : Response)
      (body : jsstring) (t : list Event) :
  startsWith (lit "mailto:") url = false ->
  fetch world url = Ok response ->
  ok_status (status response) = true ->
  text response = Ok body ->
  some_test SUCCESS_PATTERNS body = false ->
  exists r,
    executeHeaderUnsubscribe world url t = (Ok r, t ++ [EFetch url])
    /\ success r = false.
Proof.
  intros Hm Hf Hok Ht Hs. unfold executeHeaderUnsubscribe, mcatch, mbind, call.
  rewrite Hm, Hf, Hok. cbn [negb]. rewrite Ht, Hs. cbn [ret].
  eexists. split; reflexivity.
Qed.

(** C1. When the GET of Tier 1 returns a 2xx response whose body matches
    no success pattern, the executor goes on to Tier 2: the browser is
    launched right after the GET, the outcome is the one of Tier 2 (as a
    result, or as the fault of a browser that cannot be started or closed),
    and no result is returned with method [header]. *)
Theorem inconclusive_escalates (url attemptId : jsstring) (response : Response)
        (body : jsstring) (t : list Event) :
  startsWith (lit "mailto:") url = false ->
  fetch world url = Ok response ->
  ok_status (status response) = true ->
  text response = Ok body ->
  some_test SUCCESS_PATTERNS body = false ->
  let tier2 := executeSimpleUnsubscribe world url attemptId
                 (t ++ [EFetch url]) in
  unsubscribeEmail world url attemptId t
  = (match fst tier2 with
     | Ok tier2Result => Ok (after_tier2 tier2Result)
     | Throw e => Throw e
     end, snd tier2)
  /\ (exists t', snd (unsubscribeEmail world url attemptId t)
                 = t ++ EFetch url :: ELaunch :: t')
  /\ (forall r, fst (unsubscribeEmail world url attemptId t) = Ok r ->
                method r = simple_click).
Proof.
  intros Hm Hf Hok Ht Hs tier2.
  destruct (tier1_inconclusive url response body t Hm Hf Hok Ht Hs)
    as (r1 & E1 & Hr1).
  assert (E : unsubscribeEmail world url attemptId t
              = (match fst tier2 with
                 | Ok tier2Result => Ok (after_tier2 tier2Result)
                 | Throw e => Throw e
                 end, snd tier2)).
  { unfold unsubscribeEmail, mbind at 1. rewrite E1, Hr1.
    unfold mbind. fold tier2. destruct tier2 as [[r2|e] t2]; [|reflexivity].
    unfold after_tier2. cbn [fst snd]. destruct (success r2); reflexivity. }
  split; [exact E|]. rewrite E. cbn [fst snd]. split.
  - destruct (tier2_launches url attemptId (t ++ [EFetch url])) as [t' H].
    exists t'. unfold tier2. rewrite H. now rewrite <- app_assoc.
  - intros r Hr. unfold tier2 in Hr.
    destruct (executeSimpleUnsubscribe world url attemptId (t ++ [EFetch url]))
      as [[r2|e] t2] eqn:E2; [|discriminate].
    cbn [fst] in Hr. inversion Hr; subst r.
    destruct (returns_tier2 url attemptId _ _ _ E2) as (Hmeth & _).
    unfold after_tier2. destruct (success r2); assumption.
Qed.

Lemma returns_unsubscribeEmail (url attemptId : jsstring) :
  returns (fun r => tier1_shaped r \/ tier2_shaped r)
          (unsubscribeEmail world url attemptId).
Proof.
  unfold unsubscribeEmail. intros t r t' E. unfold mbind at 1 in E.
  destruct (executeHeaderUnsubscribe world url t) as [[r1|e] t1] eqn:E1;
    [|discriminate].
  pose proof (returns_tier1 url _ _ _ E1) as H1.
  destruct (success r1).
  - unfold ret in E. injection E as <- _. now left.
  - unfold mbind in E.
    destruct (executeSimpleUnsubscribe world url attemptId t1)
      as [[r2|e] t2] eqn:E2; [|discriminate].
    pose proof (returns_tier2 url attemptId _ _ _ E2) as H2.
    right. destruct (success r2); unfold ret in E; injection E as <- _.
    + exact H2.
    + destruct H2 as (Hm & Hmsg & Ha).
      split; [exact Hm|]. split; [reflexivity | exact Ha].
Qed.

(** C9, as the code has it.  Every result of [unsubscribeEmail] carries a
    success flag, a non-empty message, at most two artifact references, and
    a method that is [header] or [simple-click]. *)
Theorem result_record (url attemptId : jsstring) (t : list Event)
        (r : UnsubscribeResult) :
  fst (unsubscribeEmail world url attemptId t) = Ok r ->
  In (method_name (method r)) [lit "header"; lit "simple-click"]
  /\ truthy (message r) = true
  /\ List.length (artifacts r) <= 2
  /\ (success r = true \/ success r = false).
Proof.
  intros H.
  destruct (unsubscribeEmail world url attemptId t) as [o t'] eqn:E.
  cbn [fst] in H. subst o.
  destruct (returns_unsubscribeEmail url attemptId _ _ _ E)
    as [(Hm & Hmsg & Ha)|(Hm & Hmsg & Ha)]; rewrite Hm;
    (split; [simpl; auto|]); (split; [assumption|]); (split; [assumption|]);
    destruct (success r); auto.
Qed.

End WithWorld.

Import Fixtures.

(** A run on the fixture site: Tier 1 is inconclusive, Tier 2 clicks the
    button and finds the confirmation. *)
Example escalation_run :
  unsubscribeEmail site unsubscribe_url attempt_id []
  = (Ok {| success := true; method := simple_click;
           message := lit "Successfully unsubscribed by clicking button: "
                      ++ [34%N] ++ lit "Unsubscribe" ++ [34%N];
           screenshotPaths :=
             Some {| before := Some (lit "/unsubscribe-logs/attempt-7/before-1700000000000.png");
                     after := Some (lit "/unsubscribe-logs/attempt-7/after-1700000000000.png") |};
           error := None |},
     [EFetch unsubscribe_url; ELaunch; ENewPage; EGoto unsubscribe_url;
      EScreenshot (lit "before"); EContent; ELocator (lit "button");
      ETextContent; EClick; EWait 3000; EScreenshot (lit "after"); EContent;
      EClose]).
Proof. vm_compute. reflexivity. Qed.

Lemma inconclusive_escalates_witness :
  (exists t', snd (unsubscribeEmail site unsubscribe_url attempt_id [])
              = [] ++ EFetch unsubscribe_url :: ELaunch :: t')
  /\ (forall r, fst (unsubscribeEmail site unsubscribe_url attempt_id []) = Ok r ->
                method r = simple_click).
Proof.
  apply (inconclusive_escalates site unsubscribe_url attempt_id
           {| status := 200; statusText := lit "OK";
              text := Ok (lit "<p>Click the button to leave the list.</p>") |}
           (lit "<p>Click the button to leave the list.</p>") []);
    vm_compute; reflexivity.
Defined.

(** C9 as stated fails: the method of a Tier 2 result is written
    [simple-click], which is not among [header], [tier2-click], [manual]. *)
Lemma method_outside_stated_set :
  exists r,
    fst (unsubscribeEmail site unsubscribe_url attempt_id []) = Ok r
    /\ method_name (method r) = lit "simple-click"
    /\ ~ In (method_name (method r))
            [lit "header"; lit "tier2-click"; lit "manual"].
Proof.
  eexists. split; [vm_compute; reflexivity|]. split; [reflexivity|].
  vm_compute. intros [H|[H|[H|[]]]]; discriminate H.
Qed.

Lemma result_record_witness :
  In (method_name simple_click) [lit "header"; lit "simple-click"]
  /\ List.length
       (artifacts
          {| success := true; method := simple_click;
             message := lit "Successfully unsubscribed by clicking button: "
                        ++ [34%N] ++ lit "Unsubscribe" ++ [34%N];
             screenshotPaths :=
               Some {| before := Some (lit "/unsubscribe-logs/attempt-7/before-1700000000000.png");
                       after := Some (lit "/unsubscribe-logs/attempt-7/after-1700000000000.png") |};
             error := None |}) <= 2.
Proof.
  destruct (result_record site unsubscribe_url attempt_id []
              {| success := true; method := simple_click;
                 message := lit "Successfully unsubscribed by clicking button: "
                            ++ [34%N] ++ lit "Unsubscribe" ++ [34%N];
                 screenshotPaths :=
                   Some {| before := Some (lit "/unsubscribe-logs/attempt-7/before-1700000000000.png");
                           after := Some (lit "/unsubscribe-logs/attempt-7/after-1700000000000.png") |};
                 error := None |})
    as (Hm & _ & Ha & _).
  - vm_compute. reflexivity.
  - split; [exact Hm | exact Ha].
Defined.

End ExecutorProofs.

(** ** Sync coordinator *)

Module SyncProofs.

Import Normalizer Sync.

Lemma findUnique_None (d : Table) (gid : jsstring) :
  findUnique d gid = None <-> ~ In gid (ids d).
Proof.
  unfold findUnique, ids. induction d as [|r d IH]; simpl.
  - split; auto.
  - destruct (str_eqb (r_gmailId r) gid) eqn:E.
    + apply str_eqb_eq in E. split; [discriminate|]. intros H. exfalso.
      apply H. now left.
    + rewrite IH. split.
      * intros H [H'|H']; [|contradiction].
        subst gid. now rewrite str_eqb_refl in E.
      * intros H H'. apply H. now right.
Qed.

Lemma create_ok (d d' : Table) (row : Row) :
  create d row = Ok d' ->
  d' = d ++ [row] /\ findUnique d (r_gmailId row) = None.
Proof.
  unfold create. destruct (findUnique d (r_gmailId row)); [discriminate|].
  intros H. inversion H. auto.
Qed.

Lemma create_throws (d : Table) (row : Row) (e : exn) :
  create d row = Throw e -> e = P2002.
Proof.
  unfold create. destruct (findUnique d (r_gmailId row)); [|discriminate].
  intros H. now inversion H.
Qed.

Lemma create_unique (d d' : Table) (row : Row) :
  create d row = Ok d' -> NoDup (ids d) -> NoDup (ids d').
Proof.
  intros H Hn. apply create_ok in H as [-> Hf]. unfold ids.
  rewrite map_app. simpl. apply NoDup_app.
  - assumption.
  - constructor; [simpl; tauto | constructor].
  - intros x Hx [<-|[]]. now apply findUnique_None in Hf.
Qed.

Lemma commit_unique (rows : list Row) (d : Table) :
  NoDup (ids d) -> NoDup (ids (commit d rows)).
Proof.
  unfold commit. revert d. induction rows as [|r rows IH]; intros d Hn;
    [exact Hn|].
  simpl. apply IH. destruct (create d r) as [d'|err] eqn:E; [|exact Hn].
  now apply (create_unique d d' r).
Qed.

Section WithWorld.

Variable world : World.
Variable account : Account.
Variable categories : list Classifier.Category.

Lemma with_body_link_id (e : Email) (info : Detector.UnsubscribeInfo) :
  gmailId (with_body_link e info) = gmailId e
  /\ email_data (with_body_link e info) = email_data e.
Proof.
  unfold with_body_link. destruct (Detector.method info); auto.
  destruct (Detector.url info) as [u|]; auto. destruct (truthy u); auto.
Qed.

(** The detector never makes the iteration throw. *)
Lemma detector_returns (e : Email) :
  exists info,
    Detector.extractUnsubscribeInfo (toLowerCase world) (cheerio_links world)
      (e_body e)
      {| Detector.listUnsubscribe := Some (headers_listUnsubscribe e) |}
    = Ok info.
Proof.
  destruct (DetectorProofs.extractUnsubscribeInfo_returns (toLowerCase world)
              (cheerio_links world) (e_body e)
              {| Detector.listUnsubscribe := Some (headers_listUnsubscribe e) |})
    as [r [Hr _]].
  now exists r.
Qed.

(** The logged lines of the AI step are AI errors, and it leaves the table,
    the ingestion counter and the archive calls alone. *)
Lemma ai_step_frame (e : Email) (st : St) :
  let '(summary, categoryId, st1) := ai_step world categories e st in
  db st1 = db st
  /\ accountNewEmails st1 = accountNewEmails st
  /\ archive_calls st1 = archive_calls st
  /\ exists lines, console_error st1 = console_error st ++ lines
                    /\ forallb is_ai_error lines = true.
Proof.
  unfold ai_step.
  destruct (Classifier.summarizeEmail _ _) as [s|err]; simpl.
  - destruct (Classifier.classifyEmail _ _ _ _) as [c|err]; simpl;
      repeat split; auto.
    + exists []. now rewrite app_nil_r.
    + now exists [AiError (gmailId e) err].
  - repeat split; auto. now exists [AiError (gmailId e) err].
Qed.

(** A message already present is skipped: the state is unchanged. *)
Lemma skip_existing (st : St) (e : Email) (row : Row) :
  findUnique (db st) (gmailId e) = Some row ->
  process_email world account categories st e = st.
Proof.
  intros H. unfold process_email, try_email.
  destruct (detector_returns e) as [info ->].
  destruct (with_body_link_id e info) as [-> _]. now rewrite H.
Qed.

(** A duplicate key at creation is skipped: no row is added, nothing is
    counted or archived, and no processing error is logged. *)
Lemma skip_duplicate_key (st : St) (e : Email) (row : Row) :
  findUnique (db st) (gmailId e) = None ->
  create_fault world (gmailId e) = None ->
  findUnique (commit (db st) (concurrent world (gmailId e))) (gmailId e)
  = Some row ->
  let st' := process_email world account categories st e in
  db st' = commit (db st) (concurrent world (gmailId e))
  /\ accountNewEmails st' = accountNewEmails st
  /\ archive_calls st' = archive_calls st
  /\ exists lines, console_error st' = console_error st ++ lines
                    /\ forallb is_ai_error lines = true.
Proof.
  intros Hnone Hfault Hdup. unfold process_email, try_email.
  destruct (detector_returns e) as [info ->].
  destruct (with_body_link_id e info) as [Hid Hdata].
  rewrite Hid, Hnone.
  pose proof (ai_step_frame (with_body_link e info) st) as Hai.
  destruct (ai_step world categories (with_body_link e info) st)
    as [[summary categoryId] st1].
  destruct Hai as (Hdb & Hnew & Harch & lines & Hlog & Hlines).
  rewrite Hfault. unfold create. cbn [new_row r_gmailId set_db db].
  rewrite Hid, Hdb, Hdup. cbn [is_P2002 P2002 code Error].
  rewrite str_eqb_refl. cbn [db accountNewEmails archive_calls console_error].
  repeat split; auto. now exists lines.
Qed.

Lemma process_email_unique (st : St) (e : Email) :
  NoDup (ids (db st)) ->
  NoDup (ids (db (process_email world account categories st e))).
Proof.
  intros Hn. unfold process_email, try_email.
  destruct (detector_returns e) as [info ->].
  destruct (findUnique (db st) (gmailId (with_body_link e info)));
    [exact Hn|].
  pose proof (ai_step_frame (with_body_link e info) st) as Hai.
  destruct (ai_step world categories (with_body_link e info) st)
    as [[summary categoryId] st1].
  destruct Hai as (Hdb & _).
  assert (Hc : NoDup (ids (commit (db st1)
                             (concurrent world
                                (gmailId (with_body_link e info))))))
    by (apply commit_unique; now rewrite Hdb).
  destruct (create_fault world (gmailId (with_body_link e info))) as [err|].
  - destruct (is_P2002 err); exact Hc.
  - cbn [set_db db].
    destruct (create _ _) as [d'|err] eqn:Ec.
    + cbn [db]. now apply (create_unique _ _ _ Ec).
    + destruct (is_P2002 err); exact Hc.
Qed.

Lemma sync_emails_unique (emails : list Email) (st : St) :
  NoDup (ids (db st)) ->
  NoDup (ids (db (sync_emails world account categories emails st))).
Proof.
  unfold sync_emails. revert st.
  induction emails as [|e rest IH]; intros st Hn; [exact Hn|].
  simpl. apply IH. now apply process_email_unique.
Qed.

(** C8, as the code has it.  When summary or classification fails and the
    insert is accepted, the message is persisted with a null category; its
    summary is null when the summary failed and the generated summary when
    only the classification failed; the loop goes on with the remaining
    messages. *)
Theorem ai_failure_degrades (st : St) (e : Email) (rest : list Email) :
  findUnique (db st) (gmailId e) = None ->
  create_fault world (gmailId e) = None ->
  findUnique (commit (db st) (concurrent world (gmailId e))) (gmailId e)
  = None ->
  (exists err, Classifier.summarizeEmail (chat_completion world)
                 (email_data e) = Throw err)
  \/ (exists err, Classifier.classifyEmail (chat_completion world)
                    (JSON_parse world) (email_data e) categories
                  = Throw err) ->
  let st' := process_email world account categories st e in
  (exists row,
      db st' = commit (db st) (concurrent world (gmailId e)) ++ [row]
      /\ r_gmailId row = gmailId e
      /\ r_categoryId row = None
      /\ r_summary row
         = match Classifier.summarizeEmail (chat_completion world)
                   (email_data e) with
           | Ok summary => Some summary
           | Throw _ => None
           end)
  /\ accountNewEmails st' = S (accountNewEmails st)
  /\ accountProcessed st' = accountProcessed st
  /\ sync_emails world account categories (e :: rest) st
     = sync_emails world account categories rest st'.
Proof.
  intros Hnone Hfault Hfree Hfail st'.
  assert (Hst : exists row,
             st' = {| db := commit (db st) (concurrent world (gmailId e))
                            ++ [row];
                      accountNewEmails := S (accountNewEmails st);
                      accountProcessed := accountProcessed st;
                      console_error := console_error st';
                      archive_calls := archive_calls st ++ [gmailId e] |}
             /\ r_gmailId row = gmailId e
             /\ r_categoryId row = None
             /\ r_summary row
                = match Classifier.summarizeEmail (chat_completion world)
                          (email_data e) with
                  | Ok summary => Some summary
                  | Throw _ => None
                  end).
  { subst st'. unfold process_email, try_email.
    destruct (detector_returns e) as [info ->].
    destruct (with_body_link_id e info) as [Hid Hdata].
    rewrite Hid, Hnone. unfold ai_step. rewrite Hdata.
    destruct (Classifier.summarizeEmail (chat_completion world) (email_data e))
      as [summary|err1] eqn:Es.
    - destruct Hfail as [[err H]|[err H]]; [discriminate|]. rewrite H.
      rewrite Hfault. unfold create. cbn [new_row r_gmailId set_db db].
      rewrite Hid, Hfree. eexists. split; [reflexivity|]. simpl. auto.
    - rewrite Hfault. unfold create. cbn [new_row r_gmailId set_db db].
      rewrite Hid, Hfree. eexists. split; [reflexivity|]. simpl. auto. }
  destruct Hst as (row & Hst & Hid & Hcat & Hsum).
  split; [|split; [|split]].
  - exists row. rewrite Hst. cbn [db]. auto.
  - now rewrite Hst.
  - now rewrite Hst.
  - reflexivity.
Qed.

End WithWorld.

Lemma run_sync_unique (d : Table) (r : Run) :
  NoDup (ids d) -> NoDup (ids (run_sync d r)).
Proof. intros H. unfold run_sync. now apply sync_emails_unique. Qed.

(** C7. Ingestion is idempotent on the external id.  After any sequence of
    sync runs there is at most one row per external id; a message whose id is
    already present is skipped with the state unchanged; a duplicate key at
    creation is skipped without a row, a count, an archive call or a logged
    processing error. *)
Theorem ingestion_idempotent (runs : list Run) (d : Table)
        (world : World) (account : Account)
        (categories : list Classifier.Category) (st : St) (e : Email) :
  (NoDup (ids d) -> NoDup (ids (run_all runs d)))
  /\ (forall row,
         findUnique (db st) (gmailId e) = Some row ->
         process_email world account categories st e = st)
  /\ (forall row,
         findUnique (db st) (gmailId e) = None ->
         create_fault world (gmailId e) = None ->
         findUnique (commit (db st) (concurrent world (gmailId e))) (gmailId e)
         = Some row ->
         let st' := process_email world account categories st e in
         db st' = commit (db st) (concurrent world (gmailId e))
         /\ accountNewEmails st' = accountNewEmails st
         /\ archive_calls st' = archive_calls st
         /\ exists lines, console_error st' = console_error st ++ lines
                           /\ forallb is_ai_error lines = true).
Proof.
  split; [|split].
  - unfold run_all. revert d. induction runs as [|r runs IH]; intros d Hn;
      [exact Hn|].
    simpl. apply IH. now apply run_sync_unique.
  - intros row. apply skip_existing.
  - intros row. apply skip_duplicate_key.
Qed.

Import Fixtures.

(** C8 as stated fails: with the summary generated and the classification
    failing, the row is persisted with that summary, not with a null one. *)
Lemma summary_kept_when_classification_fails :
  (exists err, Classifier.classifyEmail (chat_completion half_failing)
                 (JSON_parse half_failing) (email_data digest) cats
               = Throw err)
  /\ exists row,
      db (process_email half_failing inbox cats empty_state digest) = [row]
      /\ r_categoryId row = None
      /\ r_summary row = Some (lit "Weekly digest of the list.")
      /\ r_summary row <> None.
Proof.
  split; [eexists; vm_compute; reflexivity|].
  eexists. split; [vm_compute; reflexivity|].
  repeat split. discriminate.
Qed.

Lemma ai_failure_degrades_witness :
  exists row,
    db (process_email half_failing inbox cats empty_state digest)
    = commit (db empty_state) (concurrent half_failing (gmailId digest))
      ++ [row]
    /\ r_gmailId row = gmailId digest
    /\ r_categoryId row = None
    /\ r_summary row
       = match Classifier.summarizeEmail (chat_completion half_failing)
                 (email_data digest) with
         | Ok summary => Some summary
         | Throw _ => None
         end.
Proof.
  apply (ai_failure_degrades half_failing inbox cats empty_state digest []).
  - reflexivity.
  - reflexivity.
  - reflexivity.
  - right. eexists. vm_compute. reflexivity.
Defined.

(** A second run over the same message leaves the table as it is, and a
    rival insert between check and creation leaves one row. *)
Example rerun_adds_nothing :
  let once := process_email half_failing inbox cats empty_state digest in
  process_email half_failing inbox cats once digest = once.
Proof. vm_compute. reflexivity. Qed.

Lemma ingestion_idempotent_witness :
  (let once := process_email half_failing inbox cats empty_state digest in
   process_email half_failing inbox cats once digest = once)
  /\ db (process_email racing inbox cats empty_state digest) = [rival_row]
  /\ NoDup (ids (run_all [ {| run_world := racing; run_account := inbox;
                              run_categories := cats;
                              run_emails := [digest; digest] |} ] [])).
Proof.
  destruct (ingestion_idempotent
              [ {| run_world := racing; run_account := inbox;
                   run_categories := cats;
                   run_emails := [digest; digest] |} ] []
              half_failing inbox cats
              (process_email half_failing inbox cats empty_state digest)
              digest) as (Hinv & Hskip & _).
  destruct (ingestion_idempotent [] [] racing inbox cats empty_state digest)
    as (_ & _ & Hdup).
  split; [|split].
  - cbv zeta. eapply Hskip. vm_compute. reflexivity.
  - pose proof (Hdup rival_row eq_refl eq_refl eq_refl) as (Hdb & _).
    rewrite Hdb. reflexivity.
  - apply Hinv. constructor.
Defined.

End SyncProofs.

(** ** Unsubscribe detector: further properties *)

Module DetectorMore.

Import Detector DetectorProofs.

Lemma find_some_in {A} (f : A -> bool) (l : list A) (x : A) :
  find f l = Some x -> In x l /\ f x = true.
Proof. apply find_some. Qed.

(** X1. A URI the header tier returns is one of the angle-bracket URIs of
    the header and starts with [http] or with [mailto:]. *)
Theorem header_result_is_listed_uri (hdr u : jsstring) :
  extractFromHeader hdr = Some u ->
  In u (header_urls hdr)
  /\ (startsWith (lit "http") u = true \/ startsWith (lit "mailto:") u = true).
Proof.
  rewrite extractFromHeader_find.
  destruct (find (startsWith (lit "http")) (header_urls hdr)) as [h|] eqn:Eh.
  - intros H. inversion H; subst. apply find_some in Eh as [Hin Hs]. auto.
  - intros H. apply find_some in H as [Hin Hs]. auto.
Qed.

Section WithRuntime.

Variable toLowerCase : jsstring -> jsstring.
Variable cheerio_links : jsstring -> Exc (list Anchor).

(** X2. With a header none of whose URIs starts with [http] and one of
    whose URIs is a mailto URI, the detector returns the first mailto URI
    with method [header], whatever the body holds. *)
Theorem header_mailto_fallback (body hdr : jsstring) :
  (forall u, In u (header_urls hdr) -> startsWith (lit "http") u = false) ->
  (exists m, In m (header_urls hdr) /\ is_mailto_uri m = true) ->
  exists l1 u l2,
    header_urls hdr = l1 ++ u :: l2
    /\ is_mailto_uri u = true
    /\ (forall x, In x l1 -> is_mailto_uri x = false)
    /\ extractUnsubscribeInfo toLowerCase cheerio_links body
         {| listUnsubscribe := Some hdr |}
       = Ok {| url := Some u; method := header |}.
Proof.
  intros Hno Hex.
  assert (Hne : header_urls hdr <> []).
  { destruct Hex as [m [Hin _]]. intros E. rewrite E in Hin. contradiction. }
  destruct (header_urls_nonempty hdr Hne) as [Ht _].
  destruct (find_first_split (startsWith (lit "mailto:")) _ Hex)
    as (l1 & u & l2 & Heq & Hu & Hl1 & Hf).
  exists l1, u, l2. repeat split; auto.
  unfold extractUnsubscribeInfo. cbn [listUnsubscribe]. rewrite Ht.
  rewrite extractFromHeader_find.
  rewrite (find_none_forall _ _ Hno), Hf.
  apply startsWith_app in Hu as [t ->]. reflexivity.
Qed.


(** The target of a result is null exactly when its method is [none]. *)
Theorem target_null_iff_none (body : jsstring) (headers : Headers)
        (r : UnsubscribeInfo) :
  extractUnsubscribeInfo toLowerCase cheerio_links body headers = Ok r ->
  (url r = None <-> method r = none).
Proof.
  unfold extractUnsubscribeInfo.
  destruct (extractFromBody_total toLowerCase cheerio_links body) as [b Hb].
  rewrite Hb. cbn [JS.bind].
  assert (Hbody : forall r0,
             match b with
             | Some u => if truthy u
                         then Ok {| url := Some u; method := link |}
                         else Ok {| url := None; method := none |}
             | None => Ok {| url := None; method := none |}
             end = Ok r0 -> (url r0 = None <-> method r0 = none)).
  { intros r0 H0. destruct b as [u|]; [destruct (truthy u)|];
      inversion H0; subst; simpl; split; intros; try discriminate;
      reflexivity. }
  destruct (listUnsubscribe headers) as [hd|]; [|apply Hbody].
  destruct (truthy hd); [|apply Hbody].
  destruct (extractFromHeader hd) as [u|]; [|apply Hbody].
  destruct (truthy u); [|apply Hbody].
  intros H. inversion H; subst. simpl. split; intros; discriminate.
Qed.

End WithRuntime.

Import Fixtures MoreFixtures.

Lemma header_result_is_listed_uri_witness :
  In (lit "https://example.com/unsubscribe") (header_urls both_uris)
  /\ (startsWith (lit "http") (lit "https://example.com/unsubscribe") = true
      \/ startsWith (lit "mailto:") (lit "https://example.com/unsubscribe")
         = true).
Proof.
  apply (header_result_is_listed_uri both_uris). vm_compute. reflexivity.
Defined.

Lemma header_mailto_fallback_witness :
  exists l1 u l2,
    header_urls mailto_only = l1 ++ u :: l2
    /\ is_mailto_uri u = true
    /\ (forall x, In x l1 -> is_mailto_uri x = false)
    /\ extractUnsubscribeInfo ascii_lower cheerio doc_one_link
         {| listUnsubscribe := Some mailto_only |}
       = Ok {| url := Some u; method := header |}.
Proof.
  apply (header_mailto_fallback ascii_lower cheerio doc_one_link mailto_only).
  - intros u Hu. vm_compute in Hu. destruct Hu as [<-|[]]. reflexivity.
  - exists (lit "mailto:unsubscribe@example.com?subject=unsubscribe").
    split; [vm_compute; now left | reflexivity].
Defined.


Lemma target_null_iff_none_witness :
  url {| url := None; method := none |} = None
  <-> method {| url := None; method := none |} = none.
Proof.
  apply (target_null_iff_none ascii_lower cheerio doc_plain
           {| listUnsubscribe := None |}).
  vm_compute. reflexivity.
Defined.

End DetectorMore.

(** ** Unsubscribe executor: further properties *)

Module ExecutorMore.

Import Executor ExecutorAux Patterns ExecutorProofs.

Lemma spec_ret {A} (P : list Event -> Exc A -> Prop) (a : A) :
  P [] (Ok a) -> spec P (ret a).
Proof. intros H t. exists []. simpl. now rewrite app_nil_r. Qed.

Lemma spec_throw {A} (P : list Event -> Exc A -> Prop) (e : exn) :
  P [] (Throw e) -> spec P (throw e).
Proof. intros H t. exists []. simpl. now rewrite app_nil_r. Qed.

Lemma spec_call {A} (P : list Event -> Exc A -> Prop) (ev : Event)
      (o : Exc A) :
  P [ev] o -> spec P (call ev o).
Proof. intros H t. exists [ev]. simpl. auto. Qed.

Lemma spec_bind {A B} (Q : list Event -> Exc A -> Prop)
      (P : list Event -> Exc B -> Prop) (m : M A) (k : A -> M B) :
  spec Q m ->
  (forall d e, Q d (Throw e) -> P d (Throw e)) ->
  (forall d a, Q d (Ok a) -> spec (fun d2 o => P (d ++ d2) o) (k a)) ->
  spec P (mbind m k).
Proof.
  intros Hm Ht Hk t. unfold mbind. destruct (Hm t) as (d1 & H1 & HQ).
  destruct (m t) as [[a|e] t1]; simpl in *; subst t1.
  - destruct (Hk d1 a HQ (t ++ d1)) as (d2 & H2 & HP). exists (d1 ++ d2).
    rewrite H2, app_assoc. auto.
  - exists d1. auto.
Qed.

Lemma spec_catch {A} (Q P : list Event -> Exc A -> Prop) (m : M A)
      (h : exn -> M A) :
  spec Q m ->
  (forall d a, Q d (Ok a) -> P d (Ok a)) ->
  (forall d e, Q d (Throw e) -> spec (fun d2 o => P (d ++ d2) o) (h e)) ->
  spec P (mcatch m h).
Proof.
  intros Hm Ho Hh t. unfold mcatch. destruct (Hm t) as (d1 & H1 & HQ).
  destruct (m t) as [[a|e] t1]; simpl in *; subst t1.
  - exists d1. auto.
  - destruct (Hh d1 e HQ (t ++ d1)) as (d2 & H2 & HP). exists (d1 ++ d2).
    rewrite H2, app_assoc. auto.
Qed.

Lemma spec_call_bind {A B} (P : list Event -> Exc B -> Prop) (ev : Event)
      (o : Exc A) (k : A -> M B) :
  (forall e, o = Throw e -> P [ev] (Throw e)) ->
  (forall a, o = Ok a -> spec (fun d2 o' => P (ev :: d2) o') (k a)) ->
  spec P (mbind (call ev o) k).
Proof.
  intros Ht Hk.
  apply (spec_bind (fun d o' => d = [ev] /\ o' = o)).
  - apply spec_call. auto.
  - intros d e [-> <-]. now apply Ht.
  - intros d a [-> <-]. now apply Hk.
Qed.

Lemma spec_weaken {A} (Q P : list Event -> Exc A -> Prop) (m : M A) :
  spec Q m -> (forall d o, Q d o -> P d o) -> spec P m.
Proof.
  intros Hm H t. destruct (Hm t) as (d & Hd & HQ). exists d. auto.
Qed.

Lemma startsWith_prefix (p r : jsstring) : startsWith p (p ++ r) = true.
Proof.
  induction p as [|x p IH]; [reflexivity|]. simpl. now rewrite N.eqb_refl.
Qed.

Lemma spec_saveScreenshot (page : Page) (attemptId suffix : jsstring) :
  spec (fun d o => d = [EScreenshot suffix]
                   /\ forall p, o = Ok p ->
                                startsWith (attempt_dir attemptId) p = true)
       (saveScreenshot page attemptId suffix).
Proof.
  unfold saveScreenshot. apply spec_call_bind.
  - intros e _. split; [reflexivity | intros p H; discriminate H].
  - intros stamp _. apply spec_ret. split; [reflexivity|].
    intros p H.
    assert (E : forall a b c r : jsstring,
               a ++ b ++ c ++ r = (a ++ b ++ c) ++ r)
      by (intros; now rewrite <- !app_assoc).
    rewrite E in H. injection H as <-. apply startsWith_prefix.
Qed.

Section WithWorld.

Variable world : World.

Lemma spec_closeBrowser :
  spec (fun d (o : Exc unit) => d = [EClose]) (closeBrowser world).
Proof. intros t. now exists [EClose]. Qed.

Lemma spec_click_first (kind : string) (pattern : re) (els : list Element) :
  spec (fun d o => forall c, o = Ok (Some c) -> In EClick d)
       (click_first kind pattern els).
Proof.
  induction els as [|el rest IH]; cbn [click_first].
  - apply spec_ret. intros c H. discriminate H.
  - apply spec_call_bind; [intros e _ c H; discriminate H|].
    intros txt _.
    assert (Hrest : spec (fun d2 o' => forall c, o' = Ok (Some c) ->
                                                 In EClick (ETextContent :: d2))
                         (click_first kind pattern rest)).
    { apply (spec_weaken _ _ _ IH). intros d o H c Hc. right. eauto. }
    destruct txt as [t|]; [|exact Hrest].
    destruct (truthy t && test pattern t); [|exact Hrest].
    apply spec_call_bind; [intros e _ c H; discriminate H|].
    intros _ _. apply spec_ret. intros c _. right. now left.
Qed.

Lemma spec_find_and_click (page : Page) (patterns : list re) :
  spec (fun d o => forall c, o = Ok (Some c) -> In EClick d)
       (find_and_click page patterns).
Proof.
  induction patterns as [|p rest IH]; cbn [find_and_click].
  - apply spec_ret. intros c H. discriminate H.
  - apply spec_call_bind; [intros e _ c H; discriminate H|].
    intros buttons _.
    apply (spec_bind _ _ _ _ (spec_click_first "button" p buttons)).
    + intros d e _ c H. discriminate H.
    + intros d1 [c1|] H1.
      * apply spec_ret. intros c _. right. rewrite app_nil_r. eauto.
      * apply spec_call_bind; [intros e _ c H; discriminate H|].
        intros links _.
        apply (spec_bind _ _ _ _ (spec_click_first "link" p links)).
        -- intros d e _ c H. discriminate H.
        -- intros d2 [c2|] H2.
           ++ apply spec_ret. intros c _. right. apply in_or_app. right.
              right. rewrite app_nil_r. eauto.
           ++ apply (spec_weaken _ _ _ IH). intros d o H c Hc.
              right. apply in_or_app. right. right. apply in_or_app. right.
              eauto.
Qed.

Ltac no_result :=
  let r := fresh "r" in let H := fresh "H" in
  intros r H; discriminate H.

Lemma spec_simple_try (page : Page) (url attemptId : jsstring) :
  spec (try_post page attemptId) (simple_try world page url attemptId).
Proof.
  unfold simple_try. apply spec_call_bind.
  { intros e _. split; [no_result|]. intros _. split; [reflexivity|no_result]. }
  intros response _.
  destruct response as [st|].
  2:{ apply spec_throw. split; [no_result|]. intros _.
      split; [reflexivity|no_result]. }
  destruct (negb (ok_status st)).
  { apply spec_throw. split; [no_result|]. intros _.
    split; [reflexivity|no_result]. }
  apply (spec_bind _ _ _ _ (spec_saveScreenshot page attemptId (lit "before"))).
  { intros d e [-> _]. split; [no_result|]. intros _.
    split; [reflexivity|no_result]. }
  intros d beforePath [-> Hbefore]. specialize (Hbefore _ eq_refl).
  apply spec_call_bind.
  { intros e _. split; [no_result|]. intros _.
    split; [reflexivity|no_result]. }
  intros pageContent Hcontent.
  destruct (some_test ERROR_PATTERNS pageContent) eqn:Eerr.
  - apply (spec_bind _ _ _ _ spec_closeBrowser).
    { intros d e ->. split; [no_result|]. intros _.
      split; [reflexivity|no_result]. }
    intros d [] ->. apply spec_ret. split.
    + intros r Hr. inversion Hr; subst r. split; [simpl; tauto|].
      split; [unfold artifacts; simpl; constructor; auto|].
      intros Hs. discriminate Hs.
    + intros _. split; [reflexivity|]. intros r Hr. now inversion Hr.
  - assert (Hnb : ~ blocked page).
    { intros (c & Hc & Hm). rewrite Hcontent in Hc. inversion Hc; subst.
      congruence. }
    apply (spec_bind _ _ _ _
             (spec_find_and_click page UNSUBSCRIBE_PATTERNS)).
    { intros d e _. split; [no_result | intros Hb; contradiction]. }
    intros dfc [clickedElement|] Hfc.
    + specialize (Hfc _ eq_refl).
      apply spec_call_bind.
      { intros e _. split; [no_result | intros Hb; contradiction]. }
      intros _ _.
      apply (spec_bind _ _ _ _
               (spec_saveScreenshot page attemptId (lit "after"))).
      { intros d e [-> _]. split; [no_result | intros Hb; contradiction]. }
      intros d afterPath [-> Hafter]. specialize (Hafter _ eq_refl).
      apply spec_call_bind.
      { intros e _. split; [no_result | intros Hb; contradiction]. }
      intros afterContent Hsettled.
      apply (spec_bind _ _ _ _ spec_closeBrowser).
      { intros d e ->. split; [no_result | intros Hb; contradiction]. }
      intros d [] ->.
      assert (Hclose : In EClose
                ((EGoto url
                  :: [EScreenshot (lit "before")]
                     ++ EContent
                        :: dfc
                           ++ EWait 3000
                              :: [EScreenshot (lit "after")]
                                 ++ EContent :: [EClose] ++ []))).
      { right. right. right. apply in_or_app. right. simpl. tauto. }
      assert (Hclick : In EClick
                ((EGoto url
                  :: [EScreenshot (lit "before")]
                     ++ EContent
                        :: dfc
                           ++ EWait 3000
                              :: [EScreenshot (lit "after")]
                                 ++ EContent :: [EClose] ++ []))).
      { right. right. right. apply in_or_app. now left. }
      destruct (some_test SUCCESS_PATTERNS afterContent) eqn:Esucc;
        apply spec_ret; (split; [|intros Hb; contradiction]);
        intros r Hr; inversion Hr; subst r;
        (split; [exact Hclose|]);
        (split; [unfold artifacts; simpl; repeat constructor; auto|]).
      * intros _. split; [exact Hclick|]. split; [reflexivity|].
        exists afterContent. auto.
      * intros Hs. discriminate Hs.
    + apply (spec_bind _ _ _ _
               (spec_saveScreenshot page attemptId (lit "after-not-found"))).
      { intros d e [-> _]. split; [no_result | intros Hb; contradiction]. }
      intros d afterPath [-> Hafter]. specialize (Hafter _ eq_refl).
      apply (spec_bind _ _ _ _ spec_closeBrowser).
      { intros d e ->. split; [no_result | intros Hb; contradiction]. }
      intros d [] ->. apply spec_ret. split; [|intros Hb; contradiction].
      intros r Hr. inversion Hr; subst r. split.
      { right. right. right. apply in_or_app. right. simpl. tauto. }
      split; [unfold artifacts; simpl; repeat constructor; auto|].
      intros Hs. discriminate Hs.
Qed.

Lemma spec_simple_catch (page : option Page) (attemptId : jsstring) (e : exn) :
  spec (fun d o => catch_post attemptId e d o
                   /\ d = match page with
                          | Some _ => [EScreenshot (lit "error"); EClose]
                          | None => [EClose]
                          end)
       (simple_catch world page attemptId e).
Proof.
  intros t. unfold simple_catch.
  destruct page as [pg|].
  - pose proof (spec_saveScreenshot pg attemptId (lit "error") t)
      as (d & Hd & -> & Hp).
    unfold mbind, mcatch.
    destruct (saveScreenshot pg attemptId (lit "error") t) as [[p|e1] t1];
      simpl in Hd; subst t1; unfold ret, closeBrowser;
      exists [EScreenshot (lit "error"); EClose];
      (split; [destruct (close world _); simpl; now rewrite <- app_assoc|]);
      (split; [|reflexivity]);
      (split; [simpl; tauto|]); (split; [reflexivity|]);
      intros r Hr; simpl in Hr;
      destruct (close world _); inversion Hr; subst r; simpl;
      (split; [reflexivity|]); (split; [|split; reflexivity]).
    + unfold artifacts; simpl. specialize (Hp p eq_refl).
      destruct (truthy p); simpl; auto.
    + constructor.
  - unfold mbind, ret, closeBrowser. exists [EClose].
    split; [destruct (close world _); reflexivity|]. split; [|reflexivity].
    split; [simpl; tauto|]. split; [reflexivity|].
    intros r Hr; simpl in Hr.
    destruct (close world _); inversion Hr; subst r; simpl.
    split; [reflexivity|]. split; [constructor|split; reflexivity].
Qed.

(** Tier 2, unfolded at its two first calls. *)
Lemma executeSimpleUnsubscribe_unfold (url attemptId : jsstring)
      (t : list Event) :
  executeSimpleUnsubscribe world url attemptId t
  = match launch world with
    | Throw e => (Throw e, t ++ [ELaunch])
    | Ok _ =>
        match newPage world with
        | Throw e =>
            simple_catch world None attemptId e ((t ++ [ELaunch]) ++ [ENewPage])
        | Ok page =>
            mcatch (simple_try world page url attemptId)
                   (simple_catch world (Some page) attemptId)
                   ((t ++ [ELaunch]) ++ [ENewPage])
        end
    end.
Proof.
  unfold executeSimpleUnsubscribe, mbind, call.
  destruct (launch world); [|reflexivity].
  destruct (newPage world); reflexivity.
Qed.

Lemma spec_tier2 (url attemptId : jsstring) :
  spec (tier2_post world attemptId)
       (executeSimpleUnsubscribe world url attemptId).
Proof.
  intros t. rewrite executeSimpleUnsubscribe_unfold. unfold tier2_post.
  destruct (launch world) as [[]|e] eqn:El.
  2:{ exists [ELaunch]. cbn [fst snd]. split; [reflexivity|].
      split; [intros H; discriminate H|].
      split; [intros r H; discriminate H|].
      intros page _ _. split; [reflexivity|intros r H; discriminate H]. }
  destruct (newPage world) as [page|e] eqn:En.
  - assert (Hs : spec (fun d o =>
                         In EClose d
                         /\ (forall r, o = Ok r ->
                              Forall (fun p => startsWith (attempt_dir attemptId) p
                                               = true) (artifacts r)
                              /\ (success r = true ->
                                  In EClick d /\ List.length (artifacts r) = 2
                                  /\ confirmed page))
                         /\ (blocked page ->
                             forallb not_click d = true
                             /\ forall r, o = Ok r -> success r = false))
                      (mcatch (simple_try world page url attemptId)
                              (simple_catch world (Some page) attemptId))).
    { apply (spec_catch _ _ _ _ (spec_simple_try page url attemptId)).
      - intros d r [Hr Hb]. destruct (Hr r eq_refl) as (Hc & Hf & Hsucc).
        split; [exact Hc|]. split.
        + intros r' E. inversion E; subst r'. auto.
        + exact Hb.
      - intros d e [_ Hb].
        apply (spec_weaken _ _ _ (spec_simple_catch (Some page) attemptId e)).
        intros d2 o [(Hc & Hn & Hr) _]. split.
        { apply in_or_app. now right. }
        split.
        + intros r E. destruct (Hr r E) as (Hs & Hf & _). split; [exact Hf|].
          intros Hs'. congruence.
        + intros Hbl. destruct (Hb Hbl) as [Hd _]. split.
          * rewrite forallb_app, Hd, Hn. reflexivity.
          * intros r E. now destruct (Hr r E). }
    destruct (Hs ((t ++ [ELaunch]) ++ [ENewPage])) as (d & Hd & Hc & Hr & Hb).
    exists (ELaunch :: ENewPage :: d). split.
    { rewrite Hd. rewrite <- !app_assoc. reflexivity. }
    split; [intros _; right; right; exact Hc|]. split.
    + intros r E. destruct (Hr r E) as [Hf Hsucc]. split; [exact Hf|].
      intros S. destruct (Hsucc S) as (H1 & H2 & H3).
      split; [right; right; exact H1|]. split; [exact H2|].
      exists page. auto.
    + intros page' E Hbl. inversion E; subst page'.
      destruct (Hb Hbl) as [H1 H2]. split; [exact H1|exact H2].
  - destruct (spec_simple_catch None attemptId e ((t ++ [ELaunch]) ++ [ENewPage]))
      as (d & Hd & (Hc & Hn & Hr) & _).
    exists (ELaunch :: ENewPage :: d). split.
    { rewrite Hd. rewrite <- !app_assoc. reflexivity. }
    split; [intros _; right; right; exact Hc|]. split.
    + intros r E. destruct (Hr r E) as (Hs & Hf & _). split; [exact Hf|].
      intros S. congruence.
    + intros page' E. discriminate E.
Qed.

(** [unsubscribeEmail] in terms of its two tiers. *)
Lemma unsubscribeEmail_unfold (url attemptId : jsstring) (t : list Event) :
  unsubscribeEmail world url attemptId t
  = match executeHeaderUnsubscribe world url t with
    | (Ok r1, t1) =>
        if success r1 then (Ok r1, t1)
        else match executeSimpleUnsubscribe world url attemptId t1 with
             | (Ok r2, t2) => (Ok (after_tier2 r2), t2)
             | (Throw e, t2) => (Throw e, t2)
             end
    | (Throw e, t1) => (Throw e, t1)
    end.
Proof.
  unfold unsubscribeEmail, mbind, after_tier2.
  destruct (executeHeaderUnsubscribe world url t) as [[r1|e] t1];
    [|reflexivity].
  destruct (success r1); [reflexivity|].
  destruct (executeSimpleUnsubscribe world url attemptId t1) as [[r2|e] t2];
    [|reflexivity].
  destruct (success r2); reflexivity.
Qed.

(** Tier 1, outcome by outcome. *)
Lemma tier1_cases (url : jsstring) (t : list Event) :
  exists r,
    executeHeaderUnsubscribe world url t
    = (Ok r, if startsWith (lit "mailto:") url then t else t ++ [EFetch url])
    /\ method r = header
    /\ screenshotPaths r = None
    /\ (success r = true <->
        startsWith (lit "mailto:") url = false
        /\ exists response body,
             fetch world url = Ok response
             /\ ok_status (status response) = true
             /\ text response = Ok body
             /\ some_test SUCCESS_PATTERNS body = true).
Proof.
  unfold executeHeaderUnsubscribe, mcatch, mbind, call, ret.
  destruct (startsWith (lit "mailto:") url) eqn:Em.
  { eexists. split; [reflexivity|]. split; [reflexivity|].
    split; [reflexivity|]. cbn [success]. split; [intros H; discriminate H|].
    intros [H _]. discriminate H. }
  destruct (fetch world url) as [resp|e] eqn:Ef.
  2:{ eexists. split; [reflexivity|]. split; [reflexivity|].
      split; [reflexivity|]. cbn [success].
      split; [intros H; discriminate H|].
      intros (_ & resp & body & H & _). discriminate H. }
  destruct (ok_status (status resp)) eqn:Es; cbn [negb].
  2:{ eexists. split; [reflexivity|]. split; [reflexivity|].
      split; [reflexivity|]. cbn [success].
      split; [intros H; discriminate H|].
      intros (_ & resp' & body & H & H' & _). inversion H; subst resp'.
      congruence. }
  destruct (text resp) as [body|e] eqn:Et.
  2:{ eexists. split; [reflexivity|]. split; [reflexivity|].
      split; [reflexivity|]. cbn [success].
      split; [intros H; discriminate H|].
      intros (_ & resp' & body & H & _ & H' & _). inversion H; subst resp'.
      congruence. }
  destruct (some_test SUCCESS_PATTERNS body) eqn:Ep.
  - eexists. split; [reflexivity|]. split; [reflexivity|].
    split; [reflexivity|]. cbn [success]. split; [|reflexivity].
    intros _. split; [reflexivity|]. exists resp, body. auto.
  - eexists. split; [reflexivity|]. split; [reflexivity|].
    split; [reflexivity|]. cbn [success]. split; [intros H; discriminate H|].
    intros (_ & resp' & body' & H & _ & H' & H''). inversion H; subst resp'.
    rewrite Et in H'. inversion H'; subst body'. congruence.
Qed.

Lemma artifacts_after_tier2 (r : UnsubscribeResult) :
  artifacts (after_tier2 r) = artifacts r.
Proof. unfold after_tier2. now destruct (success r). Qed.

Lemma click_first_no_match (kind : string) (pattern : re)
      (els : list Element) (t : list Event) :
  Forall readable els ->
  (forall el, In el els -> element_matches pattern el = false) ->
  click_first kind pattern els t
  = (Ok None, t ++ repeat ETextContent (List.length els)).
Proof.
  revert t. induction els as [|el rest IH]; intros t Hr Hn.
  - simpl. now rewrite app_nil_r.
  - inversion Hr as [|? ? [o Ho] Hr']; subst.
    pose proof (Hn el (or_introl eq_refl)) as Hel.
    unfold element_matches in Hel. rewrite Ho in Hel.
    cbn [click_first]. unfold mbind at 1. unfold call at 1. rewrite Ho.
    assert (E : click_first kind pattern rest (t ++ [ETextContent])
                = (Ok None,
                   t ++ repeat ETextContent (List.length (el :: rest)))).
    { rewrite IH; [|exact Hr'|intros x Hx; apply Hn; now right].
      now rewrite <- app_assoc. }
    destruct o as [txt|]; [|exact E]. rewrite Hel. exact E.
Qed.

Lemma click_first_match (kind : string) (pattern : re)
      (before : list Element) (el : Element) (rest : list Element)
      (txt : jsstring) (t : list Event) :
  Forall readable before ->
  (forall x, In x before -> element_matches pattern x = false) ->
  textContent el = Ok (Some txt) ->
  truthy txt && test pattern txt = true ->
  click el = Ok tt ->
  click_first kind pattern (before ++ el :: rest) t
  = (Ok (Some (lit kind ++ lit ": " ++ dq ++ txt ++ dq)),
     t ++ repeat ETextContent (List.length before) ++ [ETextContent; EClick]).
Proof.
  revert t. induction before as [|b before IH]; intros t Hr Hn Ht Hm Hc.
  - cbn [app click_first List.length repeat]. unfold mbind, call, ret.
    rewrite Ht, Hm, Hc. now rewrite <- app_assoc.
  - inversion Hr as [|? ? [o Ho] Hr']; subst.
    pose proof (Hn b (or_introl eq_refl)) as Hb.
    unfold element_matches in Hb. rewrite Ho in Hb.
    cbn [app click_first]. unfold mbind at 1. unfold call at 1. rewrite Ho.
    assert (E : click_first kind pattern (before ++ el :: rest)
                            (t ++ [ETextContent])
                = (Ok (Some (lit kind ++ lit ": " ++ dq ++ txt ++ dq)),
                   t ++ repeat ETextContent (List.length (b :: before))
                     ++ [ETextContent; EClick])).
    { rewrite IH; auto; [|intros x Hx; apply Hn; now right].
      now rewrite <- app_assoc. }
    destruct o as [txt'|]; [|exact E]. rewrite Hb. exact E.
Qed.

(** X4. Tier 1 ([executeHeaderUnsubscribe]) never throws: it returns a
    result with method [header] and no artifact, after exactly one HTTP
    request, or none at all for a [mailto:] URL; the result reports success
    exactly when the URL is not a [mailto:], the request is answered with a
    2xx status, the body can be read and one success pattern matches it. *)
Theorem tier1_outcome (url : jsstring) (t : list Event) :
  exists r,
    executeHeaderUnsubscribe world url t
    = (Ok r, if startsWith (lit "mailto:") url then t else t ++ [EFetch url])
    /\ method r = header
    /\ artifacts r = []
    /\ (success r = true <->
        startsWith (lit "mailto:") url = false
        /\ exists response body,
             fetch world url = Ok response
             /\ ok_status (status response) = true
             /\ text response = Ok body
             /\ some_test SUCCESS_PATTERNS body = true).
Proof.
  destruct (tier1_cases url t) as (r & E & Hm & Hp & Hs).
  exists r. split; [exact E|]. split; [exact Hm|]. split; [|exact Hs].
  unfold artifacts. now rewrite Hp.
Qed.

(** X5. When the response to the header URL carries a success phrase,
    [unsubscribeEmail] returns the Tier 1 result after that single request:
    no browser is launched and no artifact is produced. *)
Theorem confirmed_header_skips_browser (url attemptId : jsstring)
        (response : Response) (body : jsstring) (t : list Event) :
  startsWith (lit "mailto:") url = false ->
  fetch world url = Ok response ->
  ok_status (status response) = true ->
  text response = Ok body ->
  some_test SUCCESS_PATTERNS body = true ->
  exists r,
    unsubscribeEmail world url attemptId t = (Ok r, t ++ [EFetch url])
    /\ success r = true /\ method r = header /\ artifacts r = [].
Proof.
  intros Em Ef Es Et Ep.
  destruct (tier1_cases url t) as (r & E & Hm & Hp & Hs).
  assert (S : success r = true).
  { apply Hs. split; [exact Em|]. exists response, body. auto. }
  exists r. rewrite unsubscribeEmail_unfold, E, Em, S.
  split; [reflexivity|]. split; [reflexivity|]. split; [exact Hm|].
  unfold artifacts. now rewrite Hp.
Qed.

(** X6. A [mailto:] target is not requested over HTTP; it goes straight to
    Tier 2, which launches the browser with it: the calls made are those of
    [executeSimpleUnsubscribe] alone, and the result, if any, is the Tier 2
    result as [unsubscribeEmail] reports it, with method [simple-click]. *)
Theorem mailto_goes_to_browser (url attemptId : jsstring) (t : list Event) :
  startsWith (lit "mailto:") url = true ->
  snd (unsubscribeEmail world url attemptId t)
  = snd (executeSimpleUnsubscribe world url attemptId t)
  /\ (exists d, snd (unsubscribeEmail world url attemptId t)
                = t ++ ELaunch :: d)
  /\ (forall r, fst (unsubscribeEmail world url attemptId t) = Ok r ->
                method r = simple_click
                /\ exists r2,
                     fst (executeSimpleUnsubscribe world url attemptId t) = Ok r2
                     /\ r = after_tier2 r2).
Proof.
  intros Em.
  destruct (tier1_cases url t) as (r1 & E & _ & _ & Hs).
  assert (S : success r1 = false).
  { destruct (success r1); [|reflexivity].
    destruct Hs as [Hs _]. destruct (Hs eq_refl) as [H _]. congruence. }
  rewrite unsubscribeEmail_unfold, E, Em, S.
  pose proof (returns_tier2 world url attemptId t) as Hshape.
  destruct (tier2_launches world url attemptId t) as [d Hd].
  destruct (executeSimpleUnsubscribe world url attemptId t) as [[r2|e] t2];
    cbn [fst snd] in *.
  - split; [reflexivity|]. split; [exists d; exact Hd|].
    intros r Hr. inversion Hr; subst r. split.
    + destruct (Hshape r2 t2 eq_refl) as [Hm _].
      unfold after_tier2. destruct (success r2); exact Hm.
    + exists r2. auto.
  - split; [reflexivity|]. split; [exists d; exact Hd|].
    intros r Hr. discriminate Hr.
Qed.

(** X7. Once the browser has been launched, [executeSimpleUnsubscribe]
    closes it on every path: whether the page could not be opened, the
    navigation failed, the page was blocked, nothing was found to click, or
    the click went through, [browser.close()] is among the calls made. *)
Theorem browser_closed_after_launch (url attemptId : jsstring)
        (t : list Event) :
  launch world = Ok tt ->
  exists d, snd (executeSimpleUnsubscribe world url attemptId t) = t ++ d
            /\ In EClose d.
Proof.
  intros Hl. destruct (spec_tier2 url attemptId t) as (d & Hd & Hc & _).
  exists d. auto.
Qed.

(** X8. On a page whose content matches an error pattern (CAPTCHA, login,
    access denied) Tier 2 clicks nothing, and no result reports success. *)
Theorem blocked_page_not_clicked (url attemptId : jsstring) (page : Page)
        (t : list Event) :
  newPage world = Ok page ->
  blocked page ->
  exists d, snd (executeSimpleUnsubscribe world url attemptId t) = t ++ d
            /\ forallb not_click d = true
            /\ forall r, fst (executeSimpleUnsubscribe world url attemptId t)
                         = Ok r ->
                         success r = false.
Proof.
  intros Hp Hb. destruct (spec_tier2 url attemptId t) as (d & Hd & _ & _ & H).
  exists d. split; [exact Hd|]. exact (H page Hp Hb).
Qed.

(** X9. A Tier 2 result reports success only after an element was clicked
    and the content read after the click matched a success pattern; such a
    result carries both screenshots. *)
Theorem tier2_success_evidence (url attemptId : jsstring) (t : list Event)
        (r : UnsubscribeResult) :
  fst (executeSimpleUnsubscribe world url attemptId t) = Ok r ->
  success r = true ->
  exists d page,
    snd (executeSimpleUnsubscribe world url attemptId t) = t ++ d
    /\ In EClick d
    /\ List.length (artifacts r) = 2
    /\ newPage world = Ok page
    /\ confirmed page.
Proof.
  intros Hr Hs. destruct (spec_tier2 url attemptId t) as (d & Hd & _ & H & _).
  destruct (H r Hr) as [_ H']. destruct (H' Hs) as (Hc & Hl & page & Hp & Hk).
  exists d, page. auto.
Qed.

(** X10. A result of [unsubscribeEmail] that reports failure is always a
    Tier 2 result, and its message is the Tier 2 message wrapped in
    'Automated unsubscribe failed. ... . Manual unsubscribe recommended.';
    a result with method [header] always reports success. *)
Theorem failure_is_tier2_wrapped (url attemptId : jsstring) (t : list Event)
        (r : UnsubscribeResult) :
  fst (unsubscribeEmail world url attemptId t) = Ok r ->
  (success r = false ->
   method r = simple_click
   /\ exists m, message r = lit "Automated unsubscribe failed. " ++ m
                            ++ lit ". Manual unsubscribe recommended.")
  /\ (method r = header -> success r = true).
Proof.
  rewrite unsubscribeEmail_unfold.
  destruct (tier1_cases url t) as (r1 & E & Hm1 & _ & _). rewrite E.
  destruct (success r1) eqn:S1.
  - cbn [fst]. intros Hr. inversion Hr; subst r. split; [congruence|auto].
  - pose proof (returns_tier2 world url attemptId
                  (if startsWith (lit "mailto:") url then t
                   else t ++ [EFetch url])) as Hshape.
    destruct (executeSimpleUnsubscribe world url attemptId _)
      as [[r2|e] t2]; cbn [fst]; intros Hr; [|discriminate Hr].
    inversion Hr; subst r. destruct (Hshape r2 t2 eq_refl) as [Hm _].
    unfold after_tier2. destruct (success r2) eqn:S2.
    + split; [congruence|auto].
    + cbn [success method message]. split.
      * intros _. split; [exact Hm|]. now exists (message r2).
      * rewrite Hm. intros H. discriminate H.
Qed.

(** X11. Every artifact reference of a result of [unsubscribeEmail] lies in
    the directory of the attempt, [/unsubscribe-logs/<attemptId>/]. *)
Theorem artifacts_in_attempt_directory (url attemptId : jsstring)
        (t : list Event) (r : UnsubscribeResult) :
  fst (unsubscribeEmail world url attemptId t) = Ok r ->
  Forall (fun p => startsWith (attempt_dir attemptId) p = true) (artifacts r).
Proof.
  rewrite unsubscribeEmail_unfold.
  destruct (tier1_cases url t) as (r1 & E & _ & Hp & _). rewrite E.
  destruct (success r1).
  - cbn [fst]. intros Hr. inversion Hr; subst r. unfold artifacts.
    rewrite Hp. constructor.
  - destruct (spec_tier2 url attemptId
                (if startsWith (lit "mailto:") url then t
                 else t ++ [EFetch url])) as (d & _ & _ & H & _).
    destruct (executeSimpleUnsubscribe world url attemptId _)
      as [[r2|e] t2]; cbn [fst] in *; intros Hr; [|discriminate Hr].
    inversion Hr; subst r. rewrite artifacts_after_tier2.
    now destruct (H r2 eq_refl).
Qed.

(** X12. When the page cannot be loaded (the navigation throws, yields no
    response, or a status outside 200..299), Tier 2 takes a screenshot named
    [error], closes the browser and reports 'Browser automation failed: '
    followed by the message of the fault; nothing is clicked. *)
Theorem load_failure_reported (url attemptId : jsstring) (page : Page)
        (e : exn) (t : list Event) :
  launch world = Ok tt ->
  newPage world = Ok page ->
  goto page url = Throw e
  \/ (goto page url = Ok None
      /\ e = err (lit "Failed to load page: undefined"))
  \/ (exists st, goto page url = Ok (Some st) /\ ok_status st = false
                 /\ e = err (lit "Failed to load page: " ++ num (N.of_nat st))) ->
  snd (executeSimpleUnsubscribe world url attemptId t)
  = t ++ [ELaunch; ENewPage; EGoto url; EScreenshot (lit "error"); EClose]
  /\ forall r, fst (executeSimpleUnsubscribe world url attemptId t) = Ok r ->
               success r = false
               /\ message r = lit "Browser automation failed: " ++ JS.message e
               /\ error r = Some (JS.message e)
               /\ List.length (artifacts r) <= 1.
Proof.
  intros Hl Hp Hg. rewrite executeSimpleUnsubscribe_unfold, Hl, Hp.
  assert (Ht : simple_try world page url attemptId
                          ((t ++ [ELaunch]) ++ [ENewPage])
               = (Throw e, ((t ++ [ELaunch]) ++ [ENewPage]) ++ [EGoto url])).
  { unfold simple_try, mbind, call, throw.
    destruct Hg as [Hg|[[Hg ->]|(st & Hg & Hs & ->)]]; rewrite Hg;
      [reflexivity|reflexivity|]. now rewrite Hs. }
  unfold mcatch. rewrite Ht.
  destruct (spec_simple_catch (Some page) attemptId e
              (((t ++ [ELaunch]) ++ [ENewPage]) ++ [EGoto url]))
    as (d & Hd & (_ & _ & Hr) & ->).
  split; [rewrite Hd; now rewrite <- !app_assoc|].
  intros r E. destruct (Hr r E) as (H1 & H2 & H3 & H4).
  split; [exact H1|]. split; [exact H3|]. split; [exact H4|].
  clear - E. unfold simple_catch, mbind, mcatch, ret, closeBrowser in E.
  destruct (saveScreenshot page attemptId (lit "error") _) as [[p|e1] t1];
    destruct (close world _); cbn [fst] in E; inversion E; subst r;
    unfold artifacts; cbn [screenshotPaths].
  - destruct (truthy p); simpl; auto.
  - simpl; auto.
Qed.

End WithWorld.

(** X13. The search for the element to click goes pattern by pattern, and
    within one pattern over the buttons, then the links: when no button
    matches the first pattern and a link does, that link is clicked (the
    first such link, exactly one click), whatever the later patterns would
    match. *)
Theorem first_pattern_wins (page : Page) (pattern : re) (rest : list re)
        (buttons before : list Element) (link : Element)
        (others : list Element) (txt : jsstring) (t : list Event) :
  locator_all page (lit "button") = Ok buttons ->
  Forall readable buttons ->
  (forall b, In b buttons -> element_matches pattern b = false) ->
  locator_all page (lit "a") = Ok (before ++ link :: others) ->
  Forall readable before ->
  (forall l, In l before -> element_matches pattern l = false) ->
  textContent link = Ok (Some txt) ->
  truthy txt && test pattern txt = true ->
  click link = Ok tt ->
  find_and_click page (pattern :: rest) t
  = (Ok (Some (lit "link: " ++ dq ++ txt ++ dq)),
     t ++ ELocator (lit "button")
       :: repeat ETextContent (List.length buttons)
       ++ ELocator (lit "a")
       :: repeat ETextContent (List.length before)
       ++ [ETextContent; EClick]).
Proof.
  intros Hb Hrb Hnb Hl Hrl Hnl Ht Hm Hc.
  cbn [find_and_click]. unfold mbind at 1. unfold call at 1. rewrite Hb.
  unfold mbind at 1. rewrite (click_first_no_match _ _ _ _ Hrb Hnb).
  unfold mbind at 1. unfold call at 1. rewrite Hl.
  unfold mbind at 1.
  rewrite (click_first_match _ _ _ _ _ _ _ Hrl Hnl Ht Hm Hc).
  unfold ret. f_equal. rewrite <- !app_assoc. reflexivity.
Qed.

Import Fixtures MoreFixtures.

Lemma confirmed_header_skips_browser_witness :
  exists r,
    unsubscribeEmail confirming_site unsubscribe_url attempt_id []
    = (Ok r, [] ++ [EFetch unsubscribe_url])
    /\ success r = true /\ method r = header /\ artifacts r = [].
Proof.
  apply (confirmed_header_skips_browser confirming_site unsubscribe_url
           attempt_id
           {| status := 200; statusText := lit "OK";
              text := Ok (lit "<p>You have been unsubscribed.</p>") |}
           (lit "<p>You have been unsubscribed.</p>") []);
    vm_compute; reflexivity.
Defined.

Lemma mailto_goes_to_browser_witness :
  exists d, snd (unsubscribeEmail site mailto_url attempt_id [])
            = [] ++ ELaunch :: d.
Proof.
  apply (mailto_goes_to_browser site mailto_url attempt_id []).
  vm_compute; reflexivity.
Defined.

Lemma browser_closed_after_launch_witness :
  exists d,
    snd (executeSimpleUnsubscribe (with_page (Ok timeout_page))
                                  unsubscribe_url attempt_id [])
    = [] ++ d
    /\ In EClose d.
Proof.
  apply (browser_closed_after_launch (with_page (Ok timeout_page))
           unsubscribe_url attempt_id []).
  reflexivity.
Defined.

Lemma blocked_page_not_clicked_witness :
  exists d,
    snd (executeSimpleUnsubscribe (with_page (Ok captcha_page))
                                  unsubscribe_url attempt_id [])
    = [] ++ d
    /\ forallb not_click d = true
    /\ forall r,
         fst (executeSimpleUnsubscribe (with_page (Ok captcha_page))
                                       unsubscribe_url attempt_id [])
         = Ok r ->
         success r = false.
Proof.
  apply (blocked_page_not_clicked (with_page (Ok captcha_page))
           unsubscribe_url attempt_id captcha_page []).
  - reflexivity.
  - exists (lit "<p>Please complete the CAPTCHA</p><button>Unsubscribe</button>").
    split; [reflexivity | vm_compute; reflexivity].
Defined.

Lemma tier2_success_evidence_witness :
  exists d page,
    snd (executeSimpleUnsubscribe site unsubscribe_url attempt_id [])
    = [] ++ d
    /\ In EClick d
    /\ List.length (artifacts clicked_result) = 2
    /\ newPage site = Ok page
    /\ confirmed page.
Proof.
  apply (tier2_success_evidence site unsubscribe_url attempt_id []
           clicked_result).
  - vm_compute. reflexivity.
  - reflexivity.
Defined.

Lemma failure_is_tier2_wrapped_witness :
  (success captcha_result = false ->
   method captcha_result = simple_click
   /\ exists m, message captcha_result
                = lit "Automated unsubscribe failed. " ++ m
                  ++ lit ". Manual unsubscribe recommended.")
  /\ (method captcha_result = header -> success captcha_result = true).
Proof.
  apply (failure_is_tier2_wrapped (with_page (Ok captcha_page))
           unsubscribe_url attempt_id [] captcha_result).
  vm_compute. reflexivity.
Defined.

Lemma artifacts_in_attempt_directory_witness :
  Forall (fun p => startsWith (attempt_dir attempt_id) p = true)
         (artifacts clicked_result).
Proof.
  apply (artifacts_in_attempt_directory site unsubscribe_url attempt_id []
           clicked_result).
  vm_compute. reflexivity.
Defined.

Lemma load_failure_reported_witness :
  snd (executeSimpleUnsubscribe (with_page (Ok timeout_page))
                                unsubscribe_url attempt_id [])
  = [] ++ [ELaunch; ENewPage; EGoto unsubscribe_url;
           EScreenshot (lit "error"); EClose]
  /\ forall r,
       fst (executeSimpleUnsubscribe (with_page (Ok timeout_page))
                                     unsubscribe_url attempt_id [])
       = Ok r ->
       success r = false
       /\ message r = lit "Browser automation failed: "
                      ++ JS.message (Error (lit "Timeout 30000ms exceeded") None)
       /\ error r = Some (JS.message (Error (lit "Timeout 30000ms exceeded") None))
       /\ List.length (artifacts r) <= 1.
Proof.
  apply (load_failure_reported (with_page (Ok timeout_page)) unsubscribe_url
           attempt_id timeout_page
           (Error (lit "Timeout 30000ms exceeded") None) []).
  - reflexivity.
  - reflexivity.
  - left. reflexivity.
Defined.

Lemma first_pattern_wins_witness :
  find_and_click mixed_page UNSUBSCRIBE_PATTERNS []
  = (Ok (Some (lit "link: " ++ dq ++ lit "Unsubscribe here" ++ dq)),
     [] ++ ELocator (lit "button")
        :: repeat ETextContent
                  (List.length [element "Opt out of everything"])
        ++ ELocator (lit "a")
        :: repeat ETextContent (List.length [element "Home"])
        ++ [ETextContent; EClick]).
Proof.
  apply (first_pattern_wins mixed_page (w "unsubscribe")
           (List.tl UNSUBSCRIBE_PATTERNS)
           [element "Opt out of everything"] [element "Home"]
           (element "Unsubscribe here") [] (lit "Unsubscribe here") []).
  - reflexivity.
  - repeat constructor; eexists; reflexivity.
  - intros b [<-|[]]. vm_compute. reflexivity.
  - reflexivity.
  - repeat constructor; eexists; reflexivity.
  - intros l [<-|[]]. vm_compute. reflexivity.
  - reflexivity.
  - vm_compute. reflexivity.
  - reflexivity.
Defined.

End ExecutorMore.

(** ** Classifier and summarizer: further properties *)

Module ClassifierMore.

Import Classifier ClassifierProofs.

Lemma trimStart_head (s : jsstring) (c : N) (rest : jsstring) :
  trimStart s = c :: rest -> is_space c = false.
Proof.
  induction s as [|x s IH]; simpl; [intros H; discriminate H|].
  destruct (is_space x) eqn:E; [exact IH|].
  intros H. inversion H; subst. exact E.
Qed.

Lemma trimStart_suffix (s : jsstring) : exists pre, s = pre ++ trimStart s.
Proof.
  induction s as [|x s [pre IH]]; [now exists []|]. simpl.
  destruct (is_space x); [|now exists []].
  exists (x :: pre). simpl. now rewrite <- IH.
Qed.

Lemma trimEnd_prefix (s : jsstring) : exists suf, s = trimEnd s ++ suf.
Proof.
  unfold trimEnd. destruct (trimStart_suffix (rev s)) as [pre H].
  exists (rev pre). rewrite <- rev_app_distr, <- H. now rewrite rev_involutive.
Qed.

Lemma trimEnd_last (s front : jsstring) (c : N) :
  trimEnd s = front ++ [c] -> is_space c = false.
Proof.
  unfold trimEnd. intros H. apply (f_equal (@rev N)) in H.
  rewrite rev_involutive, rev_app_distr in H. simpl in H.
  exact (trimStart_head _ _ _ H).
Qed.

Lemma trim_head (s : jsstring) (c : N) (rest : jsstring) :
  trim s = c :: rest -> is_space c = false.
Proof.
  unfold trim. intros H. destruct (trimEnd_prefix (trimStart s)) as [suf E].
  rewrite H in E. simpl in E. exact (trimStart_head _ _ _ E).
Qed.

Lemma trim_last (s front : jsstring) (c : N) :
  trim s = front ++ [c] -> is_space c = false.
Proof. unfold trim. apply trimEnd_last. Qed.

Section WithService.

Variable chat_completion : jsstring -> nat -> Exc (option jsstring).
Variable JSON_parse : jsstring -> Exc Reported.

(** X14. A summary returned by [summarizeEmail] is never empty and neither
    starts nor ends with white space: it is the trimmed answer of the first
    of the at most four attempts that yields a non-blank answer, every
    earlier attempt having failed. *)
Theorem summary_first_nonblank (email : EmailData) (s : jsstring) :
  summarizeEmail chat_completion email = Ok s ->
  s <> []
  /\ (forall c rest, s = c :: rest -> is_space c = false)
  /\ (forall front c, s = front ++ [c] -> is_space c = false)
  /\ exists n content,
       1 <= n <= 4
       /\ chat_completion (summarize_prompt email) n = Ok (Some content)
       /\ s = trim content
       /\ forall m, 1 <= m < n ->
                    exists e, summarize_attempt chat_completion email m
                              = Throw e.
Proof.
  intros H. apply pRetry_from_ok_iff in H as (n & Hn & Hf & Hj).
  unfold summarize_attempt in Hf.
  destruct (chat_completion (summarize_prompt email) n)
    as [[content|]|e] eqn:Ec; simpl in Hf; try discriminate.
  destruct (truthy (trim content)) eqn:Et; [|discriminate].
  inversion Hf; subst s. split.
  { intros E. rewrite E in Et. discriminate Et. }
  split; [intros c rest E; exact (trim_head _ _ _ E)|].
  split; [intros front c E; exact (trim_last _ _ _ E)|].
  exists n, content. split; [lia|]. split; [exact Ec|].
  split; [reflexivity|]. intros j Hjn.
  destruct (Hj j Hjn) as [e [He _]]. now exists e.
Qed.

(** X15. [classifyEmail] gives up after at most four attempts.  The error
    it throws is the error of an attempt made after attempts that failed
    with errors that are retried; it throws exactly when one of the four
    attempts fails with a [TypeError], which is not retried, after such
    failures, or when all four attempts fail; and a [TypeError] is thrown at
    once, by the attempt that met it. *)
Theorem classification_gives_up_after_four (email : EmailData)
        (categories : list Category) :
  let attempt := classify_attempt chat_completion JSON_parse email
                                  categories in
  let retried (k : nat) :=
    forall j, 1 <= j < k ->
              exists e', attempt j = Throw e' /\ type_error e' = false in
  (forall e : exn,
      classifyEmail chat_completion JSON_parse email categories = Throw e ->
      exists k, 1 <= k <= 4 /\ attempt k = Throw e /\ retried k)
  /\ ((exists e : exn,
         classifyEmail chat_completion JSON_parse email categories = Throw e)
      <-> exists k e',
            1 <= k <= 4 /\ attempt k = Throw e' /\ retried k
            /\ (type_error e' = true \/ k = 4))
  /\ (forall (k : nat) (e : exn),
         1 <= k <= 4 -> attempt k = Throw e -> type_error e = true ->
         retried k ->
         classifyEmail chat_completion JSON_parse email categories = Throw e).
Proof.
  intros attempt retried. unfold classifyEmail, pRetry.
  fold attempt. split; [|split].
  - intros e H. apply pRetry_from_throw_iff in H as (k & Hk & Hf & Hj & _).
    exists k. split; [lia|]. split; [exact Hf|exact Hj].
  - split.
    + intros [e H]. apply pRetry_from_throw_iff in H as (k & Hk & Hf & Hj & Hl).
      exists k, e. split; [lia|]. split; [exact Hf|]. split; [exact Hj|].
      destruct Hl as [Hl|Hl]; [now left|right; lia].
    + intros (k & e & Hk & Hf & Hj & Hl). exists e.
      apply pRetry_from_throw_iff. exists k. split; [lia|].
      split; [exact Hf|]. split; [exact Hj|].
      destruct Hl as [Hl|Hl]; [now left|right; lia].
  - intros k e Hk Hf Ht Hj. apply pRetry_from_throw_iff. exists k.
    split; [lia|]. split; [exact Hf|]. split; [exact Hj|]. now left.
Qed.

End WithService.

(** X16. The prompts sent to the model are bounded in the body: whatever the
    size of the body, the classification prompt is at most 1015 code units
    (1000 of the body and the truncation mark) longer than the prompt of the
    same message with an empty body, and the summary prompt at most 1515. *)
Theorem prompts_bounded_in_body (email : EmailData)
        (categories : list Category) :
  List.length (classify_prompt email categories)
  <= List.length
       (classify_prompt {| subject := subject email; from := from email;
                           body := [] |} categories) + 1015
  /\ List.length (summarize_prompt email)
     <= List.length
          (summarize_prompt {| subject := subject email; from := from email;
                               body := [] |}) + 1515.
Proof.
  assert (Hmark : forall k : nat,
             List.length (if k <? List.length (body email)
                          then lit "... (truncated)" else []) <= 15).
  { intros k. destruct (k <? List.length (body email)); simpl; lia. }
  assert (F1 : List.length (firstn 1000 (body email)) <= 1000).
  { rewrite length_firstn. apply Nat.le_min_l. }
  assert (F2 : List.length (firstn 1500 (body email)) <= 1500).
  { rewrite length_firstn. apply Nat.le_min_l. }
  pose proof (Hmark 1000) as M1. pose proof (Hmark 1500) as M2.
  unfold classify_prompt, summarize_prompt, substring0.
  cbn [body subject from]. rewrite !firstn_nil.
  change (1000 <? List.length (@nil N)) with false.
  change (1500 <? List.length (@nil N)) with false.
  cbv zeta. rewrite !length_app. cbn [List.length].
  split; lia.
Qed.

Import Fixtures MoreFixtures.

Lemma summary_first_nonblank_witness :
  lit "A digest of the week." <> []
  /\ (forall c rest, lit "A digest of the week." = c :: rest ->
                     is_space c = false)
  /\ (forall front c, lit "A digest of the week." = front ++ [c] ->
                      is_space c = false)
  /\ exists n content,
       1 <= n <= 4
       /\ flaky (summarize_prompt mail) n = Ok (Some content)
       /\ lit "A digest of the week." = trim content
       /\ forall m, 1 <= m < n ->
                    exists e, summarize_attempt flaky mail m = Throw e.
Proof.
  apply (summary_first_nonblank flaky mail (lit "A digest of the week.")).
  vm_compute. reflexivity.
Defined.

(** The answer [null] parses, and reading its confidence is a [TypeError]:
    the first attempt is the only one. *)
Lemma classification_gives_up_after_four_witness :
  classifyEmail (answers "null") parse mail cats
  = Throw (TypeError
             (lit "Cannot read properties of null (reading 'confidence')")).
Proof.
  assert (H1 : 1 <= 1 <= 4) by lia.
  assert (Hj : forall j, 1 <= j < 1 ->
             exists e', classify_attempt (answers "null") parse mail cats j
                        = Throw e' /\ type_error e' = false)
    by (intros j Hj; lia).
  exact (proj2 (proj2 (classification_gives_up_after_four
                         (answers "null") parse mail cats))
               1 _ H1 eq_refl eq_refl Hj).
Defined.

End ClassifierMore.

(** ** Gmail normalizer: further properties *)

Module NormalizerMore.

Import Normalizer NormalizerProofs RegexAux RegexMore.

Lemma find_at_split {A} (f : A -> bool) (pre : list A) (q : A)
      (post : list A) :
  f q = true -> (forall x, In x pre -> f x = false) ->
  find f (pre ++ q :: post) = Some q.
Proof.
  intros Hq. induction pre as [|a pre IH]; intros Hp; simpl.
  - now rewrite Hq.
  - rewrite (Hp a (or_introl eq_refl)). apply IH. intros x Hx. apply Hp.
    now right.
Qed.

Lemma find_all_false {A} (f : A -> bool) (l : list A) :
  (forall x, In x l -> f x = false) -> find f l = None.
Proof.
  induction l as [|a l IH]; intros H; [reflexivity|].
  simpl. rewrite (H a (or_introl eq_refl)). apply IH.
  intros x Hx. apply H. now right.
Qed.

(** What a match of the pattern of [parseEmailMessage] looks like. *)
Lemma header_link_re_shape (m : jsstring) :
  Matches header_link_re m ->
  exists s rest,
    m = [60%N] ++ (lit "http" ++ s ++ lit "://" ++ rest) ++ [62%N]
    /\ (s = [] \/ s = [115%N])
    /\ forallb (fun c => negb (N.eqb 62 c)) rest = true.
Proof.
  intros H. unfold header_link_re in H. cbn [seq] in H.
  apply Matches_Cat_inv in H as (x1 & y1 & -> & H1 & H).
  apply Matches_Cls_inv in H1 as (c1 & -> & Hc1).
  cbn [cls_match] in Hc1. apply N.eqb_eq in Hc1. subst c1.
  apply Matches_Cat_inv in H as (x2 & y2 & -> & H2 & H).
  apply Matches_word_exact in H2. subst x2.
  apply Matches_Cat_inv in H as (x3 & y3 & -> & H3 & H).
  apply Matches_Cat_inv in H as (x4 & y4 & -> & H4 & H).
  apply Matches_word_exact in H4. subst x4.
  apply Matches_Cat_inv in H as (x5 & y5 & -> & H5 & H).
  apply Matches_Cls_inv in H as (c6 & -> & Hc6).
  cbn [cls_match] in Hc6. apply N.eqb_eq in Hc6. subst c6.
  unfold Plus in H5.
  apply Matches_Cat_inv in H5 as (x & y & -> & Hx & Hy).
  apply Matches_Cls_inv in Hx as (c & -> & Hc).
  apply Matches_Star_cls in Hy.
  exists x3, ([c] ++ y). split.
  { rewrite <- !app_assoc. reflexivity. }
  split.
  - apply Matches_Opt_inv in H3 as [->|H3]; [now left|].
    apply Matches_Cls_inv in H3 as (c3 & -> & Hc3).
    cbn [cls_match] in Hc3. apply N.eqb_eq in Hc3. subst c3. now right.
  - cbn [cls_match] in Hc. change (cls_match (NotLit 62)) with
      (fun c => negb (N.eqb 62 c)) in Hy.
    cbn [app forallb]. rewrite Hc. exact Hy.
Qed.

Lemma slice_bracketed (u : jsstring) :
  slice_1_m1 ([60%N] ++ u ++ [62%N]) = u.
Proof. simpl. apply removelast_last. Qed.

Section WithRuntime.

Variable decode_base64_utf8 : jsstring -> jsstring.
Variable toLowerCase : jsstring -> jsstring.

(** [extractBody] in terms of [Array.prototype.find]. *)
Lemma extractBody_eq (mt data : option jsstring)
      (parts : option (list MessagePart)) :
  extractBody decode_base64_utf8 (Part mt data parts)
  = let nested :=
      match parts with
      | Some ps =>
          match find (mime_is (lit "text/html")) ps with
          | Some q => extractBody decode_base64_utf8 q
          | None =>
              match find (mime_is (lit "text/plain")) ps with
              | Some q => extractBody decode_base64_utf8 q
              | None =>
                  match find (fun q => truthy (extractBody decode_base64_utf8 q))
                             ps with
                  | Some q => extractBody decode_base64_utf8 q
                  | None => []
                  end
              end
          end
      | None => []
      end in
    match data with
    | Some d => if truthy d then decode_base64_utf8 d else nested
    | None => nested
    end.
Proof.
  cbn [extractBody]. cbv zeta.
  assert (E : match parts with
      | Some ps =>
          match
            (fix find_mime (m : jsstring) (l : list MessagePart) {struct l} :
                 option jsstring :=
               match l with
               | [] => None
               | q :: l' =>
                   if mime_is m q
                   then Some (extractBody decode_base64_utf8 q)
                   else find_mime m l'
               end) (lit "text/html") ps
          with
          | Some r => r
          | None =>
              match
                (fix find_mime (m : jsstring) (l : list MessagePart) {struct l} :
                     option jsstring :=
                   match l with
                   | [] => None
                   | q :: l' =>
                       if mime_is m q
                       then Some (extractBody decode_base64_utf8 q)
                       else find_mime m l'
                   end) (lit "text/plain") ps
              with
              | Some r => r
              | None =>
                  (fix first_result (l : list MessagePart) : jsstring :=
                     match l with
                     | [] => []
                     | q :: l' =>
                         if truthy (extractBody decode_base64_utf8 q)
                         then extractBody decode_base64_utf8 q
                         else first_result l'
                     end) ps
              end
          end
      | None => []
      end
      = match parts with
      | Some ps =>
          match find (mime_is (lit "text/html")) ps with
          | Some q => extractBody decode_base64_utf8 q
          | None =>
              match find (mime_is (lit "text/plain")) ps with
              | Some q => extractBody decode_base64_utf8 q
              | None =>
                  match find (fun q => truthy (extractBody decode_base64_utf8 q))
                             ps with
                  | Some q => extractBody decode_base64_utf8 q
                  | None => []
                  end
              end
          end
      | None => []
      end).
  { destruct parts as [ps|]; [|reflexivity].
    assert (F : forall m l,
               (fix find_mime (m : jsstring) (l : list MessagePart) {struct l} :
                    option jsstring :=
                  match l with
                  | [] => None
                  | q :: l' =>
                      if mime_is m q
                      then Some (extractBody decode_base64_utf8 q)
                      else find_mime m l'
                  end) m l
               = option_map (extractBody decode_base64_utf8)
                            (find (mime_is m) l)).
    { intros m l. induction l as [|q l IH]; [reflexivity|].
      cbn [find]. destruct (mime_is m q); [reflexivity|exact IH]. }
    rewrite !F.
    assert (G : forall l,
               (fix first_result (l : list MessagePart) : jsstring :=
                  match l with
                  | [] => []
                  | q :: l' =>
                      if truthy (extractBody decode_base64_utf8 q)
                      then extractBody decode_base64_utf8 q
                      else first_result l'
                  end) l
               = match find (fun q => truthy (extractBody decode_base64_utf8 q))
                            l with
                 | Some q => extractBody decode_base64_utf8 q
                 | None => []
                 end).
    { intros l. induction l as [|q l IH]; [reflexivity|].
      cbn [find]. destruct (truthy (extractBody decode_base64_utf8 q));
        [reflexivity|exact IH]. }
    rewrite G.
    destruct (find (mime_is (lit "text/html")) ps); [reflexivity|].
    destruct (find (mime_is (lit "text/plain")) ps); reflexivity. }
  destruct data as [d|]; [destruct (truthy d); [reflexivity|]|]; exact E.
Qed.

(** X17. In a multipart message an HTML part is preferred: when the part
    has no data of its own, the body is that of its first [text/html] part,
    wherever it stands among the parts and whatever the other parts hold
    (also when it decodes to the empty string and a plain-text part has
    text). *)
Theorem html_part_preferred (mt data : option jsstring)
        (pre : list MessagePart) (q : MessagePart) (post : list MessagePart) :
  data = None \/ data = Some [] ->
  mime_is (lit "text/html") q = true ->
  (forall x, In x pre -> mime_is (lit "text/html") x = false) ->
  extractBody decode_base64_utf8 (Part mt data (Some (pre ++ q :: post)))
  = extractBody decode_base64_utf8 q.
Proof.
  intros Hd Hq Hpre. rewrite extractBody_eq. cbv zeta.
  rewrite (find_at_split _ pre q post Hq Hpre).
  destruct Hd as [->| ->]; reflexivity.
Qed.

(** X18. Without an HTML part the body is that of the first [text/plain]
    part; parts of other types standing before it (attachments, nested
    multiparts with content) are passed over. *)
Theorem plain_part_is_fallback (mt data : option jsstring)
        (pre : list MessagePart) (q : MessagePart) (post : list MessagePart) :
  data = None \/ data = Some [] ->
  (forall x, In x (pre ++ q :: post) -> mime_is (lit "text/html") x = false) ->
  mime_is (lit "text/plain") q = true ->
  (forall x, In x pre -> mime_is (lit "text/plain") x = false) ->
  extractBody decode_base64_utf8 (Part mt data (Some (pre ++ q :: post)))
  = extractBody decode_base64_utf8 q.
Proof.
  intros Hd Hh Hq Hpre. rewrite extractBody_eq. cbv zeta.
  rewrite (find_all_false _ _ Hh).
  rewrite (find_at_split _ pre q post Hq Hpre).
  destruct Hd as [->| ->]; reflexivity.
Qed.

(** X19. The unsubscribe target [parseEmailMessage] records: the method is
    [header] exactly when a link is recorded and [none] otherwise; a
    recorded link starts with [http://] or [https://], holds no [>] and
    stands between angle brackets in the List-Unsubscribe header.  A header
    that lists only a [mailto:] address yields no link. *)
Theorem recorded_link_is_http (message : Message) :
  let e := parseEmailMessage decode_base64_utf8 toLowerCase message in
  (unsubscribeMethod e = lit "header" /\ unsubscribeLink e <> None
   \/ unsubscribeMethod e = lit "none" /\ unsubscribeLink e = None)
  /\ forall u,
       unsubscribeLink e = Some u ->
       (startsWith (lit "http://") u = true
        \/ startsWith (lit "https://") u = true)
       /\ ~ In 62%N u
       /\ exists pre post,
            headers_listUnsubscribe e
            = pre ++ [60%N] ++ u ++ [62%N] ++ post.
Proof.
  unfold parseEmailMessage.
  set (hs := match payload_headers message with Some h => h | None => [] end).
  set (lu := getHeader toLowerCase hs (lit "List-Unsubscribe")).
  destruct (truncate (getEmailBody decode_base64_utf8 message)) as [b f].
  destruct (truthy lu).
  2:{ cbn. split; [right; auto|]. intros u H. discriminate H. }
  unfold header_link.
  destruct (search header_link_re lu) as [[m rest]|] eqn:E.
  2:{ cbn. split; [right; auto|]. intros u H. discriminate H. }
  cbn. split; [left; split; [reflexivity|discriminate]|].
  intros u H. inversion H; subst u. clear H.
  apply search_sound in E as (pre & -> & M).
  apply header_link_re_shape in M as (s & body & -> & Hs & Hb).
  rewrite slice_bracketed. split; [|split].
  - destruct Hs as [->| ->]; [left|right]; reflexivity.
  - intros Hin. rewrite !in_app_iff in Hin.
    assert (Hbody : ~ In 62%N body).
    { intros Hi. rewrite forallb_forall in Hb. specialize (Hb _ Hi).
      discriminate Hb. }
    destruct Hin as [Hin|[Hin|[Hin|Hin]]].
    + cbv in Hin. repeat (destruct Hin as [Hin|Hin]; [discriminate Hin|]).
      exact Hin.
    + destruct Hs as [->| ->]; [exact Hin|].
      destruct Hin as [Hin|[]]. discriminate Hin.
    + cbv in Hin. repeat (destruct Hin as [Hin|Hin]; [discriminate Hin|]).
      exact Hin.
    + exact (Hbody Hin).
  - exists pre, rest. rewrite <- !app_assoc. reflexivity.
Qed.

End WithRuntime.

Import Fixtures MoreFixtures.

Lemma html_part_preferred_witness :
  extractBody decode_base64_utf8 alternative = lit "<b>hi</b>".
Proof.
  apply (html_part_preferred decode_base64_utf8
           (Some (lit "multipart/alternative")) None
           [Part (Some (lit "text/plain")) (Some (lit "aGVsbG8=")) None]
           (Part (Some (lit "text/html")) (Some (lit "PGI+aGk8L2I+")) None)
           []).
  - left. reflexivity.
  - reflexivity.
  - intros x [<-|[]]. reflexivity.
Defined.

Lemma plain_part_is_fallback_witness :
  extractBody decode_base64_utf8 with_attachment = lit "hello".
Proof.
  apply (plain_part_is_fallback decode_base64_utf8
           (Some (lit "multipart/mixed")) None
           [Part (Some (lit "application/pdf")) None None]
           (Part (Some (lit "text/plain")) (Some (lit "aGVsbG8=")) None)
           []).
  - left. reflexivity.
  - intros x [<-|[<-|[]]]; reflexivity.
  - reflexivity.
  - intros x [<-|[]]. reflexivity.
Defined.

End NormalizerMore.

(** ** Sync coordinator: further properties *)

Module SyncMore.

Import Normalizer Sync SyncProofs.

Lemma findUnique_Some_in (d : Table) (gid : jsstring) (row : Row) :
  findUnique d gid = Some row -> In gid (ids d).
Proof.
  unfold findUnique. intros H. apply find_some in H as [Hin He].
  apply str_eqb_eq in He. subst gid. unfold ids. now apply in_map.
Qed.

Lemma in_ids_found (d : Table) (gid : jsstring) :
  In gid (ids d) -> exists row, findUnique d gid = Some row.
Proof.
  intros H. destruct (findUnique d gid) as [row|] eqn:E; [now exists row|].
  apply findUnique_None in E. contradiction.
Qed.

Lemma commit_appends (rows : list Row) (d : Table) :
  exists added, commit d rows = d ++ added /\ (rows = [] -> added = []).
Proof.
  unfold commit. revert d. induction rows as [|r rows IH]; intros d.
  - exists []. simpl. now rewrite app_nil_r.
  - simpl. destruct (create d r) as [d'|err] eqn:E.
    + apply create_ok in E as [-> _]. destruct (IH (d ++ [r])) as (a & Ha & _).
      exists (r :: a). rewrite Ha, <- app_assoc. split; [reflexivity|].
      intros H; discriminate H.
    + destruct (IH d) as (a & Ha & _). exists a. split; [exact Ha|].
      intros H; discriminate H.
Qed.

Lemma is_P2002_P2002 : is_P2002 P2002 = true.
Proof. reflexivity. Qed.

Section WithWorld.

Variable world : World.
Variable account : Account.
Variable categories : list Classifier.Category.

(** The state after summary and classification. *)
Lemma ai_step_effect (e : Email) (st : St) :
  let '(summary, categoryId, st1) := ai_step world categories e st in
  db st1 = db st
  /\ accountNewEmails st1 = accountNewEmails st
  /\ archive_calls st1 = archive_calls st
  /\ (exists lines, console_error st1 = console_error st ++ lines)
  /\ accountProcessed st <= accountProcessed st1
  /\ ((exists s c,
          Classifier.summarizeEmail (chat_completion world) (email_data e)
          = Ok s
          /\ Classifier.classifyEmail (chat_completion world)
               (JSON_parse world) (email_data e) categories = Ok c) ->
      accountProcessed st1 = S (accountProcessed st)).
Proof.
  unfold ai_step.
  destruct (Classifier.summarizeEmail _ _) as [s|err];
    cbn [db accountNewEmails accountProcessed console_error archive_calls].
  - destruct (Classifier.classifyEmail _ _ _ _) as [c|err];
      cbn [db accountNewEmails accountProcessed console_error archive_calls].
    + repeat split; auto. exists []. now rewrite app_nil_r.
    + repeat split; auto; [eexists; reflexivity|].
      intros (s' & c' & _ & H). discriminate H.
  - repeat split; auto; [eexists; reflexivity|].
    intros (s' & c' & H & _). discriminate H.
Qed.

(** What one iteration of the loop does to the state. *)
Lemma process_email_effect (st : St) (e : Email) :
  let st' := process_email world account categories st e in
  exists added calls lines,
    db st' = db st ++ added
    /\ archive_calls st' = archive_calls st ++ calls
    /\ accountNewEmails st' = accountNewEmails st + List.length calls
    /\ console_error st' = console_error st ++ lines
    /\ accountProcessed st <= accountProcessed st'
    /\ (create_fault world (gmailId e) = None ->
        In (gmailId e) (ids (db st')))
    /\ (concurrent world (gmailId e) = [] ->
        ids added = calls
        /\ Forall (fun r => r_archived r = false
                            /\ r_gmailAccountId r = acc_id account) added).
Proof.
  unfold process_email, try_email.
  destruct (detector_returns world e) as [info ->].
  destruct (with_body_link_id e info) as [Hid _]. rewrite Hid.
  destruct (findUnique (db st) (gmailId e)) as [row|] eqn:Ef.
  { exists [], [], []. rewrite !app_nil_r, Nat.add_0_r.
    repeat split; auto. intros _. exact (findUnique_Some_in _ _ _ Ef). }
  pose proof (ai_step_effect (with_body_link e info) st) as Hai.
  destruct (ai_step world categories (with_body_link e info) st)
    as [[summary categoryId] st1].
  destruct Hai as (Hdb & Hnew & Harch & [lines Hlog] & Hproc & _).
  destruct (commit_appends (concurrent world (gmailId e)) (db st1))
    as (a1 & Ha1 & Hnil).
  rewrite Hdb in Ha1.
  destruct (create_fault world (gmailId e)) as [err|] eqn:Efault.
  { assert (Hst : exists lines',
               let st' := if is_P2002 err
                          then set_db st1 (commit (db st1)
                                             (concurrent world (gmailId e)))
                          else {| db := commit (db st1)
                                          (concurrent world (gmailId e));
                                  accountNewEmails := accountNewEmails st1;
                                  accountProcessed := accountProcessed st1;
                                  console_error :=
                                    console_error st1
                                    ++ [ProcessingError (gmailId e) err];
                                  archive_calls := archive_calls st1 |} in
               db st' = db st ++ a1
               /\ archive_calls st' = archive_calls st
               /\ accountNewEmails st' = accountNewEmails st
               /\ console_error st' = console_error st ++ lines'
               /\ accountProcessed st <= accountProcessed st').
    { destruct (is_P2002 err); cbn.
      - exists lines. rewrite Hdb. auto.
      - exists (lines ++ [ProcessingError (gmailId e) err]).
        rewrite Hdb, Hlog, <- app_assoc. auto. }
    destruct Hst as (lines' & H1 & H2 & H3 & H4 & H5).
    exists a1, [], lines'. rewrite !app_nil_r, Nat.add_0_r.
    split; [exact H1|]. split; [exact H2|]. split; [exact H3|].
    split; [exact H4|]. split; [exact H5|].
    split; [intros H; discriminate H|].
    intros H. rewrite (Hnil H). split; [reflexivity|constructor]. }
  cbn [set_db db].
  destruct (create _ _) as [db'|err] eqn:Ec.
  - apply create_ok in Ec as [-> _].
    cbn [set_db db archive_calls accountNewEmails accountProcessed
         console_error].
    exists (a1 ++ [new_row account (with_body_link e info) summary categoryId]),
      [gmailId e], lines.
    rewrite Hdb, Ha1, <- app_assoc. rewrite Harch, Hnew, Hlog.
    split; [reflexivity|]. split; [reflexivity|].
    split; [simpl; lia|]. split; [reflexivity|]. split; [exact Hproc|].
    split.
    + intros _. unfold ids. rewrite !map_app. apply in_or_app. right.
      apply in_or_app. right. cbn. left. exact Hid.
    + intros H. rewrite (Hnil H). cbn. rewrite Hid. split; [reflexivity|].
      constructor; [split; reflexivity|constructor].
  - pose proof (create_throws _ _ _ Ec) as ->. rewrite is_P2002_P2002.
    cbn [set_db db archive_calls accountNewEmails accountProcessed
         console_error].
    exists a1, [], lines. rewrite Hdb, Ha1, !app_nil_r, Nat.add_0_r.
    split; [reflexivity|]. split; [exact Harch|]. split; [exact Hnew|].
    split; [exact Hlog|]. split; [exact Hproc|]. split.
    + intros _. unfold create in Ec. cbn [new_row r_gmailId] in Ec.
      destruct (findUnique (commit _ _) _) as [row|] eqn:Ef2;
        [|discriminate Ec].
      apply findUnique_Some_in in Ef2. rewrite Hid in Ef2.
      rewrite Hdb, Ha1 in Ef2. exact Ef2.
    + intros H. rewrite (Hnil H). split; [reflexivity|constructor].
Qed.

(** What the loop does to the state. *)
Lemma sync_emails_effect (emails : list Email) (st : St) :
  let st' := sync_emails world account categories emails st in
  exists added calls lines,
    db st' = db st ++ added
    /\ archive_calls st' = archive_calls st ++ calls
    /\ accountNewEmails st' = accountNewEmails st + List.length calls
    /\ console_error st' = console_error st ++ lines
    /\ accountProcessed st <= accountProcessed st'
    /\ ((forall e, In e emails -> create_fault world (gmailId e) = None) ->
        forall e, In e emails -> In (gmailId e) (ids (db st')))
    /\ ((forall e, In e emails -> concurrent world (gmailId e) = []) ->
        ids added = calls
        /\ Forall (fun r => r_archived r = false
                            /\ r_gmailAccountId r = acc_id account) added).
Proof.
  unfold sync_emails. revert st.
  induction emails as [|e rest IH]; intros st.
  - exists [], [], []. cbn. rewrite !app_nil_r, Nat.add_0_r.
    repeat split; auto. intros _ e [].
  - cbn [fold_left].
    destruct (process_email_effect st e)
      as (a1 & c1 & l1 & Hd1 & Ha1 & Hn1 & Hl1 & Hp1 & Hin1 & Hq1).
    destruct (IH (process_email world account categories st e))
      as (a2 & c2 & l2 & Hd2 & Ha2 & Hn2 & Hl2 & Hp2 & Hin2 & Hq2).
    cbv zeta. exists (a1 ++ a2), (c1 ++ c2), (l1 ++ l2).
    rewrite Hd2, Hd1, Ha2, Ha1, Hn2, Hn1, Hl2, Hl1, !app_assoc, length_app.
    split; [reflexivity|]. split; [reflexivity|]. split; [lia|].
    split; [reflexivity|]. split; [lia|]. split.
    + intros Hf x [<-|Hx].
      * rewrite <- Hd1. unfold ids. rewrite map_app. apply in_or_app. left.
        apply Hin1. apply Hf. now left.
      * rewrite <- Hd1, <- Hd2. apply Hin2; [|exact Hx].
        intros y Hy. apply Hf. now right.
    + intros Hc. destruct Hq1 as [E1 F1]; [apply Hc; now left|].
      destruct Hq2 as [E2 F2]; [intros y Hy; apply Hc; now right|].
      split; [unfold ids in *; now rewrite map_app, E1, E2|].
      apply Forall_app. auto.
Qed.

(** Messages that are all present leave the state as it is. *)
Lemma sync_emails_present (emails : list Email) (st : St) :
  (forall e, In e emails -> In (gmailId e) (ids (db st))) ->
  sync_emails world account categories emails st = st.
Proof.
  unfold sync_emails. induction emails as [|e rest IH]; intros H;
    [reflexivity|].
  cbn [fold_left].
  destruct (in_ids_found _ _ (H e (or_introl eq_refl))) as [row Hrow].
  rewrite (skip_existing world account categories st e row Hrow).
  apply IH. intros x Hx. apply H. now right.
Qed.

(** X20. The loop only appends to the table: the rows present before are
    neither changed nor removed, and the counters, the archive calls and the
    log only grow.  When no other writer interferes, the rows appended are
    exactly the messages counted as new, in order: each is archived in Gmail
    once, is stored unarchived and belongs to the account being synced. *)
Theorem rows_appended_and_counted (emails : list Email) (st : St) :
  let st' := sync_emails world account categories emails st in
  exists added calls,
    db st' = db st ++ added
    /\ archive_calls st' = archive_calls st ++ calls
    /\ accountNewEmails st' = accountNewEmails st + List.length calls
    /\ accountProcessed st <= accountProcessed st'
    /\ ((forall e, In e emails -> concurrent world (gmailId e) = []) ->
        ids added = calls
        /\ Forall (fun r => r_archived r = false
                            /\ r_gmailAccountId r = acc_id account) added).
Proof.
  destruct (sync_emails_effect emails st)
    as (a & c & l & Hd & Ha & Hn & _ & Hp & _ & Hq).
  exists a, c. auto.
Qed.

(** X21. The processed counter counts the messages whose summary and
    classification both succeeded, whether or not the row was stored: when
    the insert fails afterwards, the message is counted as processed, not as
    new; no row is written, nothing is archived, and the error is logged. *)
Theorem processed_counts_ai_not_rows (st : St) (e : Email) (s : jsstring)
        (c : Classifier.ClassificationResult) (err : exn) :
  findUnique (db st) (gmailId e) = None ->
  Classifier.summarizeEmail (chat_completion world) (email_data e) = Ok s ->
  Classifier.classifyEmail (chat_completion world) (JSON_parse world)
                           (email_data e) categories = Ok c ->
  concurrent world (gmailId e) = [] ->
  create_fault world (gmailId e) = Some err ->
  is_P2002 err = false ->
  process_email world account categories st e
  = {| db := db st;
       accountNewEmails := accountNewEmails st;
       accountProcessed := S (accountProcessed st);
       console_error :=
         console_error st ++ [ProcessingError (gmailId e) err];
       archive_calls := archive_calls st |}.
Proof.
  intros Hf Hs Hc Hconc Hfault Hp. unfold process_email, try_email.
  destruct (detector_returns world e) as [info ->].
  destruct (with_body_link_id e info) as [Hid Hdata]. rewrite Hid, Hf.
  unfold ai_step. rewrite Hdata, Hs, Hc, Hconc, Hfault, Hp. reflexivity.
Qed.

End WithWorld.

(** X22. A sync run whose inserts meet no database fault is idempotent on
    the table: running it again on its own result, with the same mailbox
    content, changes nothing, whatever the model and concurrent writers
    do. *)
Theorem fault_free_rerun_idempotent (d : Table) (r : Run) :
  (forall e, In e (run_emails r) ->
             create_fault (run_world r) (gmailId e) = None) ->
  run_sync (run_sync d r) r = run_sync d r.
Proof.
  intros Hf. unfold run_sync at 1.
  rewrite sync_emails_present; [reflexivity|].
  cbn [db]. unfold run_sync.
  destruct (sync_emails_effect (run_world r) (run_account r)
              (run_categories r) (run_emails r)
              {| db := d; accountNewEmails := 0; accountProcessed := 0;
                 console_error := []; archive_calls := [] |})
    as (_ & _ & _ & _ & _ & _ & _ & _ & Hin & _).
  exact (Hin Hf).
Qed.

Section Target.

Variable world : World.
Variable account : Account.
Variable categories : list Classifier.Category.
Variable decode_base64_utf8 : jsstring -> jsstring.

(** X23. When the detector's header tier answers, the row keeps the target
    the parser recorded and the body is not consulted: the stored link is
    the HTTP(S) link of the List-Unsubscribe header, with method [header],
    or nothing, with method [none].  So a message whose header lists only a
    mailto address is stored without a target even if its body holds an
    unsubscribe link. *)
Theorem header_hit_shadows_body_link (st : St) (message : Message)
        (u : jsstring) :
  let e := parseEmailMessage decode_base64_utf8 (toLowerCase world) message in
  Detector.extractFromHeader (headers_listUnsubscribe e) = Some u ->
  findUnique (db st) (gmailId e) = None ->
  create_fault world (gmailId e) = None ->
  concurrent world (gmailId e) = [] ->
  exists row,
    db (process_email world account categories st e) = db st ++ [row]
    /\ r_gmailId row = m_id message
    /\ r_unsubscribeLink row = header_link (headers_listUnsubscribe e)
    /\ r_unsubscribeMethod row
       = match header_link (headers_listUnsubscribe e) with
         | Some _ => lit "header"
         | None => lit "none"
         end.
Proof.
  intros e Hh Hf Hfault Hconc.
  assert (Hne : Detector.header_urls (headers_listUnsubscribe e) <> []).
  { rewrite DetectorProofs.extractFromHeader_find in Hh. intros E.
    rewrite E in Hh. discriminate Hh. }
  destruct (DetectorProofs.header_urls_nonempty _ Hne) as [Ht _].
  assert (Hu : truthy u = true).
  { rewrite DetectorProofs.extractFromHeader_find in Hh.
    destruct (find (startsWith (lit "http")) _) as [h|] eqn:E1.
    - inversion Hh; subst h. apply find_some in E1 as [_ E1].
      now apply DetectorProofs.starts_http_truthy.
    - apply find_some in Hh as [_ E2].
      apply startsWith_app in E2 as [t ->]. reflexivity. }
  assert (Hparse : gmailId e = m_id message
                   /\ unsubscribeLink e
                      = header_link (headers_listUnsubscribe e)
                   /\ unsubscribeMethod e
                      = match header_link (headers_listUnsubscribe e) with
                        | Some _ => lit "header"
                        | None => lit "none"
                        end).
  { revert Ht. unfold e, parseEmailMessage.
    generalize (getHeader (toLowerCase world)
                  match payload_headers message with
                  | Some hs => hs
                  | None => []
                  end (lit "List-Unsubscribe")) as lu.
    intros lu. destruct (truncate _) as [b f].
    destruct (truthy lu) eqn:Et.
    - destruct (header_link lu) eqn:El;
        cbn [headers_listUnsubscribe gmailId unsubscribeLink unsubscribeMethod];
        rewrite El; auto.
    - cbn [headers_listUnsubscribe]. intros H. rewrite H in Et.
      discriminate Et. }
  destruct Hparse as (Hid & Hlink & Hmeth).
  unfold process_email, try_email.
  unfold Detector.extractUnsubscribeInfo. cbn [Detector.listUnsubscribe].
  rewrite Ht, Hh, Hu. cbn [with_body_link Detector.method Detector.url].
  rewrite Hf.
  pose proof (ai_step_effect world categories e st) as Hai.
  destruct (ai_step world categories e st) as [[summary categoryId] st1].
  destruct Hai as (Hdb & _).
  rewrite Hconc, Hfault. cbn [commit fold_left set_db db].
  unfold create. cbn [new_row r_gmailId]. rewrite Hdb, Hf. cbn.
  eexists. split; [reflexivity|]. cbn. auto.
Qed.

End Target.

Import Fixtures MoreFixtures.

Lemma processed_counts_ai_not_rows_witness :
  process_email db_down inbox cats empty_state offers
  = {| db := db empty_state;
       accountNewEmails := accountNewEmails empty_state;
       accountProcessed := S (accountProcessed empty_state);
       console_error :=
         console_error empty_state
         ++ [ProcessingError (gmailId offers)
               (Error (lit "Can't reach database server") (Some (lit "P1001")))];
       archive_calls := archive_calls empty_state |}.
Proof.
  apply (processed_counts_ai_not_rows db_down inbox cats empty_state offers
           (lit "Weekly digest of the list.") (proposal (71 # 100)%Q)
           (Error (lit "Can't reach database server") (Some (lit "P1001"))));
    vm_compute; reflexivity.
Defined.

Lemma fault_free_rerun_idempotent_witness :
  run_sync (run_sync [] twice_fetched) twice_fetched
  = run_sync [] twice_fetched.
Proof.
  apply (fault_free_rerun_idempotent [] twice_fetched).
  intros e _. reflexivity.
Defined.

Lemma header_hit_shadows_body_link_witness :
  exists row,
    db (process_email answering inbox cats empty_state
          (parseEmailMessage decode_base64_utf8 ascii_lower mailto_message))
    = db empty_state ++ [row]
    /\ r_gmailId row = m_id mailto_message
    /\ r_unsubscribeLink row = None
    /\ r_unsubscribeMethod row = lit "none".
Proof.
  destruct (header_hit_shadows_body_link answering inbox cats
              decode_base64_utf8 empty_state mailto_message
              (lit "mailto:unsubscribe@example.com?subject=unsubscribe"))
    as (row & Hdb & Hid & Hl & Hm); try (vm_compute; reflexivity).
  exists row. split; [exact Hdb|]. split; [exact Hid|].
  split; [rewrite Hl|rewrite Hm]; vm_compute; reflexivity.
Defined.

End SyncMore.

(** ** Token vault: further properties *)

Module VaultMore.

Import Vault VaultAux VaultProofs.

Lemma startsWith_prefix_lit (p r : jsstring) : startsWith p (p ++ r) = true.
Proof.
  induction p as [|x p IH]; [reflexivity|]. simpl. now rewrite N.eqb_refl.
Qed.

Lemma try_catch_throw {A} (m : Exc A) (f : exn -> exn) (e : exn) :
  try_catch m (fun e0 => Throw (f e0)) = Throw e -> exists e0, e = f e0.
Proof.
  unfold try_catch. destruct m as [a|e0]; intros H; [discriminate H|].
  inversion H. now exists e0.
Qed.

Section Failures.

Context {C : Crypto}.

Variable ENCRYPTION_KEY : option jsstring.
Variable entropy : nat -> byte.

Lemma short_tag_refused (key iv tag encrypted : bytes) :
  List.length tag < 4 ->
  exists e, gcm_decrypt key iv tag encrypted = Throw e.
Proof.
  intros H. unfold gcm_decrypt. destruct iv; [eexists; reflexivity|].
  assert (E : valid_tag_length (List.length tag) = false).
  { destruct (List.length tag) as [|[|[|[|n]]]]; try reflexivity. lia. }
  rewrite E. eexists; reflexivity.
Qed.

(** X24. The vault fails closed.  Without a master key (unset or empty)
    [encrypt] throws 'Encryption failed: ENCRYPTION_KEY environment variable
    is not set' before any random byte is drawn, and [decrypt] throws the
    same with its own prefix; a blob that decodes to fewer than 84 bytes
    (salt, IV and the shortest accepted tag) is never decrypted; and every
    error of [decrypt] carries the prefix 'Decryption failed: '. *)
Theorem vault_fails_closed (text data : jsstring) (drawn : nat) :
  (ENCRYPTION_KEY = None \/ ENCRYPTION_KEY = Some [] ->
   encrypt ENCRYPTION_KEY entropy text drawn
   = (Throw (err "Encryption failed: ENCRYPTION_KEY environment variable is not set"),
      drawn)
   /\ decrypt ENCRYPTION_KEY data
      = Throw (err "Decryption failed: ENCRYPTION_KEY environment variable is not set"))
  /\ (List.length (from_base64 data) < 84 ->
      exists e, decrypt ENCRYPTION_KEY data = Throw e)
  /\ (forall e, decrypt ENCRYPTION_KEY data = Throw e ->
                startsWith (lit "Decryption failed: ") (message e) = true).
Proof.
  split; [|split].
  - intros [->| ->]; split; reflexivity.
  - intros Hlen. unfold decrypt, getEncryptionKey.
    destruct ENCRYPTION_KEY as [k|]; [|eexists; reflexivity].
    destruct (truthy k); [|eexists; reflexivity].
    cbn [JS.bind].
    destruct (short_tag_refused
                (pbkdf2Sync (from_base64 k)
                            (subarray 0 SALT_LENGTH (from_base64 data)))
                (subarray SALT_LENGTH TAG_POSITION (from_base64 data))
                (subarray TAG_POSITION ENCRYPTED_POSITION (from_base64 data))
                (subarray_from ENCRYPTED_POSITION (from_base64 data)))
      as [e He].
    { unfold subarray. rewrite length_firstn, length_skipn.
      change TAG_POSITION with 80. change ENCRYPTED_POSITION with 96. lia. }
    rewrite He. eexists. reflexivity.
  - intros e H. unfold decrypt in H.
    apply try_catch_throw in H as [e0 ->]. unfold wrap. cbn [message].
    apply startsWith_prefix_lit.
Qed.

End Failures.

Section Generated.

Context {C : Crypto} {L : CryptoLaws C}.

Variable entropy : nat -> byte.

(** X25. A key made by [generateEncryptionKey] configures the vault: it is
    thirty-two fresh random bytes in base64, [getEncryptionKey] accepts it
    and recovers those bytes, and under it [decrypt] opens what [encrypt]
    sealed. *)
Theorem generated_key_configures_vault (drawn : nat) (text : jsstring)
        (drawn' : nat) :
  from_base64 [] = [] ->
  let key := fst (generateEncryptionKey entropy drawn) in
  snd (generateEncryptionKey entropy drawn) = drawn + 32
  /\ getEncryptionKey (Some key) = Ok (map entropy (List.seq drawn 32))
  /\ exists out,
       fst (encrypt (Some key) entropy text drawn') = Ok out
       /\ decrypt (Some key) out = Ok (utf8_decode (utf8_encode text)).
Proof.
  intros Hempty key. unfold generateEncryptionKey in *.
  cbn [randomBytes fst snd] in *.
  assert (Hk : truthy key = true).
  { destruct key eqn:E; [|reflexivity]. exfalso.
    assert (H : from_base64 key = map entropy (List.seq drawn 32))
      by (unfold key; apply base64_roundtrip).
    rewrite E, Hempty in H. apply (f_equal (@List.length byte)) in H.
    rewrite length_map, length_seq in H. discriminate H. }
  split; [reflexivity|]. split.
  - unfold getEncryptionKey. rewrite Hk. unfold key.
    now rewrite base64_roundtrip.
  - eexists. rewrite (encrypt_sealed key Hk). split; [reflexivity|].
    now rewrite (decrypt_encrypt_transcodes key Hk).
Qed.

End Generated.

Import Fixtures.

Lemma generated_key_configures_vault_witness :
  exists out,
    fst (encrypt (C := toy)
           (Some (fst (generateEncryptionKey (C := toy) Fixtures.entropy 0)))
           Fixtures.entropy (lit "ya29.access-token") 32)
    = Ok out
    /\ decrypt (C := toy)
         (Some (fst (generateEncryptionKey (C := toy) Fixtures.entropy 0))) out
       = Ok (utf8_decode (utf8_encode (lit "ya29.access-token"))).
Proof.
  apply (generated_key_configures_vault (C := toy) (L := toy_laws)
           Fixtures.entropy 0 (lit "ya29.access-token") 32).
  reflexivity.
Defined.

End VaultMore.

(** ** Database connection: properties *)

Module DbMore.

Import Db.

Lemma delay_cases (i : nat) :
  (delay i <= 10000)%N
  /\ (i <= 3 -> delay i = (1000 * 2 ^ N.of_nat i)%N)
  /\ (4 <= i -> delay i = 10000%N).
Proof.
  unfold delay. split; [apply N.le_min_r|]. split.
  - intros H. apply N.min_l.
    assert (E : (2 ^ N.of_nat i <= 2 ^ 3)%N)
      by (apply N.pow_le_mono_r; lia).
    change (2 ^ 3)%N with 8%N in E. lia.
  - intros H. apply N.min_r.
    assert (E : (2 ^ 4 <= 2 ^ N.of_nat i)%N)
      by (apply N.pow_le_mono_r; lia).
    change (2 ^ 4)%N with 16%N in E. lia.
Qed.

Section WithServer.

Variable connect : nat -> Exc unit.

Lemma connect_loop_step (retries i r : nat) (t : list Event) :
  connect_loop connect retries i (S r) t
  = match connect i with
    | Ok _ => (Ok tt, t ++ [EConnect])
    | Throw _ =>
        connect_loop connect retries (S i) r
          (t ++ [EConnect]
             ++ (if i <? retries - 1 then [ESleep (delay i)] else []))
    end.
Proof. reflexivity. Qed.

Lemma connect_loop_success (retries k : nat) :
  forall i t,
    i + k < retries ->
    (forall j, i <= j < i + k -> exists e, connect j = Throw e) ->
    connect (i + k) = Ok tt ->
    connect_loop connect retries i (retries - i) t
    = (Ok tt, t ++ failed_attempts i k ++ [EConnect]).
Proof.
  induction k as [|k IH]; intros i t Hlt Hfail Hok.
  - rewrite Nat.add_0_r in Hok.
    destruct (retries - i) as [|r] eqn:E; [lia|].
    rewrite connect_loop_step, Hok. reflexivity.
  - destruct (retries - i) as [|r] eqn:E; [lia|].
    rewrite connect_loop_step. destruct (Hfail i) as [e He]; [lia|].
    rewrite He.
    assert (Hi : (i <? retries - 1) = true) by (apply Nat.ltb_lt; lia).
    rewrite Hi. replace r with (retries - S i) by lia.
    rewrite IH.
    + unfold failed_attempts. cbn [List.seq flat_map].
      rewrite <- !app_assoc. reflexivity.
    + lia.
    + intros j Hj. apply Hfail. lia.
    + now replace (S i + k) with (i + S k) by lia.
Qed.

Lemma connect_loop_exhausted (retries : nat) :
  forall remaining i t,
    i + S remaining = retries ->
    (forall j, i <= j < retries -> exists e, connect j = Throw e) ->
    connect_loop connect retries i (S remaining) t
    = (Throw (Error (lit "Failed to connect to database after multiple attempts")
                    None),
       t ++ failed_attempts i remaining ++ [EConnect]).
Proof.
  induction remaining as [|r IH]; intros i t Hi Hfail.
  - rewrite connect_loop_step. destruct (Hfail i) as [e He]; [lia|].
    rewrite He.
    assert (E : (i <? retries - 1) = false) by (apply Nat.ltb_ge; lia).
    rewrite E. rewrite app_nil_r. reflexivity.
  - rewrite connect_loop_step. destruct (Hfail i) as [e He]; [lia|].
    rewrite He.
    assert (E : (i <? retries - 1) = true) by (apply Nat.ltb_lt; lia).
    rewrite E.
    rewrite (IH (S i)); [|lia|intros j Hj; apply Hfail; lia].
    unfold failed_attempts. cbn [List.seq flat_map].
    rewrite <- !app_assoc. reflexivity.
Qed.

(** X26. [connectDatabase] backs off and gives up.  When the attempt of
    iteration [k] is the first to succeed, it returns after [k + 1] calls of
    [$connect] with a pause after each failed one; when all [retries]
    attempts fail it throws 'Failed to connect to database after multiple
    attempts' without pausing after the last one (and with no retries
    allowed it throws without connecting at all).  The pauses are 1000,
    2000, 4000 and 8000 ms and 10000 ms from the fifth on. *)
Theorem connect_backs_off (retries : nat) :
  (forall k,
      k < retries ->
      (forall j, j < k -> exists e, connect j = Throw e) ->
      connect k = Ok tt ->
      connectDatabase connect retries
      = (Ok tt, failed_attempts 0 k ++ [EConnect]))
  /\ ((forall j, j < retries -> exists e, connect j = Throw e) ->
      connectDatabase connect retries
      = (Throw (Error (lit "Failed to connect to database after multiple attempts")
                      None),
         match retries with
         | O => []
         | S r => failed_attempts 0 r ++ [EConnect]
         end))
  /\ (forall i, (delay i <= 10000)%N
                /\ (i <= 3 -> delay i = (1000 * 2 ^ N.of_nat i)%N)
                /\ (4 <= i -> delay i = 10000%N)).
Proof.
  split; [|split].
  - intros k Hk Hfail Hok. unfold connectDatabase.
    replace retries with (retries - 0) at 2 by lia.
    rewrite (connect_loop_success retries k 0 []); auto.
    intros j Hj. apply Hfail. lia.
  - intros Hfail. unfold connectDatabase. destruct retries as [|r];
      [reflexivity|].
    rewrite (connect_loop_exhausted (S r) r 0 []); auto.
    intros j Hj. apply Hfail. lia.
  - apply delay_cases.
Qed.

End WithServer.

Import MoreFixtures.

Lemma connect_backs_off_witness :
  connectDatabase third_time 5
  = (Ok tt, [EConnect; ESleep 1000; EConnect; ESleep 2000; EConnect]).
Proof.
  destruct (connect_backs_off third_time 5) as [H _].
  apply (H 2).
  - lia.
  - intros j Hj. destruct j as [|[|j]]; [eexists; reflexivity ..|lia].
  - reflexivity.
Defined.

End DbMore.

(** ** Gmail client and fetch: properties *)

Module GmailMore.

Import Vault Normalizer Gmail VaultProofs BufferProofs.

Lemma has_In (ids : list jsstring) (id : jsstring) :
  has ids id = true <-> In id ids.
Proof.
  unfold has. rewrite existsb_exists. split.
  - intros (x & Hx & E). apply str_eqb_eq in E. now subst.
  - intros H. exists id. split; [exact H | apply str_eqb_refl].
Qed.

Lemma update_tokens_kept (accounts : list GmailAccount) (id : jsstring)
      (accessToken : Maybe jsstring) (expiresAt : option N) :
  map kept (update_tokens accounts id accessToken expiresAt)
  = map kept accounts.
Proof.
  unfold update_tokens. rewrite map_map. apply map_ext. intros a.
  destruct (str_eqb (ga_id a) id); reflexivity.
Qed.

Lemma update_tokens_others (accounts : list GmailAccount) (id : jsstring)
      (accessToken : Maybe jsstring) (expiresAt : option N) :
  filter (fun a => negb (str_eqb (ga_id a) id))
         (update_tokens accounts id accessToken expiresAt)
  = filter (fun a => negb (str_eqb (ga_id a) id)) accounts.
Proof.
  unfold update_tokens. induction accounts as [|a l IH]; [reflexivity|].
  cbn [map filter]. destruct (str_eqb (ga_id a) id) eqn:E.
  - cbn [ga_id]. rewrite E. exact IH.
  - rewrite E. cbn [negb]. now rewrite IH.
Qed.

Lemma parse_id (decode lower : jsstring -> jsstring) (m : Message) :
  gmailId (parseEmailMessage decode lower m) = m_id m.
Proof.
  unfold parseEmailMessage. destruct (truncate _) as [b f].
  destruct (truthy _); [destruct (header_link _)|]; reflexivity.
Qed.

Section WithRuntime.

Context {C : Crypto}.

Variable ENCRYPTION_KEY : option jsstring.
Variable decode_base64_utf8 : jsstring -> jsstring.
Variable toLowerCase : jsstring -> jsstring.

(** X27. [getGmailClient] changes nothing of the account table but the
    access token and its expiry of the account asked for, and that only
    after a successful refresh of a token that had expired: ids, active
    flags, sealed refresh tokens and sync marks are kept, the other accounts
    are untouched, and every error (unknown or inactive account, a refresh
    token that cannot be decrypted, a failed refresh or update) leaves the
    table as it was. *)
Theorem refresh_touches_only_tokens (world : World)
        (accounts : list GmailAccount) (id : jsstring) :
  let out := getGmailClient ENCRYPTION_KEY world accounts id in
  map kept (snd out) = map kept accounts
  /\ filter (fun a => negb (str_eqb (ga_id a) id)) (snd out)
     = filter (fun a => negb (str_eqb (ga_id a) id)) accounts
  /\ (forall e, fst out = Throw e -> snd out = accounts)
  /\ (snd out <> accounts ->
      exists account expiresAt credentials,
        findAccount accounts id = Some account
        /\ ga_isActive account = true
        /\ ga_expiresAt account = Some expiresAt
        /\ (expiresAt <= now world)%N
        /\ fst out = Ok credentials).
Proof.
  unfold getGmailClient.
  destruct (findAccount accounts id) as [account|] eqn:Ef;
    [|cbn; repeat split; auto; intros H; now contradiction H].
  destruct (ga_isActive account) eqn:Ea; cbn [negb];
    [|cbn; repeat split; auto; intros H; now contradiction H].
  destruct (decrypt ENCRYPTION_KEY (ga_refreshToken account)) as [rt|e0];
    [|cbn; repeat split; auto; intros H; now contradiction H].
  cbv zeta.
  destruct (ga_expiresAt account) as [ts|] eqn:Ee;
    [|cbn; repeat split; auto; intros H; now contradiction H].
  destruct (N.leb_spec ts (now world)) as [Hle|Hgt];
    [|cbn; repeat split; auto; intros H; now contradiction H].
  destruct (refreshAccessToken world _) as [credentials|e1];
    [|cbn; repeat split; auto; intros H; now contradiction H].
  destruct (update_fault world);
    [cbn; repeat split; auto; intros H; now contradiction H|].
  cbn [fst snd]. split; [apply update_tokens_kept|].
  split; [apply update_tokens_others|].
  split; [intros e H; discriminate H|].
  intros _. exists account, ts, credentials. auto.
Qed.

(** The stored ids are the ones filtered out. *)
Lemma new_only (stored : Sync.Table) (valid : list Message) :
  filter (fun email =>
            negb (has (map Sync.r_gmailId
                           (filter (fun r => has (map m_id valid)
                                                 (Sync.r_gmailId r)) stored))
                      (m_id email)))
         valid
  = filter (fun email => negb (has (Sync.ids stored) (m_id email))) valid.
Proof.
  apply filter_ext_in. intros m Hm. f_equal.
  apply eq_true_iff_eq. rewrite !has_In. unfold Sync.ids.
  rewrite !in_map_iff. split.
  - intros (r & Hr & Hin). apply filter_In in Hin as [Hin _]. eauto.
  - intros (r & Hr & Hin). exists r. split; [exact Hr|].
    apply filter_In. split; [exact Hin|]. apply has_In. rewrite Hr.
    now apply in_map.
Qed.

Lemma fetch_attempt_ok (world : World) (stored : Sync.Table) (id : jsstring)
      (maxResults : nat) (accounts : list GmailAccount)
      (emails : list Email) :
  fst (fetch_attempt ENCRYPTION_KEY decode_base64_utf8 toLowerCase world
                     stored id maxResults accounts) = Ok emails ->
  exists account listed,
    findAccount (snd (getGmailClient ENCRYPTION_KEY world accounts id)) id
    = Some account
    /\ messages_list world (query world account) maxResults = Ok listed
    /\ emails
       = map (parseEmailMessage decode_base64_utf8 toLowerCase)
             (filter (fun m => negb (has (Sync.ids stored) (m_id m)))
                     (fetch_all world (match listed with
                                       | Some ms => ms
                                       | None => []
                                       end))).
Proof.
  unfold fetch_attempt.
  destruct (getGmailClient ENCRYPTION_KEY world accounts id)
    as [[gmail|e] accounts1]; [|intros H; discriminate H].
  cbn [snd].
  destruct (findAccount accounts1 id) as [account|];
    [|intros H; discriminate H].
  destruct (messages_list world (query world account) maxResults)
    as [listed|e] eqn:El; [|intros H; discriminate H].
  cbv zeta.
  destruct (match listed with Some ms => ms | None => [] end)
    as [|m0 ms] eqn:Em.
  - cbn [fst]. intros H. inversion H; subst emails.
    exists account, listed. rewrite Em. auto.
  - destruct (findMany_fault world); [intros H; discriminate H|].
    cbn [fst]. intros H. inversion H; subst emails.
    exists account, listed. rewrite Em, new_only. auto.
Qed.

Lemma fetch_retry_ok (world : nat -> World) (stored : Sync.Table)
      (id : jsstring) (maxResults : nat) (emails : list Email) :
  forall retriesLeft attemptNumber accounts,
    fst (fetch_retry ENCRYPTION_KEY decode_base64_utf8 toLowerCase world
                     stored id maxResults attemptNumber retriesLeft accounts)
    = Ok emails ->
    exists n accounts0,
      attemptNumber <= n <= attemptNumber + retriesLeft
      /\ fst (fetch_attempt ENCRYPTION_KEY decode_base64_utf8 toLowerCase
                            (world n) stored id maxResults accounts0)
         = Ok emails.
Proof.
  induction retriesLeft as [|r IH]; intros n accounts; cbn [fetch_retry].
  - destruct (fetch_attempt _ _ _ _ _ _ _ _) as [[em|e] accounts1] eqn:E.
    + cbn [fst]. intros H. exists n, accounts. rewrite E. split; [lia|exact H].
    + destruct (type_error e); intros H; discriminate H.
  - destruct (fetch_attempt _ _ _ _ _ _ _ _) as [[em|e] accounts1] eqn:E.
    + cbn [fst]. intros H. exists n, accounts. rewrite E. split; [lia|exact H].
    + destruct (type_error e); [intros H; discriminate H|].
      intros H. destruct (IH _ _ H) as (k & a0 & Hk & Hok).
      exists k, a0. split; [lia|exact Hok].
Qed.

(** X28. What [fetchNewEmails] returns comes from one of at most four
    attempts and is the listing of that attempt, in order, without the
    messages that could not be fetched and without those whose id is
    already stored, each parsed: no returned message has a stored id, and
    every one was fetched under an id of the listing. *)
Theorem fetched_emails_are_new (world : nat -> World) (stored : Sync.Table)
        (id : jsstring) (maxResults : nat) (accounts : list GmailAccount)
        (emails : list Email) :
  fst (fetchNewEmails ENCRYPTION_KEY decode_base64_utf8 toLowerCase world
                      stored id maxResults accounts) = Ok emails ->
  exists n account listed,
    1 <= n <= 4
    /\ ga_id account = id
    /\ messages_list (world n) (query (world n) account) maxResults
       = Ok listed
    /\ emails
       = map (parseEmailMessage decode_base64_utf8 toLowerCase)
             (filter (fun m => negb (has (Sync.ids stored) (m_id m)))
                     (fetch_all (world n) (match listed with
                                           | Some ms => ms
                                           | None => []
                                           end)))
    /\ (forall e, In e emails -> ~ In (gmailId e) (Sync.ids stored))
    /\ (forall e, In e emails ->
                  exists mid m,
                    In mid (match listed with Some ms => ms | None => [] end)
                    /\ messages_get (world n) mid = Ok m
                    /\ e = parseEmailMessage decode_base64_utf8 toLowerCase m).
Proof.
  intros H. unfold fetchNewEmails in H.
  apply fetch_retry_ok in H as (n & accounts0 & Hn & H).
  apply fetch_attempt_ok in H as (account & listed & Hf & Hl & He).
  exists n, account, listed. split; [lia|]. split.
  { unfold findAccount in Hf. apply find_some in Hf as [_ Hf].
    now apply str_eqb_eq in Hf. }
  split; [exact Hl|]. split; [exact He|]. split.
  - intros e Hin. rewrite He in Hin. apply in_map_iff in Hin as (m & <- & Hm).
    apply filter_In in Hm as [_ Hm]. rewrite parse_id. intros Hs.
    apply has_In in Hs. rewrite Hs in Hm. discriminate Hm.
  - intros e Hin. rewrite He in Hin. apply in_map_iff in Hin as (m & <- & Hm).
    apply filter_In in Hm as [Hm _]. unfold fetch_all in Hm.
    apply in_flat_map in Hm as (mid & Hmid & Hget).
    destruct (messages_get (world n) mid) as [data|e0] eqn:Eg;
      [|contradiction].
    destruct Hget as [<-|[]]. exists mid, data. auto.
Qed.

End WithRuntime.

Section Sealed.

Context {C : Crypto} {L : CryptoLaws C}.

Variable key : jsstring.
Hypothesis key_set : truthy key = true.
Variable entropy : nat -> byte.

(** X29. The refresh token sealed by the vault is the one the OAuth client
    gets: for an active account whose stored token is the output of
    [encrypt] on a well-formed token, a client built while the access token
    is still valid carries that very token, with the stored access token,
    and the table is not written; when the access token has expired, it is
    that token the refresh is asked with. *)
Theorem sealed_token_reaches_client (world : World)
        (accounts : list GmailAccount) (id : jsstring)
        (account : GmailAccount) (token : jsstring) (drawn : nat) :
  findAccount accounts id = Some account ->
  ga_isActive account = true ->
  fst (encrypt (Some key) entropy token drawn)
  = Ok (ga_refreshToken account) ->
  well_formed token = true ->
  let out := getGmailClient (Some key) world accounts id in
  ((ga_expiresAt account = None
    \/ exists t, ga_expiresAt account = Some t /\ (now world < t)%N) ->
   out = (Ok (initial_credentials account token), accounts))
  /\ (forall credentials,
         fst out = Ok credentials ->
         credentials = initial_credentials account token
         \/ refreshAccessToken world (initial_credentials account token)
            = Ok credentials).
Proof.
  intros Hf Ha He Hw out. unfold out, getGmailClient. rewrite Hf, Ha.
  cbn [negb]. rewrite (encrypt_sealed key key_set) in He. cbn [fst] in He.
  injection He as He'. rewrite <- He'.
  rewrite (decrypt_encrypt_transcodes key key_set).
  rewrite (utf8_roundtrip _ Hw). cbv zeta.
  split.
  - intros [E|(t & E & Ht)]; rewrite E; [reflexivity|].
    destruct (N.leb_spec t (now world)); [lia|reflexivity].
  - intros credentials. destruct (ga_expiresAt account) as [t|].
    + destruct (t <=? now world)%N.
      * destruct (refreshAccessToken world _) as [c|e] eqn:Er;
          [|intros H; discriminate H].
        destruct (update_fault world); [intros H; discriminate H|].
        cbn [fst]. intros H. inversion H; subst. now right.
      * cbn [fst]. intros H. inversion H. now left.
    + cbn [fst]. intros H. inversion H. now left.
Qed.

End Sealed.

Import Fixtures MoreFixtures.

Lemma fetched_emails_are_new_witness :
  exists n account listed,
    1 <= n <= 4
    /\ ga_id account = lit "acc-1"
    /\ messages_list (mailbox 2000)
         (query (mailbox 2000) account) 50 = Ok listed
    /\ [parseEmailMessage Fixtures.decode_base64_utf8 ascii_lower new_message]
       = map (parseEmailMessage Fixtures.decode_base64_utf8 ascii_lower)
             (filter (fun m => negb (has (Sync.ids [rival_row]) (m_id m)))
                     (fetch_all (mailbox 2000)
                                (match listed with
                                 | Some ms => ms
                                 | None => []
                                 end))).
Proof.
  destruct (fetched_emails_are_new (C := toy) (Some master_key)
              Fixtures.decode_base64_utf8 ascii_lower (fun _ => mailbox 2000)
              [rival_row] (lit "acc-1") 50 [mailbox_account; other_account]
              [parseEmailMessage Fixtures.decode_base64_utf8 ascii_lower
                                 new_message])
    as (n & account & listed & Hn & Hid & Hl & He & _).
  - vm_compute. reflexivity.
  - exists n, account, listed. auto.
Defined.

Lemma sealed_token_reaches_client_witness :
  getGmailClient (C := toy) (Some master_key) (mailbox 500)
                 [mailbox_account; other_account] (lit "acc-1")
  = (Ok (initial_credentials mailbox_account (lit "1//0gRefreshToken")),
     [mailbox_account; other_account]).
Proof.
  assert (Hf : findAccount [mailbox_account; other_account] (lit "acc-1")
               = Some mailbox_account) by reflexivity.
  assert (He : fst (encrypt (C := toy) (Some master_key) Fixtures.entropy
                            (lit "1//0gRefreshToken") 0)
               = Ok (ga_refreshToken mailbox_account))
    by (vm_compute; reflexivity).
  assert (Hw : well_formed (lit "1//0gRefreshToken") = true) by reflexivity.
  apply (proj1 (sealed_token_reaches_client (C := toy) (L := toy_laws)
                  master_key eq_refl Fixtures.entropy (mailbox 500)
                  [mailbox_account; other_account] (lit "acc-1")
                  mailbox_account (lit "1//0gRefreshToken") 0
                  Hf eq_refl He Hw)).
  right. exists 1000%N. split; reflexivity.
Defined.

End GmailMore.

(** ** Bulk unsubscribe: properties *)

Module BulkMore.

Import Executor Bulk.

Lemma update_attempt_ids (id : jsstring) (f : Attempt -> Attempt)
      (table : list Attempt) :
  (forall a, at_id (f a) = at_id a) ->
  map at_id (update_attempt id f table) = map at_id table.
Proof.
  intros Hf. unfold update_attempt. rewrite map_map. apply map_ext.
  intros a. destruct (str_eqb (at_id a) id); [apply Hf|reflexivity].
Qed.

Section WithWorld.

Variable world : World.

Lemma on_error_effect (email : StoredEmail) (e : exn) (st : St) :
  let st' := on_error world email e st in
  exists en,
    results st' = results st ++ [en]
    /\ en_emailId en = em_id email
    /\ en_success en = false
    /\ successCount st' = successCount st
    /\ failureCount st' = S (failureCount st)
    /\ map at_id (attempts st') = map at_id (attempts st)
    /\ trace st' = trace st.
Proof.
  unfold on_error. eexists. cbn.
  split; [reflexivity|]. split; [reflexivity|]. split; [reflexivity|].
  split; [reflexivity|]. split; [reflexivity|]. split; [|reflexivity].
  destruct (mark_fault world (em_id email)); [reflexivity|].
  destruct (latest_attempt (attempts st) (em_id email)); [|reflexivity].
  now apply update_attempt_ids.
Qed.

(** What one iteration does to the state. *)
Lemma process_effect (st : St) (email : StoredEmail) :
  let st' := process world st email in
  exists en added,
    results st' = results st ++ [en]
    /\ en_emailId en = em_id email
    /\ successCount st'
       = successCount st + (if en_success en then 1 else 0)
    /\ failureCount st'
       = failureCount st + (if en_success en then 0 else 1)
    /\ map at_id (attempts st') = map at_id (attempts st) ++ added
    /\ List.length added <= 1.
Proof.
  unfold process.
  destruct (create_fault world (em_id email)) as [e|].
  { destruct (on_error_effect email e st)
      as (en & Hr & Hid & Hs & Hsc & Hfc & Hat & _).
    exists en, []. rewrite Hr, Hs, Hsc, Hfc, Hat, app_nil_r.
    repeat split; auto; simpl; try lia. }
  cbv zeta.
  destruct (unsubscribeEmail (browser world) _ _ (trace st))
    as [[result|e] trace1].
  - destruct (update_fault world _) as [e|].
    + match goal with
      | |- context [on_error world email e ?s] =>
          destruct (on_error_effect email e s)
            as (en & Hr & Hid & Hs & Hsc & Hfc & Hat & _)
      end.
      exists en, [new_attempt_id world (List.length (attempts st))].
      rewrite Hr, Hs, Hsc, Hfc, Hat. cbn [attempts results successCount
                                           failureCount].
      rewrite map_app. repeat split; auto; simpl; try lia.
    + exists {| en_emailId := em_id email;
                en_success := success result;
                en_message := message result;
                en_method := Some (method_name (method result));
                en_error := error result |},
        [new_attempt_id world (List.length (attempts st))].
      cbn [attempts results successCount failureCount en_emailId en_success].
      split; [reflexivity|]. split; [reflexivity|].
      split; [destruct (success result); lia|].
      split; [destruct (success result); lia|].
      split; [|simpl; lia].
      rewrite update_attempt_ids by reflexivity. now rewrite map_app.
  - match goal with
    | |- context [on_error world email e ?s] =>
        destruct (on_error_effect email e s)
          as (en & Hr & Hid & Hs & Hsc & Hfc & Hat & _)
    end.
    exists en, [new_attempt_id world (List.length (attempts st))].
    rewrite Hr, Hs, Hsc, Hfc, Hat. cbn [attempts results successCount
                                         failureCount].
    rewrite map_app. repeat split; auto; simpl; try lia.
Qed.

(** What the loop does to the state. *)
Lemma loop_effect (emails : list StoredEmail) (st : St) :
  let st' := fold_left (process world) emails st in
  exists new added,
    results st' = results st ++ new
    /\ map en_emailId new = map em_id emails
    /\ successCount st'
       = successCount st + List.length (filter en_success new)
    /\ failureCount st'
       = failureCount st
         + List.length (filter (fun en => negb (en_success en)) new)
    /\ map at_id (attempts st') = map at_id (attempts st) ++ added
    /\ List.length added <= List.length emails.
Proof.
  revert st. induction emails as [|email rest IH]; intros st.
  - exists [], []. cbn [fold_left map filter List.length].
    rewrite !app_nil_r, !Nat.add_0_r. repeat split; auto.
  - cbn [fold_left].
    destruct (process_effect st email)
      as (en & a1 & Hr1 & Hid1 & Hs1 & Hf1 & Ha1 & Hl1).
    destruct (IH (process world st email))
      as (new & a2 & Hr2 & Hid2 & Hs2 & Hf2 & Ha2 & Hl2).
    cbv zeta. exists (en :: new), (a1 ++ a2).
    rewrite Hr2, Hr1, Hs2, Hs1, Hf2, Hf1, Ha2, Ha1, <- !app_assoc.
    cbn [map filter app List.length]. rewrite Hid1, Hid2, length_app.
    split; [reflexivity|]. split; [reflexivity|].
    destruct (en_success en); cbn [negb List.length];
      repeat split; auto; lia.
Qed.

(** X30. The bulk handler accounts for every email it is given.  When it
    answers with a summary, the results hold one entry per email that has an
    unsubscribe link, in order, whatever failed on the way (database,
    browser); [succeeded] and [failed] count the entries by their success
    flag and add up to [processed]; [skipped] counts the emails without a
    link, so that skipped and processed together are the emails found; the
    overall flag is set exactly when one entry succeeded; and no attempt row
    is removed, at most one being added per processed email. *)
Theorem bulk_accounts_for_every_email (emailIds : list jsstring)
        (emails : list StoredEmail) (table : list Attempt) (body : Summary)
        (st : St) :
  bulk_unsubscribe world emailIds emails table = (Done body, st) ->
  map en_emailId (s_results body) = map em_id (filter has_link emails)
  /\ s_succeeded body = List.length (filter en_success (s_results body))
  /\ s_failed body
     = List.length (filter (fun en => negb (en_success en)) (s_results body))
  /\ s_processed body = List.length (s_results body)
  /\ s_processed body = s_succeeded body + s_failed body
  /\ s_skipped body + s_processed body = List.length emails
  /\ (s_success body = true <->
      exists en, In en (s_results body) /\ en_success en = true)
  /\ exists added,
       map at_id (attempts st) = map at_id table ++ added
       /\ List.length added <= s_processed body.
Proof.
  unfold bulk_unsubscribe. destruct emails as [|e0 rest] eqn:Ee;
    [intros H; discriminate H|]. rewrite <- Ee. clear Ee e0 rest.
  cbv zeta.
  destruct (filter has_link emails) as [|u0 us] eqn:Eu;
    [intros H; discriminate H|].
  rewrite <- Eu.
  destruct (loop_effect (filter has_link emails)
              {| attempts := table; trace := []; results := [];
                 successCount := 0; failureCount := 0; pauses := 0 |})
    as (new & added & Hr & Hid & Hs & Hf & Ha & Hl).
  cbn [results successCount failureCount attempts app Nat.add] in *.
  intros H. injection H as Hb Hst. subst body st.
  cbn [s_results s_succeeded s_failed s_processed s_skipped s_success].
  rewrite Hr, Hs, Hf.
  assert (Hlen : List.length new = List.length (filter has_link emails)).
  { rewrite <- (length_map en_emailId), Hid. apply length_map. }
  assert (Hsplit : List.length (filter en_success new)
                   + List.length (filter (fun en => negb (en_success en)) new)
                   = List.length new).
  { clear. induction new as [|en l IH]; [reflexivity|].
    cbn [filter]. destruct (en_success en); cbn [negb List.length]; lia. }
  pose proof (filter_length_le has_link emails) as Hle.
  split; [exact Hid|]. split; [reflexivity|]. split; [reflexivity|].
  split; [lia|]. split; [reflexivity|]. split; [lia|]. split.
  - rewrite Nat.ltb_lt. split.
    + intros Hpos.
      destruct (filter en_success new) as [|en l] eqn:Ef;
        [simpl in Hpos; lia|].
      assert (Hin : In en (filter en_success new))
        by (rewrite Ef; now left).
      apply filter_In in Hin. exists en. exact Hin.
    + intros (en & Hin & Hsucc).
      assert (Hin' : In en (filter en_success new))
        by (apply filter_In; auto).
      destruct (filter en_success new); [contradiction|simpl; lia].
  - exists added. split; [exact Ha|]. lia.
Qed.

End WithWorld.

Import Fixtures MoreFixtures.

Lemma bulk_accounts_for_every_email_witness :
  map en_emailId (s_results bulk_body) = map em_id (filter has_link selected)
  /\ s_succeeded bulk_body
     = List.length (filter en_success (s_results bulk_body))
  /\ s_skipped bulk_body + s_processed bulk_body = List.length selected.
Proof.
  destruct (bulk_accounts_for_every_email bulk_world
              [lit "email-1"; lit "email-2"] selected [] bulk_body bulk_state)
    as (H1 & H2 & _ & _ & _ & H6 & _).
  - vm_compute. reflexivity.
  - split; [exact H1|]. split; [exact H2|exact H6].
Defined.

End BulkMore.
